(** * TradeLens: the coordinated multi-view selection engine

    A shallow embedding of the front-end core of the TradeLens dashboard
    (data service, view-state store, cluster assignment, map colour scale,
    scatter regression, bar-chart click handler) together with the
    properties its specification states about it.

    Numbers.  JavaScript numbers are IEEE doubles.  A finite double is a
    rational number, so finite numbers are values of [Q]; where the source
    can see [NaN] or an infinity (the parser of [parseNumericValue]) they
    are explicit constructors of [number].  Comparisons, sorting, counting
    and selection are exact on doubles and are modelled on [Q] as they
    are.  Arithmetic rounds: module [Double] gives the binary64 result of
    an operation as the rational nearest to the exact result with 53
    significant bits (ties to even), and [ScatterPlot64], [PCP64] and
    [Regression64] run the cluster assignment and the regression with it,
    operation by operation as the source does ([Binary64] reads the
    kernel's own binary64 numbers, against which [Double] is checked on
    the examples).  Beside them stand the same
    computations in exact arithmetic ([ScatterPlot], [PCP] over [Q],
    [Regression] over the real numbers), against which the rounded ones
    are compared.

    Asynchrony.  The application runs on one event loop.  [loadAllData] is
    modelled by what it does up to its first [await] and by the events that
    resume it: the settlement of the API requests, the settlement of the
    file requests, the [finally] block of the suspended caller.  A promise
    is named by its position in a table of promises. *)

From Stdlib Require Import ZArith QArith Qround Qabs Qpower List String Ascii Bool.
From Stdlib Require Import Reals Qreals Psatz.
From Stdlib Require Import Sorting.Sorted.
From Stdlib Require Floats Uint63.
Import ListNotations.

Local Open Scope Z_scope.

(** ** Arrays of numbers *)

Module NumArray.

(** [a < b] on finite numbers. *)
Definition Qltb (a b : Q) : bool := negb (Qle_bool b a).

(** Insertion of one value into an ascending array. *)
Fixpoint insert (v : Q) (l : list Q) : list Q :=
  match l with
  | [] => [v]
  | h :: t => if Qle_bool v h then v :: h :: t else h :: insert v t
  end.

(** [arr.sort((a, b) => a - b)] on finite numbers: the ascending
    rearrangement of the array. *)
Fixpoint sortNum (l : list Q) : list Q :=
  match l with
  | [] => []
  | h :: t => insert h (sortNum t)
  end.

(** [arr.indexOf(v)]: position of the first element strictly equal to [v],
    [-1] when there is none. *)
Fixpoint indexOf (v : Q) (l : list Q) : Z :=
  match l with
  | [] => -1
  | h :: t =>
      if Qeq_bool h v then 0
      else let i := indexOf v t in if i <? 0 then -1 else i + 1
  end.

(** [arr.length] as a number. *)
Definition len (l : list Q) : Q := inject_Z (Z.of_nat (List.length l)).

(** Number of elements strictly below [v]: the rank of [v] in [l]. *)
Fixpoint countLt (v : Q) (l : list Q) : Z :=
  match l with
  | [] => 0
  | h :: t => (if Qltb h v then 1 else 0) + countLt v t
  end.

(** [v] occurs in [l] (as a number). *)
Definition InQ (v : Q) (l : list Q) : Prop := exists w, In w l /\ w == v.

End NumArray.

Import NumArray.

(** ** JavaScript values and [parseFloat] *)

Module JS.

(** A number: [NaN], a finite value, or an infinity. *)
Inductive number := NaN | Num (q : Q) | Infinity (negative : bool).

(** The values a table cell can hold. *)
Inductive value := Null | Undefined | Number (n : number) | Str (s : string).

(** [n] is falsy (as the left operand of [||]): [NaN] or zero. *)
Definition falsy (n : number) : bool :=
  match n with
  | NaN => true
  | Num q => Qeq_bool q 0
  | Infinity _ => false
  end.

(** [n || 0]. *)
Definition orZero (n : number) : number := if falsy n then Num 0 else n.

(** Truthiness of a value. *)
Definition truthy (v : value) : bool :=
  match v with
  | Null | Undefined => false
  | Number n => negb (falsy n)
  | Str s => negb (String.eqb s "")
  end.

(** [a || b]. *)
Definition or (a b : value) : value := if truthy a then a else b.

(** White space skipped by [parseFloat] (the ASCII part of it). *)
Definition isWhite (c : ascii) : bool :=
  let n := nat_of_ascii c in
  ((n =? 32) || ((9 <=? n) && (n <=? 13)))%nat.

Fixpoint trimStart (s : string) : string :=
  match s with
  | String c r => if isWhite c then trimStart r else s
  | EmptyString => s
  end.

Definition digit (c : ascii) : option Z :=
  let n := nat_of_ascii c in
  if ((48 <=? n) && (n <=? 57))%nat then Some (Z.of_nat (n - 48)) else None.

(** Reads a run of decimal digits: its value, its length, what follows. *)
Fixpoint digits (s : string) (acc : Z) (cnt : nat) : Z * nat * string :=
  match s with
  | String c r =>
      match digit c with
      | Some d => digits r (10 * acc + d) (S cnt)
      | None => (acc, cnt, s)
      end
  | EmptyString => (acc, cnt, s)
  end.

Definition pow10 (e : Z) : Q := Qpower (10 # 1) e.

(** The exponent part [e±ddd] at the head of [s], 0 when there is none. *)
Definition exponent (s : string) : Z :=
  match s with
  | String c r =>
      if (Ascii.eqb c "e" || Ascii.eqb c "E")%bool then
        let '(sign, r') :=
          match r with
          | String "+"%char r' => (1, r')
          | String "-"%char r' => (-1, r')
          | _ => (1, r)
          end in
        let '(v, n, _) := digits r' 0 0 in
        if (n =? 0)%nat then 0 else sign * v
      else 0
  | EmptyString => 0
  end.

(** The longest prefix that is an unsigned decimal literal, as an exact
    rational; [None] when no digit can be read. *)
Definition unsignedDecimal (s : string) : option Q :=
  let '(ip, ni, r1) := digits s 0 0 in
  let '(fp, nf, r2) :=
    match r1 with
    | String "."%char r => digits r 0 0
    | _ => (0, 0%nat, r1)
    end in
  if (ni + nf =? 0)%nat then None
  else Some ((inject_Z ip + inject_Z fp / pow10 (Z.of_nat nf))
             * pow10 (exponent r2))%Q.

(** [parseFloat(s)]. *)
Definition parseFloat (s : string) : number :=
  let t := trimStart s in
  let '(negative, u) :=
    match t with
    | String "-"%char r => (true, r)
    | String "+"%char r => (false, r)
    | _ => (false, t)
    end in
  if String.prefix "Infinity" u then Infinity negative
  else match unsignedDecimal u with
       | Some q => Num (if negative then - q else q)%Q
       | None => NaN
       end.

(** [s.replace(/c/g, '')]: every occurrence of [c] removed. *)
Fixpoint removeAll (c : ascii) (s : string) : string :=
  match s with
  | EmptyString => EmptyString
  | String a r =>
      if Ascii.eqb a c then removeAll c r else String a (removeAll c r)
  end.

(** [s.replace('c', '')]: the first occurrence of [c] removed. *)
Fixpoint removeFirst (c : ascii) (s : string) : string :=
  match s with
  | EmptyString => EmptyString
  | String a r => if Ascii.eqb a c then r else String a (removeFirst c r)
  end.

End JS.

(** ** Shared types (types/index.ts) *)

(** [ChartFeature]: 'Co2-Emissions' | 'GDP' | 'Population' | 'Life expectancy'. *)
Inductive ChartFeature := Co2Emissions | GDP | Population | LifeExpectancy.

Definition ChartFeature_eqb (a b : ChartFeature) : bool :=
  match a, b with
  | Co2Emissions, Co2Emissions | GDP, GDP
  | Population, Population | LifeExpectancy, LifeExpectancy => true
  | _, _ => false
  end.

(** [GeojsonFeature]: the name aliases of a feature's property bag
    ([None] is [undefined]); the geometry plays no part here. *)
Record Properties := mkProperties {
  NAME : option string;
  Country : option string;
  name : option string
}.

Record Feature := mkFeature { properties : option Properties }.

(** ** The d3 functions the renderers call

    d3 is a third-party library (version 6 or later, by the
    [(event, d)] listeners of the components); these definitions follow its
    behaviour on arrays of finite numbers.  [None] stands for
    [undefined]. *)

Module D3.

(** [Math.min(a, b)] and [Math.max(a, b)]. *)
Definition qmin (a b : Q) : Q := if Qle_bool a b then a else b.
Definition qmax (a b : Q) : Q := if Qle_bool b a then a else b.

(** [d3.min] and [d3.max]. *)
Fixpoint min (values : list Q) : option Q :=
  match values with
  | [] => None
  | h :: t => match min t with
              | None => Some h
              | Some m => Some (qmin h m)
              end
  end.

Fixpoint max (values : list Q) : option Q :=
  match values with
  | [] => None
  | h :: t => match max t with
              | None => Some h
              | Some m => Some (qmax h m)
              end
  end.

(** [d3.extent]. *)
Definition extent (values : list Q) : option Q * option Q :=
  (min values, max values).

(** [d3.quantile(values, p)] on an ascending array: nothing for an empty
    array, the least value when [p <= 0] or [n < 2], the greatest when
    [p >= 1], otherwise with [i = (n - 1) * p] and [i0 = Math.floor(i)] the
    interpolation [value0 + (value1 - value0) * (i - i0)] between
    [value0 = values[i0]] and [value1 = values[i0 + 1]]. *)
Definition quantile (values : list Q) (p : Q) : option Q :=
  let n := Z.of_nat (List.length values) in
  if n =? 0 then None
  else if Qle_bool p 0 || (n <? 2) then min values
  else if Qle_bool 1 p then max values
  else
    let i := (inject_Z (n - 1) * p)%Q in
    let i0 := Qfloor i in
    let value0 := nth (Z.to_nat i0) values 0%Q in
    let value1 := nth (Z.to_nat (i0 + 1)) values 0%Q in
    Some (value0 + (value1 - value0) * (i - inject_Z i0))%Q.

(** A sequential scale: its domain and whether it clamps. *)
Record Sequential := mkSequential {
  domain : option Q * option Q;
  clamp : bool
}.

(** The argument a sequential scale hands to its interpolator for the
    input [x]: with [k10 = x0 === x1 ? 0 : 1 / (x1 - x0)] it is
    [k10 === 0 ? 0.5 : (x = (x - x0) * k10,
     clamp ? Math.max(0, Math.min(1, x)) : x)].  [None] is [NaN]: with an
    undefined end of the domain [k10] is [NaN], and so is the argument,
    clamped or not. *)
Definition param (sc : Sequential) (x : Q) : option Q :=
  match domain sc with
  | (Some x0, Some x1) =>
      if Qeq_bool x0 x1 then Some (1 # 2)
      else
        let t := ((x - x0) * (1 / (x1 - x0)))%Q in
        Some (if clamp sc then qmax 0 (qmin 1 t) else t)
  | _ => None
  end.

End D3.


(** ** Double-precision arithmetic

    The result of a binary64 operation is the exact result rounded to the
    nearest number with 53 significant bits, the one with an even last bit
    when two are equally near.  The exponent range is not bounded here:
    the definitions give the binary64 result whenever that result is zero
    or of magnitude between 2^-1022 and 2^1024 (no overflow, no gradual
    underflow), which holds of every computation they are used for. *)

Module Double.

(** [floor(log2 x)] of a positive [x]. *)
Definition ilog2 (x : Q) : Z :=
  let e0 := Z.log2 (Qnum x) - Z.log2 (Zpos (Qden x)) in
  if Qle_bool (Qpower 2 e0) x then e0 else e0 - 1.

(** The integer nearest to [y], the even one of two that are equally
    near. *)
Definition nearestEven (y : Q) : Z :=
  let f := Qfloor y in
  match Qcompare (y - inject_Z f) (1 # 2) with
  | Lt => f
  | Gt => f + 1
  | Eq => if Z.even f then f else f + 1
  end.

(** The gap between the doubles around [x]: with [2^e <= |x| < 2^(e+1)],
    [2^(e-52)]. *)
Definition ulp (x : Q) : Q := Qpower 2 (ilog2 (Qabs x) - 52).

(** The double nearest to [x]. *)
Definition round (x : Q) : Q :=
  if Qeq_bool x 0 then 0%Q
  else Qred (inject_Z (nearestEven (x / ulp x)) * ulp x).

(** [a + b], [a - b], [a * b] and [a / b] on doubles. *)
Definition add (a b : Q) : Q := round (a + b).
Definition sub (a b : Q) : Q := round (a - b).
Definition mul (a b : Q) : Q := round (a * b).
Definition div (a b : Q) : Q := round (a / b).

(** [Math.sqrt(x)] for [x >= 0]: the double nearest to the root.  With
    [4^e <= x < 4^(e+1)] the root lies in [[2^e, 2^(e+1))], where doubles
    are [2^(e-52)] apart; [m] is the root in that unit, rounded down. *)
Definition sqrt (x : Q) : Q :=
  if Qle_bool x 0 then 0%Q
  else
    let e := ilog2 x / 2 in
    let unit := Qpower 2 (e - 52) in
    let y := (x / (unit * unit))%Q in
    let m := Z.sqrt (Qfloor y) in
    let half := (inject_Z m + (1 # 2))%Q in
    let m' := if Qle_bool (half * half) y then m + 1 else m in
    Qred (inject_Z m' * unit).

(** The unit roundoff of binary64. *)
Definition u : Q := Qpower 2 (-53).


End Double.

(** The binary64 numbers of the kernel, read as rationals. *)
Module Binary64.

(** The double of a whole number of small magnitude. *)
Definition ofInteger (z : Z) : PrimFloat.float :=
  if z <? 0 then PrimFloat.opp (PrimFloat.of_uint63 (Uint63.of_Z (- z)))
  else PrimFloat.of_uint63 (Uint63.of_Z z).

(** The value of a finite double; nothing for [NaN] and the infinities. *)
Definition valueOf (f : PrimFloat.float) : option Q :=
  match FloatOps.Prim2SF f with
  | SpecFloat.S754_zero _ => Some 0%Q
  | SpecFloat.S754_finite s m e =>
      Some (Qred ((if s then -1 else 1) * inject_Z (Zpos m) * Qpower 2 e))%Q
  | _ => None
  end.

End Binary64.
(** ** Data service (dataService.ts) *)

(** [parseNumericValue]. *)
Definition parseNumericValue (value : JS.value) : JS.number :=
  match value with
  | JS.Null | JS.Undefined => JS.Num 0
  | JS.Number n => n
  | JS.Str s =>
      let cleanValue :=
        JS.removeFirst "%" (JS.removeFirst "$" (JS.removeAll "," s)) in
      JS.orZero (JS.parseFloat cleanValue)
  end.

Module DataService.

Import JS.

(** An [Error], by its message. *)
Definition Error := string.

(** A JSON or CSV object: its properties in order. *)
Definition Row := list (string * value).

(** [d[key]]. *)
Fixpoint get (d : Row) (key : string) : value :=
  match d with
  | [] => Undefined
  | (k, v) :: r => if String.eqb k key then v else get r key
  end.

(** Key equality of a [Map] (SameValueZero). *)
Definition sameValueZero (a b : value) : bool :=
  match a, b with
  | Null, Null | Undefined, Undefined => true
  | Number NaN, Number NaN => true
  | Number (Num p), Number (Num q) => Qeq_bool p q
  | Number (Infinity m), Number (Infinity n) => Bool.eqb m n
  | Str s, Str t => String.eqb s t
  | _, _ => false
  end.

(** [m.set(key, v)] on a [Map] kept in insertion order. *)
Fixpoint mapSet (key : value) (v : Row) (m : list (value * Row))
  : list (value * Row) :=
  match m with
  | [] => [(key, v)]
  | (k', v') :: r =>
      if sameValueZero k' key then (k', v) :: r
      else (k', v') :: mapSet key v r
  end.

(** The geometry document: a falsy value ([null]), or an object with an
    optional [features] array. *)
Inductive GeoJson :=
| GeoNull
| GeoObject (features : option (list Feature)).

(** What the geometry endpoint sends: a bare array of features, or any
    other document. *)
Inductive GeoResponse :=
| FeatureArray (features : list Feature)
| Document (g : GeoJson).

(** The private fields of the service; a promise is named by a number. *)
Record Service := mkService {
  worldData : list (value * Row);
  csvData : list Row;
  geoData : GeoJson;
  loading : bool;
  loadPromise : option nat
}.

Definition empty : Service :=
  {| worldData := []; csvData := []; geoData := GeoNull;
     loading := false; loadPromise := None |}.

(** [isLoaded()]. *)
Definition isLoaded (s : Service) : bool :=
  (0 <? Z.of_nat (List.length (worldData s)))
  && (0 <? Z.of_nat (List.length (csvData s)))
  && match geoData s with GeoNull => false | GeoObject _ => true end.

(** The loop body of [_loadData]: one API row into [worldData]. *)
Definition addApiRow (m : list (value * Row)) (d : Row) : list (value * Row) :=
  let countryName := or (get d "country") (or (get d "Country") (get d "NAME")) in
  if truthy countryName then
    mapSet countryName
      [("Country", countryName);
       ("Co2-Emissions", or (get d "co2_emissions") (Number (Num 0)));
       ("GDP", or (get d "gdp") (Number (Num 0)));
       ("Population", or (get d "population") (Number (Num 0)));
       ("Life expectancy", or (get d "life_expectancy") (Number (Num 0)))]%string
      m
  else m.

(** The loop body of [_loadFallbackData]: one CSV row into [worldData]. *)
Definition addCsvRow (m : list (value * Row)) (d : Row) : list (value * Row) :=
  let countryName := or (get d "Country") (or (get d "country") (get d "NAME")) in
  if truthy countryName then mapSet countryName d m else m.

(** How a promise settles. *)
Inductive Result := Resolved | Rejected (e : Error).

(** What the two API requests deliver.  The bodies are taken to have the
    shapes the endpoints document: an array of objects for the country
    table, an array of features or a collection for the geometry. *)
Inductive ApiOutcome :=
| ApiRejected (e : Error)             (* a [fetch] rejects *)
| ApiNotOk                            (* a response is not [ok] *)
| ApiGeoBodyFailed (e : Error)        (* [geoResponse.json()] rejects *)
| ApiCountriesBodyFailed (e : Error)  (* [countriesResponse.json()] rejects *)
| ApiBodies (geo : GeoResponse) (countries : list Row).

(** What the two static files deliver; [csv = None] is a falsy table. *)
Inductive FilesOutcome :=
| FilesRejected (e : Error)
| FilesLoaded (geo : GeoJson) (csv : option (list Row)).

(** The [try] block of [_loadData] once its requests have settled: the
    new fields, and the error thrown if any. *)
Definition tryApi (o : ApiOutcome) (s : Service) : Service * option Error :=
  match o with
  | ApiRejected e => (s, Some e)
  | ApiNotOk => (s, Some "Failed to fetch data from API"%string)
  | ApiGeoBodyFailed e => (s, Some e)
  | ApiCountriesBodyFailed e => (s, Some e)
  | ApiBodies geoJsonResponse countries =>
      ({| worldData := fold_left addApiRow countries [];
          csvData := countries;
          geoData := match geoJsonResponse with
                     | FeatureArray fs => GeoObject (Some fs)
                     | Document g => g
                     end;
          loading := loading s;
          loadPromise := loadPromise s |}, None)
  end.

(** [_loadFallbackData] once its requests have settled. *)
Definition _loadFallbackData (o : FilesOutcome) (s : Service)
  : Service * Result :=
  match o with
  | FilesRejected error => (s, Rejected error)
  | FilesLoaded geo csv =>
      let csvData' := match csv with Some rows => rows | None => [] end in
      ({| worldData := fold_left addCsvRow csvData' [];
          csvData := csvData';
          geoData := geo;
          loading := loading s;
          loadPromise := loadPromise s |}, Resolved)
  end.

(** [_loadData], run to its end against the outcomes of both sources. *)
Definition _loadData (api : ApiOutcome) (files : FilesOutcome) (s : Service)
  : Service * Result :=
  match tryApi api s with
  | (s', None) => (s', Resolved)
  | (s', Some _) => _loadFallbackData files s'
  end.

(** *** The event loop around [loadAllData] *)

(** Network requests, in the order they are issued. *)
Inductive Request := ApiGeojson | ApiCountries | FileGeojson | FileCsv.

(** The number of API request pairs in a log: its requests for the
    geometry. *)
Definition apiPairs (rs : list Request) : nat :=
  List.length (filter (fun r => match r with ApiGeojson => true | _ => false end) rs).

(** Where a promise made by [_loadData] stands. *)
Inductive LoadPhase := AwaitingApi | AwaitingFiles | Settled (r : Result).

(** The service, the requests issued so far, the promises made by
    [_loadData] (promise [p] is entry [p]) and the activations of
    [loadAllData] suspended at [await this.loadPromise]. *)
Record World := mkWorld {
  service : Service;
  requests : list Request;
  promises : list LoadPhase;
  suspended : list nat
}.

Definition initial : World :=
  {| service := empty; requests := []; promises := []; suspended := [] |}.

(** A load that has not settled yet. *)
Definition unsettled (ph : LoadPhase) : bool :=
  match ph with
  | Settled _ => false
  | AwaitingApi | AwaitingFiles => true
  end.

(** At most one load is running, and the fields say which: a suspended
    activation waits on the latest promise while [loading] is set and
    [loadPromise] holds that promise; a promise that has not settled has
    its activation suspended, and the service is not loaded. *)
Definition singleFlight (w : World) : Prop :=
  (forall p, In p (suspended w) ->
     S p = List.length (promises w)
     /\ loading (service w) = true
     /\ loadPromise (service w) = Some p)
  /\ (List.length (suspended w) <= 1)%nat
  /\ (forall p ph, nth_error (promises w) p = Some ph -> unsettled ph = true ->
       In p (suspended w) /\ isLoaded (service w) = false).

(** What a call hands back: a promise already fulfilled, or one that
    settles as promise [p] does. *)
Inductive Returned := Immediately | Follows (p : nat).

(** [loadAllData()] up to its first suspension. *)
Definition loadAllData (w : World) : World * Returned :=
  let s := service w in
  if isLoaded s then (w, Immediately)
  else
    match loading s, loadPromise s with
    | true, Some p => (w, Follows p)
    | _, _ =>
        let p := List.length (promises w) in
        ({| service := {| worldData := worldData s; csvData := csvData s;
                          geoData := geoData s;
                          loading := true; loadPromise := Some p |};
            requests := requests w ++ [ApiGeojson; ApiCountries];
            promises := promises w ++ [AwaitingApi];
            suspended := suspended w ++ [p] |}, Follows p)
    end.

(** Entry [p] of the promise table replaced. *)
Fixpoint setPhase (p : nat) (ph : LoadPhase) (l : list LoadPhase) :=
  match l, p with
  | [], _ => []
  | _ :: t, O => ph :: t
  | h :: t, S p' => h :: setPhase p' ph t
  end.

(** The API requests of load [p] settle. *)
Definition apiSettles (p : nat) (o : ApiOutcome) (w : World) : option World :=
  match nth_error (promises w) p with
  | Some AwaitingApi =>
      match tryApi o (service w) with
      | (s', None) =>
          Some {| service := s'; requests := requests w;
                  promises := setPhase p (Settled Resolved) (promises w);
                  suspended := suspended w |}
      | (s', Some _) =>
          Some {| service := s';
                  requests := requests w ++ [FileGeojson; FileCsv];
                  promises := setPhase p AwaitingFiles (promises w);
                  suspended := suspended w |}
      end
  | _ => None
  end.

(** The file requests of load [p] settle. *)
Definition filesSettle (p : nat) (o : FilesOutcome) (w : World)
  : option World :=
  match nth_error (promises w) p with
  | Some AwaitingFiles =>
      let '(s', r) := _loadFallbackData o (service w) in
      Some {| service := s'; requests := requests w;
              promises := setPhase p (Settled r) (promises w);
              suspended := suspended w |}
  | _ => None
  end.

(** The first occurrence of [p] taken out of the suspended activations. *)
Fixpoint removeOne (p : nat) (l : list nat) : list nat :=
  match l with
  | [] => []
  | h :: t => if Nat.eqb h p then t else h :: removeOne p t
  end.

(** The activation suspended on the settled promise [p] resumes and runs
    its [finally] block. *)
Definition resume (p : nat) (w : World) : option World :=
  match nth_error (promises w) p with
  | Some (Settled _) =>
      if existsb (Nat.eqb p) (suspended w) then
        let s := service w in
        Some {| service := {| worldData := worldData s; csvData := csvData s;
                              geoData := geoData s;
                              loading := false;
                              loadPromise := loadPromise s |};
                requests := requests w;
                promises := promises w;
                suspended := removeOne p (suspended w) |}
      else None
  | _ => None
  end.

(** What can happen: a call of [loadAllData], the settlement of the
    requests of a load, the resumption of a suspended caller. *)
Inductive Event :=
| Call
| ApiSettles (p : nat) (o : ApiOutcome)
| FilesSettle (p : nat) (o : FilesOutcome)
| Resume (p : nat).

(** One event; what the call returned, when the event is a call. *)
Definition step (w : World) (e : Event) : option (World * list Returned) :=
  match e with
  | Call => let '(w', r) := loadAllData w in Some (w', [r])
  | ApiSettles p o => option_map (fun w' => (w', [])) (apiSettles p o w)
  | FilesSettle p o => option_map (fun w' => (w', [])) (filesSettle p o w)
  | Resume p => option_map (fun w' => (w', [])) (resume p w)
  end.

(** A schedule of events; [None] when an event cannot happen. *)
Fixpoint run (w : World) (es : list Event) : option (World * list Returned) :=
  match es with
  | [] => Some (w, [])
  | e :: es' =>
      match step w e with
      | Some (w', rs) =>
          match run w' es' with
          | Some (w'', rs') => Some (w'', rs ++ rs')
          | None => None
          end
      | None => None
      end
  end.

(** How the promise returned by a call has settled in [w], if it has. *)
Definition outcome (w : World) (r : Returned) : option Result :=
  match r with
  | Immediately => Some Resolved
  | Follows p =>
      match nth_error (promises w) p with
      | Some (Settled res) => Some res
      | _ => None
      end
  end.

(** One call of [loadAllData] on an idle service, run to its end against
    the outcomes of both sources. *)
Definition loadAll (api : ApiOutcome) (files : FilesOutcome) (w : World)
  : option Result :=
  let '(w1, r) := loadAllData w in
  match r with
  | Immediately => Some Resolved
  | Follows p =>
      match apiSettles p api w1 with
      | Some w2 =>
          match nth_error (promises w2) p with
          | Some AwaitingFiles =>
              match filesSettle p files w2 with
              | Some w3 => outcome w3 r
              | None => None
              end
          | _ => outcome w2 r
          end
      | None => outcome w1 r
      end
  end.

(** The error the primary source fails with, if it fails. *)
Definition primaryError (api : ApiOutcome) : option Error :=
  snd (tryApi api empty).

End DataService.

(** ** The view-state store (appStore.ts) *)

Module AppStore.

Inductive Axis := X | Y.

(** The state held by [useAppStore]. *)
Record AppStore := mkStore {
  isLoading : bool;
  error : option string;
  selectedCountries : list string;
  mapFeature : ChartFeature;
  xVar : ChartFeature;
  yVar : ChartFeature;
  k : Z;
  currentAxis : Axis
}.

(** Initial state. *)
Definition initial : AppStore :=
  {| isLoading := false;
     error := None;
     selectedCountries :=
       ["United States"; "China"; "India"; "Germany"; "Japan";
        "United Kingdom"; "France"]%string;
     mapFeature := Population;
     xVar := Co2Emissions;
     yVar := Population;
     k := 4;
     currentAxis := X |}.

(** Every setter is [set] of a partial object: the named field is replaced,
    the others are kept. *)
Definition setSelectedCountries (countries : list string) (s : AppStore) :=
  {| isLoading := isLoading s; error := error s;
     selectedCountries := countries;
     mapFeature := mapFeature s; xVar := xVar s; yVar := yVar s;
     k := k s; currentAxis := currentAxis s |}.

Definition setMapFeature (feature : ChartFeature) (s : AppStore) :=
  {| isLoading := isLoading s; error := error s;
     selectedCountries := selectedCountries s;
     mapFeature := feature; xVar := xVar s; yVar := yVar s;
     k := k s; currentAxis := currentAxis s |}.

Definition setXVar (variable : ChartFeature) (s : AppStore) :=
  {| isLoading := isLoading s; error := error s;
     selectedCountries := selectedCountries s;
     mapFeature := mapFeature s; xVar := variable; yVar := yVar s;
     k := k s; currentAxis := currentAxis s |}.

Definition setYVar (variable : ChartFeature) (s : AppStore) :=
  {| isLoading := isLoading s; error := error s;
     selectedCountries := selectedCountries s;
     mapFeature := mapFeature s; xVar := xVar s; yVar := variable;
     k := k s; currentAxis := currentAxis s |}.

Definition setK (k' : Z) (s : AppStore) :=
  {| isLoading := isLoading s; error := error s;
     selectedCountries := selectedCountries s;
     mapFeature := mapFeature s; xVar := xVar s; yVar := yVar s;
     k := k'; currentAxis := currentAxis s |}.

Definition setCurrentAxis (axis : Axis) (s : AppStore) :=
  {| isLoading := isLoading s; error := error s;
     selectedCountries := selectedCountries s;
     mapFeature := mapFeature s; xVar := xVar s; yVar := yVar s;
     k := k s; currentAxis := axis |}.

Definition setIsLoading (loading : bool) (s : AppStore) :=
  {| isLoading := loading; error := error s;
     selectedCountries := selectedCountries s;
     mapFeature := mapFeature s; xVar := xVar s; yVar := yVar s;
     k := k s; currentAxis := currentAxis s |}.

Definition setError (e : option string) (s : AppStore) :=
  {| isLoading := isLoading s; error := e;
     selectedCountries := selectedCountries s;
     mapFeature := mapFeature s; xVar := xVar s; yVar := yVar s;
     k := k s; currentAxis := currentAxis s |}.

Definition clearData (s : AppStore) :=
  {| isLoading := isLoading s;
     error := None;
     selectedCountries := [];
     mapFeature := Co2Emissions;
     xVar := Co2Emissions;
     yVar := Population;
     k := 4;
     currentAxis := X |}.

End AppStore.

(** ** Cluster assignment (ScatterPlot.tsx, PCP.tsx)

    The two functions in exact arithmetic; [ScatterPlot64] and [PCP64]
    below round each operation as the engine does. *)

Module ScatterPlot.

(** One plotted point: [{ country, x, y }]. *)
Record Point := mkPoint { country : string; x : Q; y : Q }.

(** [assignCluster] of [drawScatterPlot]; [data] and [k] are the variables
    it closes over. *)
Definition assignCluster (data : list Point) (k : Z) (point : Point) : Z :=
  let xValues := sortNum (map x data) in
  let yValues := sortNum (map y data) in
  let xPercentile := (inject_Z (indexOf (x point) xValues) / len xValues)%Q in
  let yPercentile := (inject_Z (indexOf (y point) yValues) / len yValues)%Q in
  let clusterIndex :=
    Qfloor ((xPercentile + yPercentile) * inject_Z k / 2)%Q in
  Z.min clusterIndex (k - 1).

End ScatterPlot.

Module PCP.

(** The four axes, in the order of the [columns] array. *)
Definition columns : list ChartFeature :=
  [Co2Emissions; GDP; Population; LifeExpectancy].

(** One record produced by [getValidDataForPCP]. *)
Record DataPoint := mkDataPoint {
  country : string;
  co2Emissions : Q;
  gdp : Q;
  population : Q;
  lifeExpectancy : Q
}.

(** [d[col]]. *)
Definition get (d : DataPoint) (col : ChartFeature) : Q :=
  match col with
  | Co2Emissions => co2Emissions d
  | GDP => gdp d
  | Population => population d
  | LifeExpectancy => lifeExpectancy d
  end.

(** [columns[i]]. *)
Definition column (i : nat) : ChartFeature := nth i columns Co2Emissions.

(** [assignCluster] of [drawVisualization]; [filteredData] and [k] are the
    variables it closes over. *)
Definition assignCluster (filteredData : list DataPoint) (k : Z)
           (point : DataPoint) : Z :=
  let col1Values := sortNum (map (fun d => get d (column 0)) filteredData) in
  let col2Values := sortNum (map (fun d => get d (column 1)) filteredData) in
  let col1Percentile :=
    (inject_Z (indexOf (get point (column 0)) col1Values) / len col1Values)%Q in
  let col2Percentile :=
    (inject_Z (indexOf (get point (column 1)) col2Values) / len col2Values)%Q in
  let clusterIndex :=
    Qfloor ((col1Percentile + col2Percentile) * inject_Z k / 2)%Q in
  Z.min clusterIndex (k - 1).

End PCP.


(** ** Cluster assignment in double precision

    The two [assignCluster] functions again, every arithmetic operation
    rounded as the JavaScript engine rounds it.  The comparator of [sort]
    only uses the sign of [a - b], which rounding keeps, and [indexOf]
    compares with [===]: the sorted arrays and the ranks are those of
    [ScatterPlot.assignCluster] and [PCP.assignCluster]. *)

Module ScatterPlot64.

Import ScatterPlot.

(** [assignCluster] of [drawScatterPlot]. *)
Definition assignCluster (data : list Point) (k : Z) (point : Point) : Z :=
  let xValues := sortNum (map x data) in
  let yValues := sortNum (map y data) in
  let xPercentile :=
    Double.div (inject_Z (indexOf (x point) xValues)) (len xValues) in
  let yPercentile :=
    Double.div (inject_Z (indexOf (y point) yValues)) (len yValues) in
  let clusterIndex :=
    Qfloor (Double.div
              (Double.mul (Double.add xPercentile yPercentile) (inject_Z k))
              2) in
  Z.min clusterIndex (k - 1).

End ScatterPlot64.

Module PCP64.

Import PCP.

(** [assignCluster] of [drawVisualization]. *)
Definition assignCluster (filteredData : list DataPoint) (k : Z)
           (point : DataPoint) : Z :=
  let col1Values := sortNum (map (fun d => get d (column 0)) filteredData) in
  let col2Values := sortNum (map (fun d => get d (column 1)) filteredData) in
  let col1Percentile :=
    Double.div (inject_Z (indexOf (get point (column 0)) col1Values))
               (len col1Values) in
  let col2Percentile :=
    Double.div (inject_Z (indexOf (get point (column 1)) col2Values))
               (len col2Values) in
  let clusterIndex :=
    Qfloor (Double.div
              (Double.mul (Double.add col1Percentile col2Percentile)
                          (inject_Z k))
              2) in
  Z.min clusterIndex (k - 1).

End PCP64.
(** ** Bar chart of the clustering error (BarChart.tsx) *)

Module BarChart.

(** The datum bound to bar [i] by [.data(validMseData)]: [validMseData[i]]. *)
Definition datum (validMseData : list Q) (i : nat) : option Q :=
  nth_error validMseData i.

(** The ["click"] handler of a bar whose datum is [d]:
    [newK = validMseData.indexOf(d) + 1; setK(newK)]. *)
Definition onClick (validMseData : list Q) (d : Q)
           (s : AppStore.AppStore) : AppStore.AppStore :=
  let newK := indexOf d validMseData + 1 in
  AppStore.setK newK s.

(** Clicking bar [i] (0-based); no bar, no handler. *)
Definition clickBar (validMseData : list Q) (i : nat)
           (s : AppStore.AppStore) : AppStore.AppStore :=
  match datum validMseData i with
  | Some d => onClick validMseData d s
  | None => s
  end.

End BarChart.

(** ** World map (Map.tsx) *)

Module Map.

(** Truthiness of a string-or-undefined value. *)
Definition truthy (v : option string) : bool :=
  match v with
  | Some s => negb (String.eqb s "")
  | None => false
  end.

(** [a || b]. *)
Definition or (a b : option string) : option string :=
  if truthy a then a else b.

(** [d.properties?.p]. *)
Definition prop (d : Feature) (p : Properties -> option string)
  : option string :=
  match properties d with
  | Some ps => p ps
  | None => None
  end.

(** [getCountryName]. *)
Definition getCountryName (d : Feature) : option string :=
  or (prop d NAME) (or (prop d Country) (prop d name)).

(** [countries.includes(c)]. *)
Definition includes (c : string) (countries : list string) : bool :=
  existsb (String.eqb c) countries.

(** [mouseClick]: the list handed to [setCountries], or [None] when the
    handler makes no call. *)
Definition mouseClick (countries : list string) (d : Feature)
  : option (list string) :=
  let countryName := getCountryName d in
  if truthy countryName then
    match countryName with
    | Some c =>
        let isSelected := includes c countries in
        Some (if isSelected
              then filter (fun c' => negb (String.eqb c' c)) countries
              else countries ++ [c])
    | None => None
    end
  else None.

(** The click as it acts on the store: [countries] is the store's
    [selectedCountries] and [setCountries] its [setSelectedCountries]. *)
Definition click (d : Feature) (s : AppStore.AppStore) : AppStore.AppStore :=
  match mouseClick (AppStore.selectedCountries s) d with
  | Some countries => AppStore.setSelectedCountries countries s
  | None => s
  end.

(** *** The colour scale *)

Section ColorScale.

(** [d3.interpolate(a, b)(t)] between two colours; [None] is the
    argument [NaN]. *)
Variable interpolate : string -> string -> option Q -> string.

(** [customInterpolator]; [NaN < 0.5] is false. *)
Definition customInterpolator (t : option Q) : string :=
  match t with
  | Some t =>
      if Qltb t (1 # 2) then
        let localT := (t * 2)%Q in
        interpolate "#EFF6FF" "#1E3A8A" (Some localT)
      else
        let localT := ((t - (1 # 2)) * 2)%Q in
        interpolate "#1E3A8A" "#EA580C" (Some localT)
  | None => interpolate "#1E3A8A" "#EA580C" None
  end.

(** [a || b] on numbers that may be undefined. *)
Definition orNum (a b : option Q) : option Q :=
  match a with
  | Some q => if Qeq_bool q 0 then b else a
  | None => b
  end.

(** The scale built by [drawVisualization] from the valid values of the
    selected feature. *)
Definition colorScale (feature : ChartFeature) (values : list Q)
  : D3.Sequential :=
  if ChartFeature_eqb feature LifeExpectancy then
    {| D3.domain := D3.extent values; D3.clamp := false |}
  else
    let sortedValues := sortNum values in
    let minVal :=
      orNum (D3.quantile sortedValues (5 # 100)) (nth_error sortedValues 0) in
    let maxVal :=
      orNum (D3.quantile sortedValues (95 # 100))
            (nth_error sortedValues (List.length sortedValues - 1)) in
    {| D3.domain := (minVal, maxVal); D3.clamp := true |}.

(** [colorScale(numValue)]: the fill of a country. *)
Definition fill (sc : D3.Sequential) (numValue : Q) : string :=
  customInterpolator (D3.param sc numValue).

End ColorScale.

End Map.

(** ** Regression line and correlation (ScatterPlot.tsx)

    [leastSquares] and [calculateCorrelation], first over the real numbers:
    the loops as they are written, with arithmetic that does not round.
    [Regression64] below runs the same loops in double precision. *)

Module Regression.

Local Open Scope R_scope.

(** [d3.mean(series) || 0]: the mean, 0 for an empty series. *)
Definition meanOr0 (series : list R) : R :=
  match series with
  | [] => 0
  | _ => fold_left Rplus series 0 / INR (List.length series)
  end.

Record Line := mkLine { slope : R; intercept : R }.

(** [leastSquares]; the loop runs over the first
    [min(xSeries.length, ySeries.length)] positions. *)
Definition leastSquares (xSeries ySeries : list R) : Line :=
  let xMean := meanOr0 xSeries in
  let yMean := meanOr0 ySeries in
  let '(num, den) :=
    fold_left
      (fun '(num, den) '(xi, yi) =>
         (num + (xi - xMean) * (yi - yMean),
          den + (xi - xMean) * (xi - xMean)))
      (combine xSeries ySeries) (0, 0) in
  let slope := if Req_dec_T den 0 then 0 else num / den in
  let intercept := yMean - slope * xMean in
  {| slope := slope; intercept := intercept |}.

(** [calculateCorrelation]. *)
Definition calculateCorrelation (xSeries ySeries : list R) : R :=
  let xMean := meanOr0 xSeries in
  let yMean := meanOr0 ySeries in
  let '(num, xDen, yDen) :=
    fold_left
      (fun '(num, xDen, yDen) '(xi, yi) =>
         let xDiff := xi - xMean in
         let yDiff := yi - yMean in
         (num + xDiff * yDiff, xDen + xDiff * xDiff, yDen + yDiff * yDiff))
      (combine xSeries ySeries) (0, 0, 0) in
  let den := sqrt (xDen * yDen) in
  if Req_dec_T den 0 then 0 else num / den.

(** The regression and the correlation drawn for the filtered points. *)
Definition regression (data : list (R * R)) : Line :=
  leastSquares (map fst data) (map snd data).

Definition correlation (data : list (R * R)) : R :=
  calculateCorrelation (map fst data) (map snd data).

End Regression.

(** The statistics as textbooks define them. *)
Module Statistics.

Local Open Scope R_scope.










(** Three points on the line y = 2x. *)
Definition collinear : list (R * R) := [(1, 2); (2, 4); (3, 6)].

End Statistics.


(** ** Regression line and correlation in double precision

    The loops of [leastSquares] and [calculateCorrelation] with every
    operation rounded, as the scatter plot runs them. *)

Module Regression64.

(** [d3.mean(series) || 0]: the sum accumulated from the left, divided by
    the count; 0 for an empty series. *)
Definition meanOr0 (series : list Q) : Q :=
  match series with
  | [] => 0%Q
  | _ => Double.div (fold_left Double.add series 0%Q)
                    (inject_Z (Z.of_nat (List.length series)))
  end.

Record Line := mkLine { slope : Q; intercept : Q }.

(** [leastSquares]. *)
Definition leastSquares (xSeries ySeries : list Q) : Line :=
  let xMean := meanOr0 xSeries in
  let yMean := meanOr0 ySeries in
  let '(num, den) :=
    fold_left
      (fun '(num, den) '(xi, yi) =>
         (Double.add num
                     (Double.mul (Double.sub xi xMean) (Double.sub yi yMean)),
          Double.add den
                     (Double.mul (Double.sub xi xMean) (Double.sub xi xMean))))
      (combine xSeries ySeries) (0%Q, 0%Q) in
  let slope := if Qeq_bool den 0 then 0%Q else Double.div num den in
  let intercept := Double.sub yMean (Double.mul slope xMean) in
  {| slope := slope; intercept := intercept |}.

(** [calculateCorrelation]. *)
Definition calculateCorrelation (xSeries ySeries : list Q) : Q :=
  let xMean := meanOr0 xSeries in
  let yMean := meanOr0 ySeries in
  let '(num, xDen, yDen) :=
    fold_left
      (fun '(num, xDen, yDen) '(xi, yi) =>
         let xDiff := Double.sub xi xMean in
         let yDiff := Double.sub yi yMean in
         (Double.add num (Double.mul xDiff yDiff),
          Double.add xDen (Double.mul xDiff xDiff),
          Double.add yDen (Double.mul yDiff yDiff)))
      (combine xSeries ySeries) (0%Q, 0%Q, 0%Q) in
  let den := Double.sqrt (Double.mul xDen yDen) in
  if Qeq_bool den 0 then 0%Q else Double.div num den.

(** The regression and the correlation drawn for the filtered points. *)
Definition regression (data : list (Q * Q)) : Line :=
  leastSquares (map fst data) (map snd data).

Definition correlation (data : list (Q * Q)) : Q :=
  calculateCorrelation (map fst data) (map snd data).

End Regression64.
(** ** The store as the application drives it (App.tsx) *)

Module App.

Import AppStore.

(** What can change the store: a setter call, a click on a map feature
    ([Map] receives [selectedCountries] and [setSelectedCountries]), a
    click on a bar of the error chart. *)
Inductive Action :=
| SetSelectedCountries (countries : list string)
| SetMapFeature (feature : ChartFeature)
| SetXVar (variable : ChartFeature)
| SetYVar (variable : ChartFeature)
| SetK (k : Z)
| SetCurrentAxis (axis : Axis)
| SetIsLoading (loading : bool)
| SetError (e : option string)
| ClearData
| MapClick (d : Feature)
| BarClick (validMseData : list Q) (i : nat).

Definition apply (s : AppStore) (a : Action) : AppStore :=
  match a with
  | SetSelectedCountries countries => setSelectedCountries countries s
  | SetMapFeature feature => setMapFeature feature s
  | SetXVar variable => setXVar variable s
  | SetYVar variable => setYVar variable s
  | SetK k => setK k s
  | SetCurrentAxis axis => setCurrentAxis axis s
  | SetIsLoading loading => setIsLoading loading s
  | SetError e => setError e s
  | ClearData => clearData s
  | MapClick d => Map.click d s
  | BarClick validMseData i => BarChart.clickBar validMseData i s
  end.

(** The states the store can be in. *)
Inductive Reachable : AppStore -> Prop :=
| reach_initial : Reachable initial
| reach_apply s a : Reachable s -> Reachable (apply s a).

(** The names of the loaded country records: the string keys of
    [worldData]. *)
Definition loadedNames (svc : DataService.Service) : list string :=
  flat_map (fun kv => match fst kv with
                      | JS.Str name => [name]
                      | _ => []
                      end)
           (DataService.worldData svc).

(** The names an action brings into the selection. *)
Definition names (a : Action) : list string :=
  match a with
  | SetSelectedCountries countries => countries
  | MapClick d => match Map.getCountryName d with
                  | Some c => if Map.truthy (Some c) then [c] else []
                  | None => []
                  end
  | _ => []
  end.

End App.

(** ** The read side of the data service (dataService.ts) *)

Module Getters.

Import JS DataService.

(** [isNaN(n)], [n > 0] and [isFinite(n)] on numbers. *)
Definition isNaN (n : number) : bool :=
  match n with NaN => true | _ => false end.

Definition positive (n : number) : bool :=
  match n with
  | NaN => false
  | Num q => Qltb 0 q
  | Infinity negative => negb negative
  end.

Definition isFinite (n : number) : bool :=
  match n with Num _ => true | _ => false end.

(** [!isNaN(v) && v > 0]. *)
Definition valid (v : number) : bool := negb (isNaN v) && positive v.

(** The four feature names, and [FIELD_MAP]. *)
Definition featureName (feature : ChartFeature) : string :=
  match feature with
  | Co2Emissions => "Co2-Emissions"
  | GDP => "GDP"
  | Population => "Population"
  | LifeExpectancy => "Life expectancy"
  end.

Definition FIELD_MAP (feature : ChartFeature) : string :=
  match feature with
  | Co2Emissions => "co2_emissions"
  | GDP => "gdp"
  | Population => "population"
  | LifeExpectancy => "life_expectancy"
  end.

(** [parseNumericValue(d[apiField] || d[feature])] with
    [apiField = FIELD_MAP[feature] || feature]. *)
Definition cell (d : Row) (feature : ChartFeature) : number :=
  let apiField := FIELD_MAP feature in
  parseNumericValue (or (get d apiField) (get d (featureName feature))).

(** [getNumericValues(feature)]. *)
Definition getNumericValues (s : Service) (feature : ChartFeature)
  : list number :=
  if (List.length (csvData s) =? 0)%nat then []
  else filter valid (map (fun d => cell d feature) (csvData s)).

(** [m.get(key)]; [None] is [undefined]. *)
Fixpoint mapGet (key : value) (m : list (value * Row)) : option Row :=
  match m with
  | [] => None
  | (k', v) :: r => if sameValueZero k' key then Some v else mapGet key r
  end.

(** [getCountryData(countryName)]; [None] is [null]. *)
Definition getCountryData (s : Service) (countryName : value) : option Row :=
  mapGet countryName (worldData s).

(** [d.country || d.Country || d.NAME || 'Unknown']. *)
Definition countryOf (d : Row) : value :=
  or (get d "country") (or (get d "Country") (or (get d "NAME") (Str "Unknown"))).

(** A record of [getValidDataForScatter]. *)
Record ScatterDatum := mkScatterDatum {
  sCountry : value;
  sX : number;
  sY : number;
  sOriginalData : Row
}.

(** [getValidDataForScatter(xVar, yVar)]. *)
Definition getValidDataForScatter (s : Service) (xVar yVar : ChartFeature)
  : list ScatterDatum :=
  if (List.length (csvData s) =? 0)%nat then []
  else
    filter (fun d => negb (isNaN (sX d)) && negb (isNaN (sY d))
                     && positive (sX d) && positive (sY d))
           (map (fun d => {| sCountry := countryOf d;
                             sX := cell d xVar;
                             sY := cell d yVar;
                             sOriginalData := d |})
                (csvData s)).

(** A record of [getValidDataForPCP]: the country, the row it comes from,
    and one number per requested column. *)
Record PcpDatum := mkPcpDatum {
  pCountry : value;
  pOriginalData : Row;
  pFields : list (ChartFeature * number)
}.

(** [dataPoint[col] = v]. *)
Fixpoint setField (col : ChartFeature) (v : number)
         (fields : list (ChartFeature * number)) : list (ChartFeature * number) :=
  match fields with
  | [] => [(col, v)]
  | (c, w) :: r =>
      if ChartFeature_eqb c col then (c, v) :: r else (c, w) :: setField col v r
  end.

(** [d[col]]; [None] is [undefined]. *)
Fixpoint field (fields : list (ChartFeature * number)) (col : ChartFeature)
  : option number :=
  match fields with
  | [] => None
  | (c, w) :: r => if ChartFeature_eqb c col then Some w else field r col
  end.

(** [!isNaN(d[col]) && d[col] > 0]. *)
Definition validField (d : PcpDatum) (col : ChartFeature) : bool :=
  match field (pFields d) col with
  | Some v => valid v
  | None => false
  end.

(** [getValidDataForPCP(columns)]. *)
Definition getValidDataForPCP (s : Service) (columns : list ChartFeature)
  : list PcpDatum :=
  if (List.length (csvData s) =? 0)%nat then []
  else
    filter (fun d => forallb (validField d) columns)
           (map (fun d =>
                   {| pCountry := countryOf d;
                      pOriginalData := d;
                      pFields :=
                        fold_left (fun fields col => setField col (cell d col) fields)
                                  columns [] |})
                (csvData s)).

(** An element of the array handed to [validateCountryData]: an object, or
    anything the first two tests of its filter reject. *)
Inductive Item := NotAnObject | Object (r : Row).

(** A [CountryData] record. *)
Record CountryData := mkCountryData {
  cCountry : string;
  cCo2Emissions : number;
  cGDP : number;
  cPopulation : number;
  cLifeExpectancy : number
}.

(** What [validateCountryData] makes of one element: nothing when its
    filter rejects it, else the record of its map. *)
Definition validated (item : Item) : list CountryData :=
  match item with
  | NotAnObject => []
  | Object r =>
      match or (get r "Country") (get r "country") with
      | Str name =>
          if truthy (Str name) then
            [{| cCountry := name;
                cCo2Emissions :=
                  parseNumericValue
                    (or (get r "Co2-Emissions")
                        (or (get r "co2_emissions") (Number (Num 0))));
                cGDP :=
                  parseNumericValue
                    (or (get r "GDP") (or (get r "gdp") (Number (Num 0))));
                cPopulation :=
                  parseNumericValue
                    (or (get r "Population")
                        (or (get r "population") (Number (Num 0))));
                cLifeExpectancy :=
                  parseNumericValue
                    (or (get r "Life expectancy")
                        (or (get r "life_expectancy") (Number (Num 0)))) |}]
          else []
      | _ => []
      end
  end.

(** [validateCountryData]: filter, then map. *)
Definition validateCountryData (data : list Item) : list CountryData :=
  flat_map validated data.

(** The name and the record [_loadData] stores for an API row [d]. *)
Definition apiName (d : Row) : value :=
  or (get d "country") (or (get d "Country") (get d "NAME")).

Definition apiRecord (d : Row) : Row :=
  [("Country", apiName d);
   ("Co2-Emissions", or (get d "co2_emissions") (Number (Num 0)));
   ("GDP", or (get d "gdp") (Number (Num 0)));
   ("Population", or (get d "population") (Number (Num 0)));
   ("Life expectancy", or (get d "life_expectancy") (Number (Num 0)))]%string.

(** The name [_loadFallbackData] stores a CSV row under. *)
Definition csvName (d : Row) : value :=
  or (get d "Country") (or (get d "country") (get d "NAME")).

(** A geometry document that [isLoaded] accepts. *)
Definition geoTruthy (g : GeoJson) : bool :=
  match g with GeoNull => false | GeoObject _ => true end.

(** The geometry [_loadData] keeps for a response. *)
Definition geoOf (r : GeoResponse) : GeoJson :=
  match r with
  | FeatureArray fs => GeoObject (Some fs)
  | Document g => g
  end.

End Getters.

(** ** What the views draw *)

Module ScatterData.

Import JS DataService Getters.

(** [s.replace(/[,\$%]/g, '')]: every comma, dollar and percent sign
    removed. *)
Fixpoint stripSymbols (s : string) : string :=
  match s with
  | EmptyString => EmptyString
  | String a r =>
      if (Ascii.eqb a "," || Ascii.eqb a "$" || Ascii.eqb a "%")%bool
      then stripSymbols r
      else String a (stripSymbols r)
  end.

(** [getValue(d, variable)] of ScatterPlot.tsx. *)
Definition getValue (d : Row) (variable : ChartFeature) : number :=
  match get d (featureName variable) with
  | Str s => parseFloat (stripSymbols s)
  | Number n => orZero n
  | Null | Undefined => Num 0
  end.

(** A plotted point: [{ country: d.Country, x, y }]. *)
Record Datum := mkDatum { country : value; x : number; y : number }.

(** [selectedCountries.includes(v)]. *)
Definition includes (v : value) (selectedCountries : list string) : bool :=
  existsb (fun c => sameValueZero (Str c) v) selectedCountries.

(** The points [drawScatterPlot] plots: the records of [worldData] that are
    selected (the first 50 when nothing is), projected on the two
    variables, those with a usable position kept. *)
Definition plotted (s : Service) (selectedCountries : list string)
           (xVariable yVariable : ChartFeature) : list Datum :=
  let allData := map snd (worldData s) in
  let filteredData :=
    if (0 <? List.length selectedCountries)%nat
    then filter (fun d => includes (get d "Country") selectedCountries) allData
    else firstn 50 allData in
  if (List.length filteredData =? 0)%nat then []
  else
    filter (fun d => negb (isNaN (x d)) && negb (isNaN (y d))
                     && isFinite (x d) && isFinite (y d)
                     && positive (x d) && positive (y d))
           (map (fun d => {| country := get d "Country";
                             x := getValue d xVariable;
                             y := getValue d yVariable |})
                filteredData).

End ScatterData.

Module PCPData.

Import JS DataService Getters.

(** The records [drawVisualization] draws a line for. *)
Definition drawn (s : Service) (selectedCountries : list string)
  : list PcpDatum :=
  let allData := getValidDataForPCP s PCP.columns in
  if (0 <? List.length selectedCountries)%nat
  then filter (fun d => ScatterData.includes (pCountry d) selectedCountries) allData
  else firstn 20 allData.

End PCPData.

Module MapFill.

Import JS DataService Getters.

(** How a country is filled: the neutral grey, or the colour the scale
    gives to a number. *)
Inductive Fill := Neutral | Scaled (numValue : number).

(** [parseFloat(value)] on a cell that may already be a number. *)
Definition parseFloatOf (v : value) : number :=
  match v with
  | Str s => parseFloat s
  | Number n => n
  | Null | Undefined => NaN
  end.

(** [n <= 0]. *)
Definition nonPositive (n : number) : bool :=
  match n with
  | NaN => false
  | Num q => Qle_bool q 0
  | Infinity negative => negative
  end.

(** The [fill] callback of [drawVisualization]. *)
Definition fill (s : Service) (feature : ChartFeature) (d : Feature) : Fill :=
  let countryName :=
    match Map.getCountryName d with
    | Some c => Str c
    | None => Undefined
    end in
  match mapGet countryName (worldData s) with
  | None => Neutral
  | Some countryData =>
      let value :=
        match get countryData (featureName feature) with
        | Str v => Str (ScatterData.stripSymbols v)
        | v => v
        end in
      let numValue := parseFloatOf value in
      if (isNaN numValue || nonPositive numValue)%bool then Neutral
      else Scaled numValue
  end.

End MapFill.

Module BarChartView.

(** The [fill] of bar [i] when the store holds [k]: highlighted when
    [(i + 1) === k]. *)
Definition highlighted (i : nat) (k : Z) : bool := Z.of_nat i + 1 =? k.

(** The numbers of the highlighted bars among those of [validMseData]. *)
Definition highlights (validMseData : list Q) (k : Z) : list nat :=
  filter (fun i => highlighted i k) (seq 0 (List.length validMseData)).

End BarChartView.


(** ** The error values behind the bar chart (dataService.ts, BarChart.tsx) *)

Module Clustering.

Import JS DataService.

(** What the two requests of [processDataForClustering] bring back.  The
    items of the error table are given by their [mse_value] field
    ([Undefined] when an item has none). *)
Inductive Fetched :=
| Thrown                 (* a request rejects, or a body cannot be read *)
| NotOk                  (* a response is not [ok] *)
| Bodies (mseData : list value) (optimalK : value).

Record ProcessedDataResponse := mkProcessed {
  clusterData : list Row;
  mseValues : list number;
  optimalK : number
}.

(** The values of the [else] branch and of the [catch] block. *)
Definition fallbackMseValues : list number :=
  map Num [4192.21; 2957.26; 2482.29; 2092.23; 1978.71; 1773.12; 1683.82;
           1587.84; 1411.01; 1272.68]%Q.

Section ParseInt.

(** The integer [parseInt] reads from a value. *)
Variable parseInt : value -> number.

(** [processDataForClustering(data, k)]; [k] only appears in the log line. *)
Definition processDataForClustering (data : list Row) (k : Z) (f : Fetched)
  : ProcessedDataResponse :=
  match f with
  | Bodies mseData optimalData =>
      {| clusterData := data;
         mseValues := map (fun mse_value => orZero (MapFill.parseFloatOf mse_value))
                          mseData;
         optimalK := let n := parseInt optimalData in
                     if falsy n then Num 4 else n |}
  | NotOk =>
      {| clusterData := data; mseValues := fallbackMseValues;
         optimalK := Num 4 |}
  | Thrown =>
      {| clusterData := data; mseValues := fallbackMseValues;
         optimalK := Num 4 |}
  end.

End ParseInt.

End Clustering.

Module BarChartData.

Import JS DataService.

(** The component's state: [mseData], [optimalK], [isLoading]. *)
Record State := mkState {
  mseData : list number;
  optimalK : number;
  isLoading : bool
}.

Definition fallbackMseData : list number :=
  map Num [4192.208285950465; 2957.257034033883; 2482.2866645417175;
           2092.231873076597; 1978.7127033802503; 1773.1183702411172;
           1683.8174884991984; 1587.8448375236683; 1411.0062960787684;
           1272.6786662918385]%Q.

Definition fallbackOptimalK : number := Num 4.

Definition initial : State :=
  {| mseData := fallbackMseData; optimalK := fallbackOptimalK;
     isLoading := true |}.

Section ParseInt.

Variable parseInt : value -> number.

(** [loadMseData], run to its end: [loaded] is how [loadAllData] settled,
    [csv] what [getCsvData] then returns, [f] what the clustering requests
    bring back. *)
Definition loadMseData (loaded : Result) (csv : list Row) (k : Z)
           (f : Clustering.Fetched) (st : State) : State :=
  match loaded with
  | Resolved =>
      let result := Clustering.processDataForClustering parseInt csv k f in
      if (0 <? List.length (Clustering.mseValues result))%nat
      then {| mseData := Clustering.mseValues result;
              optimalK := Clustering.optimalK result;
              isLoading := false |}
      else {| mseData := mseData st; optimalK := optimalK st;
              isLoading := false |}
  | Rejected _ =>
      {| mseData := mseData st; optimalK := optimalK st; isLoading := false |}
  end.

End ParseInt.

(** [validMseData] of [drawChart]: every entry of [mseData] is a number
    already and is kept. *)
Definition validMseData (st : State) : list number :=
  map (fun d => d) (mseData st).

End BarChartData.

(** ** The seeding script's parser (backend) *)

Module Seed.

Import JS.

(** [parseNumericValue] of the seeding script; [None] is [null]. *)
Definition parseNumericValue (value : JS.value) : option number :=
  match value with
  | Number n => Some n
  | Null | Undefined => None
  | Str s =>
      if negb (truthy (Str s)) then None
      else
        let cleanValue :=
          removeFirst "%" (removeFirst "$" (removeAll "," s)) in
        let parsed := parseFloat cleanValue in
        match parsed with
        | NaN => None
        | _ => Some parsed
        end
  end.

End Seed.

(** ** Initialising the application (App.tsx) *)

Module AppInit.

Import AppStore.

(** [initializeData], run to its end: [loaded] is how [loadAllData]
    settled. *)
Definition initializeData (loaded : DataService.Result) (s : AppStore)
  : AppStore :=
  let s1 := setError None (setIsLoading true s) in
  let s2 :=
    match loaded with
    | DataService.Resolved => s1
    | DataService.Rejected _ =>
        setError
          (Some "Failed to load application data. Please refresh the page."%string)
          s1
    end in
  setIsLoading false s2.

End AppInit.
(** ** Sample data *)

(** A service that has loaded the seven countries of the default selection
    and Canada from the API. *)
Definition sampleRows : list DataService.Row :=
  map (fun n => [("country", JS.Str n); ("gdp", JS.Number (JS.Num 100))]%string)
      ["United States"; "China"; "India"; "Germany"; "Japan";
       "United Kingdom"; "France"; "Canada"]%string.

Definition named (n : string) : Feature :=
  mkFeature (Some (mkProperties (Some n) None None)).

Definition sampleService : DataService.Service :=
  fst (DataService.tryApi
         (DataService.ApiBodies
            (DataService.FeatureArray [named "Canada"; named "Antarctica"])
            sampleRows)
         DataService.empty).


(** Twenty-one GDP values whose 5th and 95th percentiles are 100 and 900. *)
Definition sampleGdp : list Q :=
  [300; 50; 1000; 900; 100; 200; 210; 220; 230; 240; 250; 260; 270; 280; 290;
   310; 320; 330; 340; 350; 360]%Q.

(** A two-colour stand-in for [d3.interpolate]. *)
Definition twoTone (a b : string) (t : option Q) : string :=
  match t with
  | Some t => if Qle_bool t (1 # 2) then a else b
  | None => b
  end.


(** Seven points; the point E has four points to its left and six
    below. *)
Definition sevenPoints : list ScatterPlot.Point :=
  [ScatterPlot.mkPoint "A" 1 1; ScatterPlot.mkPoint "B" 2 2;
   ScatterPlot.mkPoint "C" 3 3; ScatterPlot.mkPoint "D" 4 4;
   ScatterPlot.mkPoint "E" 5 7; ScatterPlot.mkPoint "F" 6 5;
   ScatterPlot.mkPoint "G" 7 6].

(** The double written [0.1], and three points that have it as their x. *)
Definition tenth : Q := Double.round (1 # 10).



(** The algorithm as the specification words it. *)
Module ClusterSpec.

(** Rank-percentile of [v] within [l]: the share of values strictly
    below it. *)
Definition rankPercentile (v : Q) (l : list Q) : Q :=
  (inject_Z (countLt v l) / len l)%Q.

(** Clamp [v] to [[lo, hi]]. *)
Definition clamp (lo hi v : Z) : Z := Z.min hi (Z.max lo v).

(** "average the two percentiles; multiply by k/2; floor to integer;
    clamp to [0, k-1]". *)
Definition specCluster (xs ys : list Q) (k : Z) (vx vy : Q) : Z :=
  let average := ((rankPercentile vx xs + rankPercentile vy ys) / 2)%Q in
  clamp 0 (k - 1) (Qfloor (average * (inject_Z k / 2))%Q).

(** What the renderers compute: the average of the two percentiles
    scaled by [k] (the sum scaled by [k/2]). *)
Definition averageTimesK (xs ys : list Q) (k : Z) (vx vy : Q) : Z :=
  let average := ((rankPercentile vx xs + rankPercentile vy ys) / 2)%Q in
  clamp 0 (k - 1) (Qfloor (average * inject_Z k)%Q).

(** The average of the two percentiles times [k], before the floor. *)
Definition averageByK (xs ys : list Q) (k : Z) (vx vy : Q) : Q :=
  ((rankPercentile vx xs + rankPercentile vy ys) / 2 * inject_Z k)%Q.

(** [q] is a whole number. *)
Definition whole (q : Q) : Prop := (inject_Z (Qfloor q) == q)%Q.

End ClusterSpec.

(** The computation both renderers share: the ranks [a] of [n] and [b] of
    [m] values, scaled as the source scales them. *)
Definition scaled (a n b m k : Z) : Q :=
  ((inject_Z a / inject_Z n + inject_Z b / inject_Z m) * inject_Z k / 2)%Q.

(** The same, each operation rounded to double precision. *)
Definition scaled64 (a n b m k : Z) : Q :=
  Double.div
    (Double.mul
       (Double.add (Double.div (inject_Z a) (inject_Z n))
                   (Double.div (inject_Z b) (inject_Z m)))
       (inject_Z k))
    2.

(** * Properties *)

(** ** Sorted arrays and ranks *)

Section NumArrayFacts.

Local Open Scope Q_scope.

Lemma Qltb_iff (a b : Q) : Qltb a b = true <-> a < b.
Proof.
  unfold Qltb. rewrite negb_true_iff, <- not_true_iff_false, Qle_bool_iff.
  split; [apply Qnot_le_lt | apply Qlt_not_le].
Qed.

Lemma Qltb_false_iff (a b : Q) : Qltb a b = false <-> b <= a.
Proof.
  unfold Qltb. rewrite negb_false_iff. apply Qle_bool_iff.
Qed.

Lemma Qle_bool_false (a b : Q) : Qle_bool a b = false -> b < a.
Proof.
  intros H. apply Qnot_le_lt. rewrite <- Qle_bool_iff. congruence.
Qed.

Lemma length_insert v l : List.length (insert v l) = S (List.length l).
Proof.
  induction l as [|h t IH]; simpl; [reflexivity|].
  destruct (Qle_bool v h); simpl; congruence.
Qed.

Lemma length_sortNum l : List.length (sortNum l) = List.length l.
Proof.
  induction l as [|h t IH]; simpl; [reflexivity|].
  rewrite length_insert. congruence.
Qed.

Lemma In_insert w v l : In w (insert v l) <-> w = v \/ In w l.
Proof.
  induction l as [|h t IH]; simpl.
  - intuition.
  - destruct (Qle_bool v h); simpl; rewrite ?IH; intuition.
Qed.

Lemma In_sortNum w l : In w (sortNum l) <-> In w l.
Proof.
  induction l as [|h t IH]; simpl; [tauto|].
  rewrite In_insert, IH. intuition.
Qed.

Lemma InQ_sortNum v l : InQ v (sortNum l) <-> InQ v l.
Proof.
  unfold InQ. split; intros [w [Hw E]]; exists w; split; auto;
    now apply In_sortNum.
Qed.

Lemma In_InQ v l : In v l -> InQ v l.
Proof. intros H. exists v. split; [assumption | reflexivity]. Qed.

Lemma insert_sorted v l :
  StronglySorted Qle l -> StronglySorted Qle (insert v l).
Proof.
  induction 1 as [|h t Hs IH Hall]; simpl.
  - constructor; constructor.
  - destruct (Qle_bool v h) eqn:E.
    + apply Qle_bool_iff in E.
      constructor; [constructor; assumption|].
      constructor; [assumption|].
      rewrite Forall_forall in *. intros w Hw.
      apply Qle_trans with h; auto.
    + apply Qle_bool_false in E.
      constructor; [assumption|].
      rewrite Forall_forall in *. intros w Hw.
      apply In_insert in Hw. destruct Hw as [->|Hw]; auto.
      now apply Qlt_le_weak.
Qed.

Lemma sortNum_sorted l : StronglySorted Qle (sortNum l).
Proof.
  induction l as [|h t IH]; simpl; [constructor | now apply insert_sorted].
Qed.

Lemma countLt_insert v h l :
  (countLt v (insert h l) = (if Qltb h v then 1 else 0) + countLt v l)%Z.
Proof.
  induction l as [|a t IH]; simpl; [reflexivity|].
  destruct (Qle_bool h a); simpl; [reflexivity|].
  rewrite IH. lia.
Qed.

Lemma countLt_sortNum v l : countLt v (sortNum l) = countLt v l.
Proof.
  induction l as [|h t IH]; simpl; [reflexivity|].
  rewrite countLt_insert. congruence.
Qed.

Lemma countLt_bounds v l :
  (0 <= countLt v l <= Z.of_nat (List.length l))%Z.
Proof.
  induction l as [|h t IH]; simpl List.length; simpl countLt; [lia|].
  destruct (Qltb h v); lia.
Qed.

(** A value of the array is not below itself: its rank is less than the
    length. *)
Lemma countLt_lt_length v l :
  InQ v l -> (countLt v l < Z.of_nat (List.length l))%Z.
Proof.
  intros [w [Hw E]].
  induction l as [|h t IH]; [contradiction|].
  simpl List.length; simpl countLt.
  destruct Hw as [->|Hw].
  - assert (Qltb w v = false) as ->.
    { apply Qltb_false_iff. rewrite E. apply Qle_refl. }
    pose proof (countLt_bounds v t). lia.
  - specialize (IH Hw). destruct (Qltb h v); lia.
Qed.

Lemma countLt_none v l :
  Forall (fun w => v <= w) l -> countLt v l = 0%Z.
Proof.
  induction 1 as [|h t Hh _ IH]; simpl; [reflexivity|].
  apply Qltb_false_iff in Hh. rewrite Hh, IH. reflexivity.
Qed.

(** In an ascending array the first position of a value is its rank. *)
Lemma indexOf_sorted v s :
  StronglySorted Qle s -> InQ v s -> indexOf v s = countLt v s.
Proof.
  induction 1 as [|h t Hs IH Hall]; intros [w [Hw E]]; [contradiction|].
  simpl. destruct (Qeq_bool h v) eqn:Ehv.
  - apply Qeq_bool_iff in Ehv.
    assert (Qltb h v = false) as ->.
    { apply Qltb_false_iff. rewrite Ehv. apply Qle_refl. }
    rewrite countLt_none; [reflexivity|].
    eapply Forall_impl; [|exact Hall]. intros a Ha. simpl in Ha.
    now rewrite <- Ehv.
  - destruct Hw as [->|Hw].
    + apply Qeq_bool_iff in E. congruence.
    + assert (Hin : InQ v t) by (exists w; auto).
      rewrite (IH Hin).
      assert (Hle : h <= v).
      { rewrite <- E. rewrite Forall_forall in Hall. auto. }
      assert (Hlt : h < v).
      { apply Qle_lt_or_eq in Hle. destruct Hle as [|Heq]; [assumption|].
        apply Qeq_bool_iff in Heq. congruence. }
      apply Qltb_iff in Hlt. rewrite Hlt.
      pose proof (countLt_bounds v t) as B.
      destruct (countLt v t <? 0)%Z eqn:F; [apply Z.ltb_lt in F; lia|lia].
Qed.

(** [sorted.indexOf(v)] is the rank of [v] in the unsorted array. *)
Lemma indexOf_sortNum v l :
  InQ v l -> indexOf v (sortNum l) = countLt v l.
Proof.
  intros H. rewrite indexOf_sorted.
  - apply countLt_sortNum.
  - apply sortNum_sorted.
  - now apply InQ_sortNum.
Qed.

Lemma len_sortNum l : len (sortNum l) = len l.
Proof. unfold len. now rewrite length_sortNum. Qed.

(** A rank over a length is a share in [[0, 1)]. *)
Lemma share_bounds (a n : Z) :
  (0 <= a < n)%Z -> 0 <= inject_Z a / inject_Z n /\ inject_Z a / inject_Z n < 1.
Proof.
  intros [Ha Han].
  assert (Hn : 0 < inject_Z n).
  { change 0 with (inject_Z 0). rewrite <- Zlt_Qlt. lia. }
  split.
  - apply Qle_shift_div_l; [assumption|]. rewrite Qmult_0_l.
    change 0 with (inject_Z 0). rewrite <- Zle_Qle. assumption.
  - apply Qlt_shift_div_r; [assumption|]. rewrite Qmult_1_l.
    rewrite <- Zlt_Qlt. assumption.
Qed.

End NumArrayFacts.

(** ** Cluster assignment *)

Section ClusterFacts.

Local Open Scope Q_scope.

Lemma scaled_bounds a n b m k :
  (0 <= a < n)%Z -> (0 <= b < m)%Z ->
  ((1 <= k)%Z -> 0 <= scaled a n b m k /\ scaled a n b m k < inject_Z k)
  /\ ((k <= 0)%Z -> inject_Z k <= scaled a n b m k).
Proof.
  intros Ha Hb.
  destruct (share_bounds a n Ha) as [A0 A1].
  destruct (share_bounds b m Hb) as [B0 B1].
  unfold scaled.
  set (p := inject_Z a / inject_Z n) in *.
  set (q := inject_Z b / inject_Z m) in *.
  set (K := inject_Z k).
  assert (E : (p + q) * K / 2 == (p + q) * K * (1 # 2)) by field.
  rewrite E. clear E.
  split; intros Hk.
  - assert (HK : 1 <= K).
    { change 1 with (inject_Z 1). unfold K. rewrite <- Zle_Qle. assumption. }
    split; nra.
  - assert (HK : K <= 0).
    { change 0 with (inject_Z 0). unfold K. rewrite <- Zle_Qle. assumption. }
    nra.
Qed.

Lemma floor_nonneg e : 0 <= e -> (0 <= Qfloor e)%Z.
Proof. intros H. apply (Qfloor_resp_le 0 e) in H. exact H. Qed.

Lemma floor_below e (k : Z) : e < inject_Z k -> (Qfloor e <= k - 1)%Z.
Proof.
  intros H. pose proof (Qfloor_le e) as L.
  assert (inject_Z (Qfloor e) < inject_Z k) as F by (eapply Qle_lt_trans; eauto).
  rewrite <- Zlt_Qlt in F. lia.
Qed.

Lemma floor_above e (k : Z) : inject_Z k <= e -> (k <= Qfloor e)%Z.
Proof.
  intros H. apply Qfloor_resp_le in H. now rewrite Qfloor_Z in H.
Qed.

(** The capped floor of the scaled sum lies in [[0, k - 1]] for [k >= 1],
    and agrees with the clamp of the average scaled by [k] for every [k]. *)
Lemma capped_floor a n b m k :
  (0 <= a < n)%Z -> (0 <= b < m)%Z ->
  let id := Z.min (Qfloor (scaled a n b m k)) (k - 1) in
  ((1 <= k)%Z -> (0 <= id <= k - 1)%Z)
  /\ id = ClusterSpec.clamp 0 (k - 1)
            (Qfloor ((inject_Z a / inject_Z n + inject_Z b / inject_Z m) / 2
                     * inject_Z k)).
Proof.
  intros Ha Hb id.
  destruct (scaled_bounds a n b m k Ha Hb) as [Hpos Hneg].
  assert (E : (inject_Z a / inject_Z n + inject_Z b / inject_Z m) / 2
              * inject_Z k == scaled a n b m k).
  { assert (Nn : ~ inject_Z n == 0).
    { intros N. assert (L : 0 < inject_Z n)
        by (change 0 with (inject_Z 0); rewrite <- Zlt_Qlt; lia).
      rewrite N in L. now apply Qlt_irrefl in L. }
    assert (Nm : ~ inject_Z m == 0).
    { intros N. assert (L : 0 < inject_Z m)
        by (change 0 with (inject_Z 0); rewrite <- Zlt_Qlt; lia).
      rewrite N in L. now apply Qlt_irrefl in L. }
    unfold scaled. field. repeat split; assumption. }
  rewrite (Qfloor_comp _ _ E). unfold ClusterSpec.clamp. subst id.
  split.
  - intros Hk. destruct (Hpos Hk) as [P0 P1].
    pose proof (floor_nonneg _ P0). lia.
  - destruct (Z_le_gt_dec 1 k) as [Hk|Hk].
    + destruct (Hpos Hk) as [P0 P1].
      pose proof (floor_nonneg _ P0). lia.
    + assert (Hk' : (k <= 0)%Z) by lia.
      pose proof (floor_above _ _ (Hneg Hk')). lia.
Qed.

(** The rank of a field value of a record of the array, and the length. *)
Lemma rank_of_member {A} (f : A -> Q) (data : list A) (point : A) :
  In point data ->
  indexOf (f point) (sortNum (map f data)) = countLt (f point) (map f data)
  /\ (0 <= countLt (f point) (map f data)
      < Z.of_nat (List.length (map f data)))%Z.
Proof.
  intros H.
  assert (M : InQ (f point) (map f data)) by (apply In_InQ; now apply in_map).
  split; [now apply indexOf_sortNum|].
  split; [apply countLt_bounds | now apply countLt_lt_length].
Qed.

Lemma scatter_unfold data k point :
  In point data ->
  ScatterPlot.assignCluster data k point =
  Z.min (Qfloor (scaled (countLt (ScatterPlot.x point) (map ScatterPlot.x data))
                        (Z.of_nat (List.length (map ScatterPlot.x data)))
                        (countLt (ScatterPlot.y point) (map ScatterPlot.y data))
                        (Z.of_nat (List.length (map ScatterPlot.y data))) k))
        (k - 1).
Proof.
  intros H. unfold ScatterPlot.assignCluster, scaled.
  destruct (rank_of_member ScatterPlot.x data point H) as [-> _].
  destruct (rank_of_member ScatterPlot.y data point H) as [-> _].
  now rewrite !len_sortNum.
Qed.

Lemma pcp_unfold filteredData k point :
  In point filteredData ->
  PCP.assignCluster filteredData k point =
  Z.min (Qfloor (scaled
                   (countLt (PCP.co2Emissions point) (map PCP.co2Emissions filteredData))
                   (Z.of_nat (List.length (map PCP.co2Emissions filteredData)))
                   (countLt (PCP.gdp point) (map PCP.gdp filteredData))
                   (Z.of_nat (List.length (map PCP.gdp filteredData))) k))
        (k - 1).
Proof.
  intros H. unfold PCP.assignCluster, scaled.
  change (fun d => PCP.get d (PCP.column 0)) with PCP.co2Emissions.
  change (fun d => PCP.get d (PCP.column 1)) with PCP.gdp.
  change (PCP.get point (PCP.column 0)) with (PCP.co2Emissions point).
  change (PCP.get point (PCP.column 1)) with (PCP.gdp point).
  destruct (rank_of_member PCP.co2Emissions filteredData point H) as [-> _].
  destruct (rank_of_member PCP.gdp filteredData point H) as [-> _].
  now rewrite !len_sortNum.
Qed.

End ClusterFacts.

(** C2.  For every k in [1, 10] and every record of the dataset it is
    assigned from, the id returned by either renderer lies in [0, k-1]. *)
Theorem assignCluster_in_range :
  forall k : Z, 1 <= k <= 10 ->
    (forall data point, In point data ->
       0 <= ScatterPlot.assignCluster data k point <= k - 1)
    /\ (forall filteredData point, In point filteredData ->
       0 <= PCP.assignCluster filteredData k point <= k - 1).
Proof.
  intros k [Hk _]. split; intros data point H.
  - rewrite (scatter_unfold data k point H).
    destruct (rank_of_member ScatterPlot.x data point H) as [_ Bx].
    destruct (rank_of_member ScatterPlot.y data point H) as [_ By].
    exact (proj1 (capped_floor _ _ _ _ k Bx By) Hk).
  - rewrite (pcp_unfold data k point H).
    destruct (rank_of_member PCP.co2Emissions data point H) as [_ Bx].
    destruct (rank_of_member PCP.gdp data point H) as [_ By].
    exact (proj1 (capped_floor _ _ _ _ k Bx By) Hk).
Qed.

(** Three points and two rows, k = 3. *)
Lemma assignCluster_in_range_witness :
  0 <= ScatterPlot.assignCluster
         [ScatterPlot.mkPoint "A" 3 1; ScatterPlot.mkPoint "B" 2 2;
          ScatterPlot.mkPoint "C" 7 9] 3
         (ScatterPlot.mkPoint "C" 7 9) <= 3 - 1
  /\ 0 <= PCP.assignCluster
            [PCP.mkDataPoint "A" 1 1 5 70; PCP.mkDataPoint "B" 2 2 6 80] 3
            (PCP.mkDataPoint "A" 1 1 5 70) <= 3 - 1.
Proof.
  assert (K : 1 <= 3 <= 10) by lia.
  destruct (assignCluster_in_range 3 K) as [S P]. split.
  - apply S. simpl. auto.
  - apply P. simpl. auto.
Defined.


(** ** Double precision *)

Section DoubleFacts.

Local Open Scope Q_scope.

Lemma two_pow_pos (z : Z) : 0 < Qpower 2 z.
Proof. apply Qpower_0_lt. reflexivity. Qed.

Lemma inject_Z_pos (z : Z) : (0 < z)%Z -> 0 < inject_Z z.
Proof. intros H. change 0 with (inject_Z 0). now rewrite <- Zlt_Qlt. Qed.

Lemma inject_Z_nonneg (z : Z) : (0 <= z)%Z -> 0 <= inject_Z z.
Proof. intros H. change 0 with (inject_Z 0). now rewrite <- Zle_Qle. Qed.

Lemma inject_Z_sub (a b : Z) : inject_Z (a - b) == inject_Z a - inject_Z b.
Proof. unfold Z.sub. rewrite inject_Z_plus, inject_Z_opp. reflexivity. Qed.

Lemma Qmult_le_nonneg_l (e a b : Q) : 0 <= e -> a <= b -> e * a <= e * b.
Proof.
  intros He H. rewrite !(Qmult_comm e). now apply Qmult_le_compat_r.
Qed.

Lemma Qdiv_le_compat (a b p q : Q) :
  0 <= a -> 0 < q -> a <= p -> q <= b -> a / b <= p / q.
Proof.
  intros Ha Hq Hap Hqb.
  assert (Hb : 0 < b) by (eapply Qlt_le_trans; eauto).
  apply Qle_shift_div_r; [assumption|].
  assert (E : p / q * b == p * (b / q))
    by (field; intros F; rewrite F in Hq; now apply Qlt_irrefl in Hq).
  rewrite E.
  assert (1 <= b / q)
    by (apply Qle_shift_div_l; [assumption | now rewrite Qmult_1_l]).
  nra.
Qed.

(** [ilog2] does not overshoot: [2^(ilog2 x) <= x]. *)
Lemma ilog2_le (x : Q) : 0 < x -> Qpower 2 (Double.ilog2 x) <= x.
Proof.
  intros Hx. unfold Double.ilog2.
  set (p := Qnum x). set (q := Z.pos (Qden x)).
  destruct (Qle_bool (Qpower 2 (Z.log2 p - Z.log2 q)) x) eqn:E.
  - now apply Qle_bool_iff.
  - clear E.
    assert (Hp : (0 < p)%Z).
    { unfold p. destruct x as [n d]. unfold Qlt in Hx. simpl in *. lia. }
    assert (Hq : (0 < q)%Z) by (unfold q; lia).
    destruct (Z.log2_spec p Hp) as [Lp _].
    destruct (Z.log2_spec q Hq) as [_ Uq].
    pose proof (Z.log2_nonneg p) as Np.
    pose proof (Z.log2_nonneg q) as Nq.
    replace (Z.log2 p - Z.log2 q - 1)%Z
      with (Z.log2 p - Z.succ (Z.log2 q))%Z by lia.
    rewrite Qpower_minus by discriminate.
    assert (Ex : x == inject_Z p / inject_Z q).
    { unfold p, q. destruct x as [n d]. simpl. apply Qmake_Qdiv. }
    rewrite Ex.
    change 2 with (inject_Z 2).
    rewrite <- !Zpower_Qpower by lia.
    apply Qdiv_le_compat.
    + apply inject_Z_nonneg. lia.
    + now apply inject_Z_pos.
    + rewrite <- Zle_Qle. exact Lp.
    + rewrite <- Zle_Qle. lia.
Qed.

(** Rounding to an integer moves by at most one half. *)
Lemma nearestEven_near (y : Q) :
  Qabs (inject_Z (Double.nearestEven y) - y) <= 1 # 2.
Proof.
  unfold Double.nearestEven.
  pose proof (Qfloor_le y) as L. pose proof (Qlt_floor y) as U.
  rewrite inject_Z_plus in U. change (inject_Z 1) with 1 in U.
  set (f := Qfloor y) in *.
  apply Qabs_Qle_condition.
  destruct (Qcompare_spec (y - inject_Z f) (1 # 2)) as [E|E|E].
  - destruct (Z.even f); [|rewrite inject_Z_plus; change (inject_Z 1) with 1];
      split; lra.
  - split; lra.
  - rewrite inject_Z_plus. change (inject_Z 1) with 1. split; lra.
Qed.

Lemma ulp_half (x : Q) :
  ~ x == 0 -> Double.ulp x * (1 # 2) <= Double.u * Qabs x.
Proof.
  intros N. unfold Double.ulp, Double.u.
  assert (P : 0 < Qabs x).
  { destruct (Qlt_le_dec 0 (Qabs x)) as [H|H]; [assumption|].
    exfalso. apply N. apply Qabs_Qle_condition in H. destruct H. lra. }
  pose proof (ilog2_le (Qabs x) P) as L.
  set (e := Double.ilog2 (Qabs x)) in *.
  replace (e - 52)%Z with (e + (-52))%Z by lia.
  rewrite Qpower_plus by discriminate.
  assert (E : Qpower 2 (-52) * (1 # 2) == Qpower 2 (-53)) by reflexivity.
  pose proof (two_pow_pos (-53)) as T.
  setoid_replace (Qpower 2 e * Qpower 2 (-52) * (1 # 2))
    with (Qpower 2 (-53) * Qpower 2 e) by (rewrite <- E; ring).
  apply Qmult_le_l; assumption.
Qed.

(** The standard model of rounding: the relative error of one operation
    is at most the unit roundoff. *)
Lemma round_error (x : Q) :
  Qabs (Double.round x - x) <= Double.u * Qabs x.
Proof.
  unfold Double.round. destruct (Qeq_bool x 0) eqn:Z0.
  - apply Qeq_bool_iff in Z0. rewrite Z0. vm_compute. discriminate.
  - assert (N : ~ x == 0) by (intros F; apply Qeq_bool_iff in F; congruence).
    rewrite Qred_correct.
    pose proof (ulp_half x N) as H.
    assert (Pu : 0 < Double.ulp x) by apply two_pow_pos.
    set (w := Double.ulp x) in *.
    pose proof (nearestEven_near (x / w)) as Near.
    set (r := inject_Z (Double.nearestEven (x / w))) in *.
    assert (E : r * w - x == (r - x / w) * w)
      by (field; intros F; rewrite F in Pu; now apply Qlt_irrefl in Pu).
    rewrite E, Qabs_Qmult, (Qabs_pos w) by lra.
    eapply Qle_trans; [|exact H]. rewrite (Qmult_comm w).
    apply Qmult_le_compat_r; [exact Near | lra].
Qed.

Lemma round_bounds (x : Q) :
  0 <= x ->
  x * (1 - Double.u) <= Double.round x <= x * (1 + Double.u).
Proof.
  intros H. pose proof (round_error x) as E.
  rewrite (Qabs_pos x H) in E. apply Qabs_Qle_condition in E. split; lra.
Qed.

Lemma Qdiv_lt_compat (a b p q : Q) :
  0 <= a -> 0 < b -> 0 < q -> a < p -> q <= b -> a / b < p / q.
Proof.
  intros Ha Hb Hq Hap Hqb.
  apply Qlt_shift_div_r; [assumption|].
  assert (E : p / q * b == p * (b / q))
    by (field; intros F; rewrite F in Hq; now apply Qlt_irrefl in Hq).
  rewrite E.
  assert (1 <= b / q)
    by (apply Qle_shift_div_l; [assumption | now rewrite Qmult_1_l]).
  set (t := b / q) in *. clearbody t. nra.
Qed.

(** [ilog2 x] is the exponent of [x]. *)
Lemma ilog2_spec (x : Q) :
  0 < x ->
  Qpower 2 (Double.ilog2 x) <= x /\ x < Qpower 2 (Double.ilog2 x + 1).
Proof.
  intros Hx. split; [now apply ilog2_le|].
  unfold Double.ilog2.
  set (p := Qnum x). set (q := Z.pos (Qden x)).
  destruct (Qle_bool (Qpower 2 (Z.log2 p - Z.log2 q)) x) eqn:E.
  - assert (Hp : (0 < p)%Z).
    { unfold p. destruct x as [n d]. unfold Qlt in Hx. simpl in *. lia. }
    assert (Hq : (0 < q)%Z) by (unfold q; lia).
    destruct (Z.log2_spec p Hp) as [_ Up].
    destruct (Z.log2_spec q Hq) as [Lq _].
    pose proof (Z.log2_nonneg p) as Np.
    pose proof (Z.log2_nonneg q) as Nq.
    replace (Z.log2 p - Z.log2 q + 1)%Z
      with (Z.succ (Z.log2 p) - Z.log2 q)%Z by lia.
    rewrite Qpower_minus by discriminate.
    assert (Ex : x == inject_Z p / inject_Z q).
    { unfold p, q. destruct x as [n d]. simpl. apply Qmake_Qdiv. }
    rewrite Ex at 1.
    change 2 with (inject_Z 2).
    rewrite <- !Zpower_Qpower by lia.
    apply Qdiv_lt_compat.
    + apply inject_Z_nonneg. lia.
    + now apply inject_Z_pos.
    + apply inject_Z_pos. apply Z.pow_pos_nonneg; lia.
    + rewrite <- Zlt_Qlt. exact Up.
    + rewrite <- Zle_Qle. exact Lq.
  - replace (Z.log2 p - Z.log2 q - 1 + 1)%Z with (Z.log2 p - Z.log2 q)%Z by lia.
    apply Qnot_le_lt. intros F. apply Qle_bool_iff in F. congruence.
Qed.

(** [round x] is a double next to [x]: a whole multiple [m] of the gap,
    with a significand of 53 bits, at most half a gap away. *)
Lemma round_spec (x : Q) :
  ~ x == 0 ->
  let e := Double.ilog2 (Qabs x) in
  Qpower 2 e <= Qabs x < Qpower 2 (e + 1)
  /\ exists m : Z,
      Double.round x == inject_Z m * Qpower 2 (e - 52)
      /\ (2 ^ 52 <= Z.abs m <= 2 ^ 53)%Z
      /\ Qabs (Double.round x - x) <= Qpower 2 (e - 52) * (1 # 2).
Proof.
  intros N e.
  assert (P : 0 < Qabs x).
  { destruct (Qlt_le_dec 0 (Qabs x)) as [H|H]; [assumption|].
    exfalso. apply N. apply Qabs_Qle_condition in H. destruct H. lra. }
  destruct (ilog2_spec (Qabs x) P) as [Lo Hi]. fold e in Lo, Hi.
  split; [split; assumption|].
  unfold Double.round.
  assert (Qeq_bool x 0 = false) as ->.
  { apply not_true_iff_false. intros F. apply Qeq_bool_iff in F. contradiction. }
  unfold Double.ulp. fold e.
  set (w := Qpower 2 (e - 52)).
  assert (Pw : 0 < w) by apply two_pow_pos.
  exists (Double.nearestEven (x / w)). rewrite Qred_correct.
  split; [reflexivity|].
  pose proof (nearestEven_near (x / w)) as Near.
  set (m := Double.nearestEven (x / w)) in *.
  assert (Ew : Qpower 2 e == w * inject_Z (2 ^ 52)).
  { unfold w. rewrite Zpower_Qpower by lia. change (inject_Z 2) with 2.
    rewrite <- Qpower_plus by discriminate. now replace (e - 52 + 52)%Z with e by lia. }
  assert (Ew1 : Qpower 2 (e + 1) == w * inject_Z (2 ^ 53)).
  { unfold w. rewrite Zpower_Qpower by lia. change (inject_Z 2) with 2.
    rewrite <- Qpower_plus by discriminate. now replace (e - 52 + 53)%Z with (e + 1)%Z by lia. }
  rewrite Ew in Lo. rewrite Ew1 in Hi.
  assert (Y : inject_Z (2 ^ 52) <= Qabs (x / w) /\ Qabs (x / w) < inject_Z (2 ^ 53)).
  { unfold Qdiv. rewrite Qabs_Qmult, (Qabs_pos (/ w)) by (apply Qlt_le_weak, Qinv_lt_0_compat, Pw).
    split.
    - apply Qle_shift_div_l; [exact Pw|]. rewrite Qmult_comm. exact Lo.
    - apply Qlt_shift_div_r; [exact Pw|]. rewrite Qmult_comm. exact Hi. }
  split.
  - (* the significand *)
    destruct Y as [Y1 Y2].
    apply Qabs_Qle_condition in Near. destruct Near as [N1 N2].
    set (y := x / w) in *.
    assert (A : inject_Z (2 ^ 52) - 1 < inject_Z (Z.abs m)
                /\ inject_Z (Z.abs m) < inject_Z (2 ^ 53) + 1).
    { destruct (Qlt_le_dec y 0) as [Neg|Pos].
      - rewrite (Qabs_neg y) in Y1, Y2 by lra.
        assert (Hm : (m <= 0)%Z).
        { assert (H1 : inject_Z m < inject_Z 1).
          { change (inject_Z 1) with 1.
            assert (1 <= inject_Z (2 ^ 52)) by (vm_compute; discriminate). lra. }
          rewrite <- Zlt_Qlt in H1. lia. }
        rewrite Z.abs_neq by exact Hm. rewrite inject_Z_opp. split; lra.
      - rewrite (Qabs_pos y) in Y1, Y2 by lra.
        assert (Hm : (0 <= m)%Z).
        { assert (H1 : inject_Z (-1) < inject_Z m).
          { change (inject_Z (-1)) with (-1).
            assert (1 <= inject_Z (2 ^ 52)) by (vm_compute; discriminate). lra. }
          rewrite <- Zlt_Qlt in H1. lia. }
        rewrite Z.abs_eq by exact Hm. split; lra. }
    destruct A as [A1 A2].
    change 1 with (inject_Z 1) in A1, A2.
    rewrite <- inject_Z_sub in A1. rewrite <- inject_Z_plus in A2.
    rewrite <- Zlt_Qlt in A1, A2. lia.
  - assert (E : inject_Z m * w - x == (inject_Z m - x / w) * w)
      by (field; intros F; rewrite F in Pw; now apply Qlt_irrefl in Pw).
    rewrite E, Qabs_Qmult, (Qabs_pos w) by lra.
    rewrite (Qmult_comm w). apply Qmult_le_compat_r; [exact Near | lra].
Qed.

(** One rounding inside bounds that are relative to [A]. *)
Lemma round_step (x A lo hi : Q) :
  0 <= A -> 0 <= lo -> A * lo <= x <= A * hi ->
  A * (lo * (1 - Double.u)) <= Double.round x <= A * (hi * (1 + Double.u)).
Proof.
  intros HA Hlo [H1 H2].
  assert (Hx : 0 <= x) by nra.
  destruct (round_bounds x Hx) as [R1 R2].
  assert (U0 : 0 <= 1 - Double.u) by (vm_compute; discriminate).
  assert (U1 : 0 <= 1 + Double.u) by (vm_compute; discriminate).
  split.
  - eapply Qle_trans; [|exact R1]. rewrite Qmult_assoc.
    apply Qmult_le_compat_r; assumption.
  - eapply Qle_trans; [exact R2|]. rewrite Qmult_assoc.
    apply Qmult_le_compat_r; assumption.
Qed.

Lemma four_roundings :
  1 - 5 * Double.u
  <= (1 - Double.u) * (1 - Double.u) * (1 - Double.u) * (1 - Double.u)
  /\ (1 + Double.u) * (1 + Double.u) * (1 + Double.u) * (1 + Double.u)
     <= 1 + 5 * Double.u.
Proof. split; vm_compute; discriminate. Qed.

(** The computed value is the exact one up to four roundings. *)
Lemma scaled64_near (a n b m k : Z) :
  (0 <= a < n)%Z -> (0 <= b < m)%Z -> (1 <= k)%Z ->
  let e := scaled a n b m k in
  e * (1 - 5 * Double.u) <= scaled64 a n b m k <= e * (1 + 5 * Double.u).
Proof.
  intros Ha Hb Hk e.
  assert (Pn : 0 < inject_Z n) by (apply inject_Z_pos; lia).
  assert (Pm : 0 < inject_Z m) by (apply inject_Z_pos; lia).
  assert (PK : 0 < inject_Z k) by (apply inject_Z_pos; lia).
  assert (Pa : 0 <= inject_Z a) by (apply inject_Z_nonneg; lia).
  assert (Pb : 0 <= inject_Z b) by (apply inject_Z_nonneg; lia).
  assert (Hp : 0 <= inject_Z a / inject_Z n)
    by (apply Qle_shift_div_l; [assumption | now rewrite Qmult_0_l]).
  assert (Hq : 0 <= inject_Z b / inject_Z m)
    by (apply Qle_shift_div_l; [assumption | now rewrite Qmult_0_l]).
  assert (L0 : 0 <= 1 - Double.u) by (vm_compute; discriminate).
  assert (U0 : 1 <= 1 + Double.u) by (vm_compute; discriminate).
  assert (L1 : 1 - Double.u <= 1) by (vm_compute; discriminate).
  unfold scaled64, Double.div at 1, Double.mul, Double.add, Double.div.
  subst e. unfold scaled.
  set (p := inject_Z a / inject_Z n) in *.
  set (q := inject_Z b / inject_Z m) in *.
  set (K := inject_Z k) in *.
  set (L := 1 - Double.u) in *. set (U := 1 + Double.u) in *.
  destruct (round_bounds p Hp) as [P1 P2]. fold L U in P1, P2.
  destruct (round_bounds q Hq) as [Q1 Q2]. fold L U in Q1, Q2.
  set (p' := Double.round p) in *. set (q' := Double.round q) in *.
  assert (S : (p + q) * (L * L) <= Double.round (p' + q') <= (p + q) * (U * U)).
  { apply round_step; [lra | assumption | split; lra]. }
  set (s' := Double.round (p' + q')) in *.
  assert (T : (p + q) * K * (L * L * L) <= Double.round (s' * K)
              <= (p + q) * K * (U * U * U)).
  { apply round_step; [nra | nra |].
    destruct S as [S1 S2]. split.
    - setoid_replace ((p + q) * K * (L * L)) with ((p + q) * (L * L) * K) by ring.
      apply Qmult_le_compat_r; lra.
    - setoid_replace ((p + q) * K * (U * U)) with ((p + q) * (U * U) * K) by ring.
      apply Qmult_le_compat_r; lra. }
  set (t' := Double.round (s' * K)) in *.
  assert (E : forall z, z / 2 == z * (1 # 2)) by (intros; field).
  assert (C : (p + q) * K / 2 * (L * L * L * L) <= Double.round (t' / 2)
              <= (p + q) * K / 2 * (U * U * U * U)).
  { apply round_step.
    - rewrite E. nra.
    - nra.
    - destruct T as [T1 T2]. rewrite !E. split; nra. }
  destruct four_roundings as [F1 F2]. fold L U in F1, F2.
  assert (E0 : 0 <= (p + q) * K / 2) by (rewrite E; nra).
  set (e := (p + q) * K / 2) in *.
  destruct C as [C1 C2]. split.
  - eapply Qle_trans; [|exact C1]. apply Qmult_le_nonneg_l; [exact E0 | exact F1].
  - eapply Qle_trans; [exact C2|]. apply Qmult_le_nonneg_l; [exact E0 | exact F2].
Qed.

Lemma floor_unique (c : Q) (f : Z) :
  inject_Z f <= c -> c < inject_Z f + 1 -> Qfloor c = f.
Proof.
  intros L U. apply Z.le_antisymm.
  - assert (H : c < inject_Z (f + 1)) by (rewrite inject_Z_plus; exact U).
    apply floor_below in H. lia.
  - now apply floor_above.
Qed.

(** The exact value as one fraction. *)
Lemma scaled_fraction (a n b m k : Z) :
  (0 < n)%Z -> (0 < m)%Z ->
  scaled a n b m k * inject_Z (2 * n * m) == inject_Z ((a * m + b * n) * k).
Proof.
  intros Hn Hm. unfold scaled.
  rewrite !inject_Z_mult, inject_Z_plus, !inject_Z_mult.
  change (inject_Z 2) with 2.
  field. split; intros F.
  - apply inject_Z_pos in Hm. rewrite F in Hm. now apply Qlt_irrefl in Hm.
  - apply inject_Z_pos in Hn. rewrite F in Hn. now apply Qlt_irrefl in Hn.
Qed.

(** The floor of the computed value is the floor of the exact one, or one
    less when the exact value is a whole number. *)
Lemma floor64 (a n b m k : Z) :
  (0 <= a < n)%Z -> (0 <= b < m)%Z -> (1 <= k)%Z ->
  (10 * k * n * m <= 2 ^ 53)%Z ->
  let e := scaled a n b m k in
  let c := scaled64 a n b m k in
  Qfloor c = Qfloor e
  \/ (Qfloor c = (Qfloor e - 1)%Z /\ inject_Z (Qfloor e) == e
      /\ (1 <= Qfloor e)%Z).
Proof.
  intros Ha Hb Hk Hsmall e c.
  pose proof (scaled64_near a n b m k Ha Hb Hk) as Near.
  cbv zeta in Near. fold e c in Near.
  destruct (scaled_bounds a n b m k Ha Hb) as [B _].
  destruct (B Hk) as [E0 E1]. fold e in E0, E1. clear B.
  set (D := (2 * n * m)%Z).
  set (N := ((a * m + b * n) * k)%Z).
  assert (HD : (2 <= D)%Z) by (unfold D; nia).
  assert (Fr : e * inject_Z D == inject_Z N)
    by (apply scaled_fraction; lia).
  assert (PD : 2 <= inject_Z D)
    by (change 2 with (inject_Z 2); rewrite <- Zle_Qle; exact HD).
  assert (PK : 1 <= inject_Z k)
    by (change 1 with (inject_Z 1); rewrite <- Zle_Qle; exact Hk).
  (* the rounding error, scaled by the denominator, is below one *)
  assert (Small : 5 * Double.u * inject_Z k * inject_Z D <= 1).
  { assert (Z10 : inject_Z (10 * k * n * m) <= inject_Z (2 ^ 53))
      by (rewrite <- Zle_Qle; exact Hsmall).
    assert (ED : inject_Z (10 * k * n * m) == 5 * inject_Z k * inject_Z D).
    { unfold D. rewrite !inject_Z_mult. change (inject_Z 10) with 10.
      change (inject_Z 2) with 2. ring. }
    rewrite ED in Z10.
    assert (EU : Double.u * inject_Z (2 ^ 53) == 1) by reflexivity.
    assert (Pu : 0 < Double.u) by reflexivity.
    setoid_replace (5 * Double.u * inject_Z k * inject_Z D)
      with (Double.u * (5 * inject_Z k * inject_Z D)) by ring.
    rewrite <- EU. apply Qmult_le_l; assumption. }
  assert (Pv : 0 < 5 * Double.u) by reflexivity.
  assert (Lv : 0 <= 1 - 5 * Double.u) by (vm_compute; discriminate).
  set (Dq := inject_Z D) in *. set (K := inject_Z k) in *.
  (* the exact value, floored *)
  pose proof (Z.div_mod N D ltac:(lia)) as DM.
  pose proof (Z.mod_pos_bound N D ltac:(lia)) as MB.
  set (f := (N / D)%Z) in *. set (r := (N mod D)%Z) in *.
  assert (Fq : e * Dq == inject_Z f * Dq + inject_Z r).
  { rewrite Fr, DM, inject_Z_plus, inject_Z_mult. unfold Dq. ring. }
  assert (R0 : 0 <= inject_Z r) by (apply inject_Z_nonneg; lia).
  assert (R1 : inject_Z r <= Dq - 1).
  { unfold Dq. change 1 with (inject_Z 1). rewrite <- inject_Z_sub.
    rewrite <- Zle_Qle. lia. }
  assert (R2 : r <> 0%Z -> 1 <= inject_Z r)
    by (intros Nr; change 1 with (inject_Z 1); rewrite <- Zle_Qle; lia).
  assert (R3 : r = 0%Z -> inject_Z r == 0) by (intros ->; reflexivity).
  assert (C0 : 0 <= c).
  { destruct Near as [N1 _]. clearbody e c. nra. }
  assert (Err : (c - e) * Dq < 1 /\ -1 < (c - e) * Dq).
  { destruct Near as [N1 N2].
    setoid_replace (5 * Double.u * K * Dq) with (5 * Double.u * (K * Dq))
      in Small by ring.
    assert (X : e * Dq < K * Dq \/ e == 0).
    { destruct (Qlt_le_dec 0 e) as [Pe|Ze]; [left | right; lra].
      apply Qmult_lt_compat_r; lra. }
    clearbody Dq K e c. generalize dependent (5 * Double.u).
    intros v Pv Lv N1 N2 Small.
    destruct X as [X|X]; [|rewrite X in *]; split; nra. }
  assert (PDq : 0 < Dq) by lra.
  assert (Fe : Qfloor e = f).
  { apply floor_unique.
    - apply Qmult_le_r with Dq; [exact PDq|]. rewrite Fq. lra.
    - apply Qmult_lt_r with Dq; [exact PDq|]. rewrite Fq. lra. }
  rewrite Fe. destruct Err as [Hi Lo].
  clear Near Small Fr E1 PK DM MB.
  set (fq := inject_Z f) in *.
  destruct (Z.eq_dec r 0) as [Zr|Nr].
  - (* the exact value is a whole number *)
    specialize (R3 Zr).
    assert (Ee : e == fq).
    { apply Qmult_inj_r with Dq; [lra|]. rewrite Fq, R3. ring. }
    rewrite Ee in Hi, Lo.
    destruct (Qlt_le_dec c fq) as [Below|Above].
    + right. split; [|split].
      * apply floor_unique.
        -- rewrite inject_Z_sub. change (inject_Z 1) with 1. fold fq.
           clearbody Dq fq c. nra.
        -- rewrite inject_Z_sub. change (inject_Z 1) with 1. fold fq. lra.
      * now symmetry.
      * assert (H : 0 < fq) by lra.
        unfold fq in H. change 0 with (inject_Z 0) in H.
        rewrite <- Zlt_Qlt in H. lia.
    + left. apply floor_unique; [exact Above|]. fold fq.
      clearbody Dq fq c. nra.
  - (* the exact value is not a whole number *)
    left. specialize (R2 Nr).
    apply floor_unique; fold fq.
    + apply Qmult_le_r with Dq; [exact PDq|]. clearbody Dq fq e c. nra.
    + apply Qmult_lt_r with Dq; [exact PDq|]. clearbody Dq fq e c. nra.
Qed.

(** On the operations of the examples below, [Double] gives what the
    kernel's binary64 arithmetic gives: the double 0.1 and the mean of
    three of them, their difference and its square, a square root, and the
    scaled percentile sums of ranks 4 and 6 of 7 for k = 7 and of ranks 1
    and 7 of 20 for k = 5. *)
Lemma double_agrees_with_binary64 :
  let f := Binary64.ofInteger in
  let v := Binary64.valueOf in
  let tenth64 := PrimFloat.div (f 1%Z) (f 10%Z) in
  let mean64 :=
    PrimFloat.div
      (PrimFloat.add (PrimFloat.add (PrimFloat.add (f 0%Z) tenth64) tenth64)
                     tenth64)
      (f 3%Z) in
  let mean := Regression64.meanOr0 [tenth; tenth; tenth] in
  v tenth64 = Some tenth
  /\ v mean64 = Some mean
  /\ v (PrimFloat.sub tenth64 mean64) = Some (Double.sub tenth mean)
  /\ v (PrimFloat.mul (PrimFloat.sub tenth64 mean64)
                      (PrimFloat.sub tenth64 mean64))
     = Some (Double.mul (Double.sub tenth mean) (Double.sub tenth mean))
  /\ v (PrimFloat.sqrt (f 2%Z)) = Some (Double.sqrt 2)
  /\ v (PrimFloat.sqrt tenth64) = Some (Double.sqrt tenth)
  /\ v (PrimFloat.div
          (PrimFloat.mul
             (PrimFloat.add (PrimFloat.div (f 4%Z) (f 7%Z))
                            (PrimFloat.div (f 6%Z) (f 7%Z)))
             (f 7%Z))
          (f 2%Z))
     = Some (scaled64 4 7 6 7 7)
  /\ v (PrimFloat.div
          (PrimFloat.mul
             (PrimFloat.add (PrimFloat.div (f 1%Z) (f 20%Z))
                            (PrimFloat.div (f 7%Z) (f 20%Z)))
             (f 5%Z))
          (f 2%Z))
     = Some (scaled64 1 20 7 20 5).
Proof.
  cbv zeta. repeat split; vm_compute; reflexivity.
Qed.

End DoubleFacts.

(** ** The cluster assignment in double precision *)

Section Cluster64Facts.

Local Open Scope Z_scope.


Lemma scatter64_unfold data k point :
  In point data ->
  ScatterPlot64.assignCluster data k point =
  Z.min (Qfloor (scaled64 (countLt (ScatterPlot.x point) (map ScatterPlot.x data))
                          (Z.of_nat (List.length (map ScatterPlot.x data)))
                          (countLt (ScatterPlot.y point) (map ScatterPlot.y data))
                          (Z.of_nat (List.length (map ScatterPlot.y data))) k))
        (k - 1).
Proof.
  intros H. unfold ScatterPlot64.assignCluster, scaled64.
  destruct (rank_of_member ScatterPlot.x data point H) as [-> _].
  destruct (rank_of_member ScatterPlot.y data point H) as [-> _].
  now rewrite !len_sortNum.
Qed.

Lemma pcp64_unfold filteredData k point :
  In point filteredData ->
  PCP64.assignCluster filteredData k point =
  Z.min (Qfloor (scaled64
                   (countLt (PCP.co2Emissions point) (map PCP.co2Emissions filteredData))
                   (Z.of_nat (List.length (map PCP.co2Emissions filteredData)))
                   (countLt (PCP.gdp point) (map PCP.gdp filteredData))
                   (Z.of_nat (List.length (map PCP.gdp filteredData))) k))
        (k - 1).
Proof.
  intros H. unfold PCP64.assignCluster, scaled64.
  change (fun d => PCP.get d (PCP.column 0)) with PCP.co2Emissions.
  change (fun d => PCP.get d (PCP.column 1)) with PCP.gdp.
  change (PCP.get point (PCP.column 0)) with (PCP.co2Emissions point).
  change (PCP.get point (PCP.column 1)) with (PCP.gdp point).
  destruct (rank_of_member PCP.co2Emissions filteredData point H) as [-> _].
  destruct (rank_of_member PCP.gdp filteredData point H) as [-> _].
  now rewrite !len_sortNum.
Qed.

(** The worded computation on ranks. *)
Lemma averageByK_scaled (xs ys : list Q) (k : Z) (vx vy : Q) :
  (0 < Z.of_nat (List.length xs)) -> (0 < Z.of_nat (List.length ys)) ->
  (ClusterSpec.averageByK xs ys k vx vy
   == scaled (countLt vx xs) (Z.of_nat (List.length xs))
             (countLt vy ys) (Z.of_nat (List.length ys)) k)%Q.
Proof.
  intros Hx Hy. unfold ClusterSpec.averageByK, ClusterSpec.rankPercentile, scaled, len.
  field. split; intros F.
  - apply inject_Z_pos in Hy. rewrite F in Hy. now apply Qlt_irrefl in Hy.
  - apply inject_Z_pos in Hx. rewrite F in Hx. now apply Qlt_irrefl in Hx.
Qed.

(** The capped floor of the rounded value against the worded algorithm. *)
Lemma capped_floor64 {A} (f g : A -> Q) (data : list A) (point : A) (k : Z) :
  In point data -> 1 <= k ->
  10 * k * Z.of_nat (List.length data) * Z.of_nat (List.length data) <= 2 ^ 53 ->
  let xs := map f data in
  let ys := map g data in
  let exact := ClusterSpec.averageTimesK xs ys k (f point) (g point) in
  let id :=
    Z.min (Qfloor (scaled64 (countLt (f point) xs) (Z.of_nat (List.length xs))
                            (countLt (g point) ys) (Z.of_nat (List.length ys)) k))
          (k - 1) in
  0 <= id <= k - 1
  /\ (id = exact \/ id = exact - 1)
  /\ (id <> exact ->
      ClusterSpec.whole (ClusterSpec.averageByK xs ys k (f point) (g point))).
Proof.
  intros H Hk Hsmall xs ys exact id.
  destruct (rank_of_member f data point H) as [_ Bx].
  destruct (rank_of_member g data point H) as [_ By].
  fold xs in Bx. fold ys in By.
  assert (Lx : List.length xs = List.length data) by apply length_map.
  assert (Ly : List.length ys = List.length data) by apply length_map.
  assert (Hs : 10 * k * Z.of_nat (List.length xs) * Z.of_nat (List.length ys)
               <= 2 ^ 53) by (rewrite Lx, Ly; exact Hsmall).
  pose proof (floor64 _ _ _ _ k Bx By Hk Hs) as F. cbv zeta in F.
  destruct (capped_floor _ _ _ _ k Bx By) as [R E]. cbv zeta in R, E.
  specialize (R Hk).
  destruct (scaled_bounds _ _ _ _ k Bx By) as [B _]. destruct (B Hk) as [E0 E1].
  pose proof (floor_below _ _ E1) as Fk.
  pose proof (floor_nonneg _ E0) as F0.
  assert (Ex : exact = Qfloor (scaled (countLt (f point) xs) (Z.of_nat (List.length xs))
                                      (countLt (g point) ys) (Z.of_nat (List.length ys)) k)).
  { unfold exact, ClusterSpec.averageTimesK, ClusterSpec.rankPercentile, len.
    rewrite <- E. lia. }
  assert (W : (ClusterSpec.averageByK xs ys k (f point) (g point)
               == scaled (countLt (f point) xs) (Z.of_nat (List.length xs))
                         (countLt (g point) ys) (Z.of_nat (List.length ys)) k)%Q)
    by (apply averageByK_scaled; lia).
  set (e := scaled _ _ _ _ k) in *. set (c := scaled64 _ _ _ _ k) in *.
  destruct F as [F|[F [I P]]].
  - subst id. rewrite F. split; [lia|]. split; [left; lia|].
    intros N. exfalso. apply N. lia.
  - subst id. rewrite F. split; [lia|]. split; [right; lia|].
    intros _. unfold ClusterSpec.whole. rewrite (Qfloor_comp _ _ W), W. exact I.
Qed.

End Cluster64Facts.

(** C1, as amended.  For every filtered dataset, every record of it and
    every k >= 1 with 10 k n^2 <= 2^53 for the n records, the cluster id
    both renderers assign, in the double arithmetic they run in, is the
    record's rank-percentile on each of the two fields within the dataset,
    the two averaged, the average multiplied by k (the sum by k/2),
    floored and clamped to [0, k-1] -- or, only when the average times k
    is a whole number, possibly one less, the rounded product falling
    just below that number.  The id lies in [0, k-1]. *)
Theorem assignCluster_average_times_k :
  forall k : Z, 1 <= k ->
    (forall data point, In point data ->
       10 * k * Z.of_nat (List.length data) * Z.of_nat (List.length data)
       <= 2 ^ 53 ->
       let xs := map ScatterPlot.x data in
       let ys := map ScatterPlot.y data in
       let vx := ScatterPlot.x point in
       let vy := ScatterPlot.y point in
       let id := ScatterPlot64.assignCluster data k point in
       0 <= id <= k - 1
       /\ (id = ClusterSpec.averageTimesK xs ys k vx vy
           \/ id = ClusterSpec.averageTimesK xs ys k vx vy - 1)
       /\ (id <> ClusterSpec.averageTimesK xs ys k vx vy ->
           ClusterSpec.whole (ClusterSpec.averageByK xs ys k vx vy)))
    /\ (forall filteredData point, In point filteredData ->
       10 * k * Z.of_nat (List.length filteredData)
          * Z.of_nat (List.length filteredData) <= 2 ^ 53 ->
       let xs := map PCP.co2Emissions filteredData in
       let ys := map PCP.gdp filteredData in
       let vx := PCP.co2Emissions point in
       let vy := PCP.gdp point in
       let id := PCP64.assignCluster filteredData k point in
       0 <= id <= k - 1
       /\ (id = ClusterSpec.averageTimesK xs ys k vx vy
           \/ id = ClusterSpec.averageTimesK xs ys k vx vy - 1)
       /\ (id <> ClusterSpec.averageTimesK xs ys k vx vy ->
           ClusterSpec.whole (ClusterSpec.averageByK xs ys k vx vy))).
Proof.
  intros k Hk. split; intros data point H Hs xs ys vx vy id.
  - subst id. rewrite (scatter64_unfold data k point H).
    exact (capped_floor64 ScatterPlot.x ScatterPlot.y data point k H Hk Hs).
  - subst id. rewrite (pcp64_unfold data k point H).
    exact (capped_floor64 PCP.co2Emissions PCP.gdp data point k H Hk Hs).
Qed.

(** Seven points, k = 7, the point with ranks 4 and 6: the average times k
    is (4/7 + 6/7) / 2 * 7 = 5; the doubles give 4.999999999999999 and the
    point falls into cluster 4. *)
Lemma assignCluster_average_times_k_witness :
  let point := ScatterPlot.mkPoint "E" 5 7 in
  let id := ScatterPlot64.assignCluster sevenPoints 7 point in
  (id = 5 \/ id = 5 - 1)
  /\ id = 4
  /\ ClusterSpec.averageTimesK (map ScatterPlot.x sevenPoints)
                               (map ScatterPlot.y sevenPoints) 7 5 7 = 5
  /\ ScatterPlot64.assignCluster sevenPoints 4 point = 2.
Proof.
  cbv zeta.
  assert (K : 1 <= 7) by discriminate.
  destruct (assignCluster_average_times_k 7 K) as [S _].
  assert (I : In (ScatterPlot.mkPoint "E" 5 7) sevenPoints)
    by (simpl; tauto).
  assert (B : 10 * 7 * Z.of_nat (List.length sevenPoints)
              * Z.of_nat (List.length sevenPoints) <= 2 ^ 53)
    by (vm_compute; discriminate).
  destruct (S sevenPoints _ I B) as [_ [D _]].
  split; [exact D|]. split; [|split]; vm_compute; reflexivity.
Defined.

(** C1, as stated, fails: with two points and k = 4 the upper point has
    percentile 1/2 on both fields; the renderers give it cluster 2, in
    double precision as in exact arithmetic, the worded algorithm (average
    1/2, times k/2 = 2, floor) gives 1. *)
Lemma assignCluster_not_average_times_half_k :
  let data := [ScatterPlot.mkPoint "A" 1 1; ScatterPlot.mkPoint "B" 2 2] in
  let point := ScatterPlot.mkPoint "B" 2 2 in
  let rows := [PCP.mkDataPoint "A" 1 1 5 70; PCP.mkDataPoint "B" 2 2 6 80] in
  let row := PCP.mkDataPoint "B" 2 2 6 80 in
  In point data /\ In row rows
  /\ ScatterPlot64.assignCluster data 4 point = 2
  /\ PCP64.assignCluster rows 4 row = 2
  /\ ScatterPlot.assignCluster data 4 point = 2
  /\ PCP.assignCluster rows 4 row = 2
  /\ ClusterSpec.specCluster (map ScatterPlot.x data) (map ScatterPlot.y data) 4
                             (ScatterPlot.x point) (ScatterPlot.y point) = 1
  /\ ClusterSpec.specCluster (map PCP.co2Emissions rows) (map PCP.gdp rows) 4
                             (PCP.co2Emissions row) (PCP.gdp row) = 1
  /\ ScatterPlot64.assignCluster data 4 point
     <> ClusterSpec.specCluster (map ScatterPlot.x data) (map ScatterPlot.y data)
                                4 (ScatterPlot.x point) (ScatterPlot.y point).
Proof.
  cbv zeta. split; [simpl; auto|]. split; [simpl; auto|].
  repeat split; try (vm_compute; reflexivity).
  vm_compute. discriminate.
Qed.

(** ** Selection by click *)

Section SelectionFacts.

Lemma includes_In c countries : Map.includes c countries = true <-> In c countries.
Proof.
  unfold Map.includes. rewrite existsb_exists. split.
  - intros [n [Hn E]]. apply String.eqb_eq in E. now subst.
  - intros H. exists c. split; [assumption | apply String.eqb_refl].
Qed.

Lemma In_without c n countries :
  In n (filter (fun c' => negb (String.eqb c' c)) countries)
  <-> In n countries /\ n <> c.
Proof.
  rewrite filter_In, negb_true_iff, String.eqb_neq. tauto.
Qed.

Lemma without_absent c countries :
  ~ In c countries ->
  filter (fun c' => negb (String.eqb c' c)) countries = countries.
Proof.
  induction countries as [|h t IH]; simpl; intros H; [reflexivity|].
  destruct (String.eqb_spec h c) as [->|N]; simpl.
  - exfalso. apply H. now left.
  - f_equal. apply IH. intros F. apply H. now right.
Qed.

(** The click on a feature whose name is a non-empty string [c]. *)
Lemma mouseClick_named countries d c :
  Map.getCountryName d = Some c -> c <> ""%string ->
  Map.mouseClick countries d =
  Some (if Map.includes c countries
        then filter (fun c' => negb (String.eqb c' c)) countries
        else countries ++ [c]).
Proof.
  intros E N. unfold Map.mouseClick. rewrite E. simpl.
  apply String.eqb_neq in N. now rewrite N.
Qed.

Lemma click_named s d c :
  Map.getCountryName d = Some c -> c <> ""%string ->
  AppStore.selectedCountries (Map.click d s) =
  if Map.includes c (AppStore.selectedCountries s)
  then filter (fun c' => negb (String.eqb c' c)) (AppStore.selectedCountries s)
  else AppStore.selectedCountries s ++ [c].
Proof.
  intros E N. unfold Map.click.
  now rewrite (mouseClick_named _ d c E N).
Qed.

(** Whatever an action does, the names selected afterwards were selected
    before or are brought by the action. *)
Lemma apply_selection s a n :
  In n (AppStore.selectedCountries (App.apply s a)) ->
  In n (AppStore.selectedCountries s) \/ In n (App.names a).
Proof.
  destruct a; simpl; auto; try contradiction.
  - unfold Map.click, Map.mouseClick.
    destruct (Map.getCountryName d) as [c|] eqn:E; simpl; [|auto].
    destruct (negb (String.eqb c ""%string)); simpl; [|auto].
    destruct (Map.includes c (AppStore.selectedCountries s)); simpl.
    + rewrite In_without. tauto.
    + rewrite in_app_iff. simpl. tauto.
  - unfold BarChart.clickBar.
    destruct (BarChart.datum validMseData i); simpl; auto.
Qed.

End SelectionFacts.

(** C7, as amended.  The store validates nothing; what holds is that the
    selection stays within the loaded names as long as the names put into
    it do: if the selection of the state the actions start from, every list
    passed to [setSelectedCountries] and the name of every clicked map
    feature are names of loaded records, then after any sequence of setter
    calls and clicks [selectedCountries] contains only names of loaded
    records. *)
Theorem selection_within_loaded :
  forall (svc : DataService.Service) (actions : list App.Action)
         (s : AppStore.AppStore),
    incl (AppStore.selectedCountries s) (App.loadedNames svc) ->
    (forall a, In a actions -> incl (App.names a) (App.loadedNames svc)) ->
    incl (AppStore.selectedCountries (fold_left App.apply actions s))
         (App.loadedNames svc).
Proof.
  intros svc actions. induction actions as [|a rest IH]; intros s Hs Ha; simpl.
  - exact Hs.
  - apply IH.
    + intros n Hn. apply apply_selection in Hn. destruct Hn as [Hn|Hn].
      * now apply Hs.
      * apply (Ha a); [now left | assumption].
    + intros b Hb. apply Ha. now right.
Qed.

(** Clicks and setter calls that stay within the sample service. *)
Lemma selection_within_loaded_witness :
  incl (AppStore.selectedCountries
          (fold_left App.apply
                     [App.MapClick (named "Canada"); App.SetK 3;
                      App.SetSelectedCountries ["China"; "Canada"]%string;
                      App.MapClick (named "China")]
                     AppStore.initial))
       (App.loadedNames sampleService).
Proof.
  apply selection_within_loaded.
  - intros n H. vm_compute in H. vm_compute. tauto.
  - intros a H. simpl in H.
    repeat (destruct H as [<-|H]; [intros n Hn; vm_compute in Hn; vm_compute; tauto|]).
    contradiction.
Defined.

(** C7, as stated, fails: with the default selection loaded, a click on a
    map feature that has no country record (Antarctica) puts its name into
    the selection. *)
Lemma selection_escapes_loaded :
  let s := App.apply AppStore.initial (App.MapClick (named "Antarctica")) in
  DataService.isLoaded sampleService = true
  /\ App.Reachable s
  /\ incl (AppStore.selectedCountries AppStore.initial)
          (App.loadedNames sampleService)
  /\ In "Antarctica"%string (AppStore.selectedCountries s)
  /\ ~ In "Antarctica"%string (App.loadedNames sampleService).
Proof.
  cbv zeta. split; [reflexivity|]. split; [repeat constructor|].
  split; [intros n H; vm_compute in H; vm_compute; tauto|].
  split; [vm_compute; tauto|].
  vm_compute. intros H.
  repeat (destruct H as [H|H]; [discriminate H|]). exact H.
Qed.

(** C8.  A click on the feature of a country named [c] toggles [c] in the
    selection: when present every occurrence is removed and the other names
    are kept, when absent it is appended at the end; two clicks give back
    the names selected at the start. *)
Theorem click_toggles_selection :
  forall (s : AppStore.AppStore) (d : Feature) (c : string),
    Map.getCountryName d = Some c -> c <> ""%string ->
    let before := AppStore.selectedCountries s in
    let once := AppStore.selectedCountries (Map.click d s) in
    let twice := AppStore.selectedCountries (Map.click d (Map.click d s)) in
    (In c before ->
       ~ In c once
       /\ once = filter (fun c' => negb (String.eqb c' c)) before)
    /\ (~ In c before -> once = before ++ [c])
    /\ (forall n, In n twice <-> In n before).
Proof.
  intros s d c E N before once twice.
  assert (H1 : once = if Map.includes c before
                      then filter (fun c' => negb (String.eqb c' c)) before
                      else before ++ [c]) by (apply click_named; assumption).
  assert (H2 : twice = if Map.includes c once
                       then filter (fun c' => negb (String.eqb c' c)) once
                       else once ++ [c]) by (apply click_named; assumption).
  destruct (Map.includes c before) eqn:I.
  - apply includes_In in I.
    assert (Hout : ~ In c once) by (rewrite H1, In_without; tauto).
    split; [intros _; split; assumption|].
    split; [intros F; contradiction|].
    assert (I2 : Map.includes c once = false).
    { apply not_true_iff_false. now rewrite includes_In. }
    rewrite I2 in H2. intros n. rewrite H2, in_app_iff, H1, In_without. simpl.
    destruct (string_dec n c) as [->|D]; [tauto|].
    split; [intros [[? _]|[F|[]]]; [assumption | congruence] | tauto].
  - assert (Habs : ~ In c before).
    { rewrite <- includes_In. congruence. }
    split; [intros F; contradiction|].
    split; [intros _; assumption|].
    assert (I2 : Map.includes c once = true).
    { apply includes_In. rewrite H1, in_app_iff. simpl. tauto. }
    rewrite I2 in H2. intros n.
    rewrite H2, In_without, H1, in_app_iff. simpl.
    split; [intros [[?|[F|[]]] D]; [assumption | congruence]|].
    intros Hn. split; [now left|]. intros ->. contradiction.
Qed.

(** China is in the default selection: one click removes it, a second
    click brings the same names back. *)
Lemma click_toggles_selection_witness :
  let s := AppStore.initial in
  let d := named "China" in
  AppStore.selectedCountries (Map.click d s)
  = ["United States"; "India"; "Germany"; "Japan"; "United Kingdom"; "France"]%string
  /\ forall n, In n (AppStore.selectedCountries (Map.click d (Map.click d s)))
               <-> In n (AppStore.selectedCountries s).
Proof.
  cbv zeta.
  assert (E : Map.getCountryName (named "China") = Some "China"%string)
    by reflexivity.
  assert (N : "China"%string <> ""%string) by discriminate.
  destruct (click_toggles_selection AppStore.initial (named "China")
              "China"%string E N) as [P [_ T]].
  split; [|exact T].
  destruct P as [_ ->]; [simpl; tauto | reflexivity].
Defined.

(** ** Picking k on the bar chart *)

(** When no earlier bar shows the same value, a click on bar [i] sets
    [k = i + 1]. *)
Lemma indexOf_first (l : list Q) :
  forall i d, nth_error l i = Some d ->
    (forall j e, (j < i)%nat -> nth_error l j = Some e -> ~ (e == d)%Q) ->
    indexOf d l = Z.of_nat i.
Proof.
  induction l as [|h t IH]; intros [|i] d Hd Hfirst; try discriminate.
  - simpl in Hd. injection Hd as ->. simpl.
    now rewrite (proj2 (Qeq_bool_iff d d) (Qeq_refl d)).
  - simpl in Hd. simpl indexOf.
    destruct (Qeq_bool h d) eqn:E.
    + apply Qeq_bool_iff in E. exfalso.
      apply (Hfirst 0%nat h); [lia | reflexivity | assumption].
    + rewrite (IH i d Hd).
      * destruct (Z.of_nat i <? 0) eqn:F; [apply Z.ltb_lt in F; lia | lia].
      * intros j e Hj He. apply (Hfirst (S j) e); [lia | exact He].
Qed.

Lemma clickBar_distinct (validMseData : list Q) (i : nat) (d : Q) s :
  nth_error validMseData i = Some d ->
  (forall j e, (j < i)%nat -> nth_error validMseData j = Some e -> ~ (e == d)%Q) ->
  AppStore.k (BarChart.clickBar validMseData i s) = Z.of_nat i + 1.
Proof.
  intros Hd Hfirst. unfold BarChart.clickBar, BarChart.datum. rewrite Hd.
  unfold BarChart.onClick. simpl. now rewrite (indexOf_first _ i d Hd Hfirst).
Qed.

(** C9 at a sequence with a repeated value: bars 1 and 2 both show 3; the
    click on bar 2 looks its value up with [indexOf], finds bar 1 and sets
    k = 2 where the claim has k = 3. *)
Theorem clickBar_repeated_value :
  forall s : AppStore.AppStore,
    let validMseData := [5; 3; 3]%Q in
    BarChart.datum validMseData 2 = Some 3%Q
    /\ AppStore.k (BarChart.clickBar validMseData 2 s) = 2
    /\ AppStore.k (BarChart.clickBar validMseData 2 s) <> Z.of_nat 2 + 1.
Proof.
  intros s. cbv zeta. repeat split. simpl. lia.
Qed.

(** ** Parsing table cells *)

Lemma orZero_not_NaN (n : JS.number) : JS.orZero n <> JS.NaN.
Proof.
  unfold JS.orZero. destruct n as [|q|b]; simpl; try discriminate.
  destruct (Qeq_bool q 0); discriminate.
Qed.

Lemma orZero_falsy (n : JS.number) :
  JS.falsy n = true -> JS.orZero n = JS.Num 0.
Proof. unfold JS.orZero. now intros ->. Qed.

Lemma removeAll_gone (c : ascii) (s : string) :
  ~ In c (list_ascii_of_string (JS.removeAll c s)).
Proof.
  induction s as [|a r IH]; simpl; [tauto|].
  destruct (Ascii.eqb_spec a c) as [->|N]; simpl; [assumption|].
  intros [E|F]; [now apply N | now apply IH].
Qed.

(** C10.  [parseNumericValue] yields a number for every input and never
    [NaN] for [null], [undefined] or a string: [null] and [undefined] give
    0; a string is parsed after its commas, its first [$] and its first [%]
    are removed, and gives 0 when the parse is [NaN] or zero; only the
    number [NaN] itself comes out as [NaN]. *)
Theorem parseNumericValue_NaN_only_from_NaN :
  parseNumericValue JS.Null = JS.Num 0
  /\ parseNumericValue JS.Undefined = JS.Num 0
  /\ (forall s : string,
        let cleanValue :=
          JS.removeFirst "%" (JS.removeFirst "$" (JS.removeAll "," s)) in
        parseNumericValue (JS.Str s) = JS.orZero (JS.parseFloat cleanValue)
        /\ parseNumericValue (JS.Str s) <> JS.NaN
        /\ (JS.parseFloat cleanValue = JS.NaN ->
            parseNumericValue (JS.Str s) = JS.Num 0)
        /\ (forall q, JS.parseFloat cleanValue = JS.Num q -> (q == 0)%Q ->
            parseNumericValue (JS.Str s) = JS.Num 0))
  /\ (forall v : JS.value,
        parseNumericValue v = JS.NaN -> v = JS.Number JS.NaN).
Proof.
  split; [reflexivity|]. split; [reflexivity|]. split.
  - intros s cleanValue. simpl. fold cleanValue.
    split; [reflexivity|]. split; [apply orZero_not_NaN|]. split.
    + intros ->. reflexivity.
    + intros q -> Hq. apply orZero_falsy. simpl. now apply Qeq_bool_iff.
  - intros [| |n|s]; simpl; try discriminate.
    + now intros ->.
    + intros H. now apply orZero_not_NaN in H.
Qed.

(** A cell that is no number, a zero amount, an amount with separators. *)
Lemma parseNumericValue_NaN_only_from_NaN_witness :
  parseNumericValue (JS.Str "n/a") = JS.Num 0
  /\ parseNumericValue (JS.Str "$0.00") = JS.Num 0
  /\ parseNumericValue (JS.Str "$1,234,567.5") = JS.Num (1234567.5)%Q
  /\ (parseNumericValue (JS.Number JS.NaN) = JS.NaN ->
      JS.Number JS.NaN = JS.Number JS.NaN).
Proof.
  destruct parseNumericValue_NaN_only_from_NaN as [_ [_ [S V]]].
  split; [|split; [|split]].
  - destruct (S "n/a"%string) as [_ [_ [H _]]]. apply H. reflexivity.
  - destruct (S "$0.00"%string) as [_ [_ [_ H]]].
    eapply H; [vm_compute; reflexivity | vm_compute; reflexivity].
  - destruct (S "$1,234,567.5"%string) as [-> _]. reflexivity.
  - apply V.
Defined.

(** ** Loading *)

Section LoadFacts.

Import DataService.

Lemma nth_error_fresh {A} (l : list A) (x : A) :
  nth_error (l ++ [x]) (List.length l) = Some x.
Proof.
  rewrite nth_error_app2 by lia. now rewrite Nat.sub_diag.
Qed.

Lemma setPhase_fresh (l : list LoadPhase) (x ph : LoadPhase) :
  setPhase (List.length l) ph (l ++ [x]) = l ++ [ph].
Proof. induction l as [|h t IH]; simpl; [reflexivity | now rewrite IH]. Qed.

(** A call on a service that is neither loaded nor loading starts a
    load: one pair of API requests, one new promise. *)
Lemma loadAllData_starts (w : World) :
  isLoaded (service w) = false -> loading (service w) = false ->
  loadAllData w =
  ({| service := {| worldData := worldData (service w);
                    csvData := csvData (service w);
                    geoData := geoData (service w);
                    loading := true;
                    loadPromise := Some (List.length (promises w)) |};
      requests := requests w ++ [ApiGeojson; ApiCountries];
      promises := promises w ++ [AwaitingApi];
      suspended := suspended w ++ [List.length (promises w)] |},
   Follows (List.length (promises w))).
Proof. intros L B. unfold loadAllData. now rewrite L, B. Qed.

(** A call while the load [p] is recorded as running changes nothing and
    hands back [p]. *)
Lemma loadAllData_joins (w : World) (p : nat) :
  isLoaded (service w) = false -> loading (service w) = true ->
  loadPromise (service w) = Some p ->
  loadAllData w = (w, Follows p).
Proof. intros L B P. unfold loadAllData. now rewrite L, B, P. Qed.

Lemma calls_join (w : World) (p : nat) (n : nat) :
  isLoaded (service w) = false -> loading (service w) = true ->
  loadPromise (service w) = Some p ->
  run w (repeat Call n) = Some (w, repeat (Follows p) n).
Proof.
  intros L B P. induction n as [|n IH]; simpl; [reflexivity|].
  rewrite (loadAllData_joins w p L B P), IH. reflexivity.
Qed.

(** The primary source fails without touching the fields. *)
Lemma tryApi_failure (api : ApiOutcome) (e : Error) (s : Service) :
  primaryError api = Some e -> tryApi api s = (s, Some e).
Proof.
  unfold primaryError. destruct api; simpl; intros H;
    try (injection H as <-); try discriminate; reflexivity.
Qed.

Lemma length_setPhase p ph l : List.length (setPhase p ph l) = List.length l.
Proof.
  revert p. induction l as [|h t IH]; intros [|p]; simpl; auto.
Qed.

Lemma nth_error_setPhase_same p ph l :
  (p < List.length l)%nat -> nth_error (setPhase p ph l) p = Some ph.
Proof.
  revert p. induction l as [|h t IH]; intros [|p] H; simpl in *; try lia.
  - reflexivity.
  - apply IH. lia.
Qed.

Lemma nth_error_setPhase_other p q ph l :
  q <> p -> nth_error (setPhase p ph l) q = nth_error l q.
Proof.
  revert p q. induction l as [|h t IH]; intros [|p] [|q] H; simpl; auto;
    congruence.
Qed.

Lemma suspended_single (l : list nat) (p : nat) :
  (List.length l <= 1)%nat -> In p l -> l = [p].
Proof.
  destruct l as [|a [|b t]]; simpl; intros L H.
  - contradiction.
  - destruct H as [->|[]]. reflexivity.
  - lia.
Qed.

Lemma singleFlight_initial : singleFlight initial.
Proof.
  unfold singleFlight, initial. simpl. split; [intros p []|].
  split; [lia|]. intros [|p] ph H; discriminate H.
Qed.

(** The three ways a call can go. *)
Lemma loadAllData_cases (w : World) :
  (isLoaded (service w) = true /\ loadAllData w = (w, Immediately))
  \/ (isLoaded (service w) = false
      /\ exists p, loading (service w) = true
                   /\ loadPromise (service w) = Some p
                   /\ loadAllData w = (w, Follows p))
  \/ (isLoaded (service w) = false
      /\ (loading (service w) = false \/ loadPromise (service w) = None)
      /\ loadAllData w =
         ({| service := {| worldData := worldData (service w);
                           csvData := csvData (service w);
                           geoData := geoData (service w);
                           loading := true;
                           loadPromise := Some (List.length (promises w)) |};
             requests := requests w ++ [ApiGeojson; ApiCountries];
             promises := promises w ++ [AwaitingApi];
             suspended := suspended w ++ [List.length (promises w)] |},
          Follows (List.length (promises w)))).
Proof.
  unfold loadAllData.
  destruct (isLoaded (service w)); [left; split; reflexivity|].
  destruct (loading (service w)), (loadPromise (service w)) as [p|].
  - right; left. split; [reflexivity|]. exists p. repeat split.
  - right; right. split; [reflexivity|]. split; [now right | reflexivity].
  - right; right. split; [reflexivity|]. split; [now left | reflexivity].
  - right; right. split; [reflexivity|]. split; [now left | reflexivity].
Qed.

Lemma singleFlight_call (w : World) :
  singleFlight w -> singleFlight (fst (loadAllData w)).
Proof.
  intros [I1 [I2 I3]].
  destruct (loadAllData_cases w) as [[_ ->]|[[_ [p [_ [_ ->]]]]|[L [C ->]]]];
    cbn [fst]; try exact (conj I1 (conj I2 I3)).
  assert (Hs : suspended w = []).
  { destruct (suspended w) as [|q t] eqn:S; [reflexivity|].
    destruct (I1 q) as [_ [B' P']]; [now left|].
    destruct C; congruence. }
  unfold singleFlight. cbn [service promises suspended loading loadPromise].
  rewrite Hs, length_app. simpl. split; [|split; [lia|]].
  - intros p [<-|[]]. repeat split. lia.
  - intros p ph H U.
    destruct (Nat.lt_ge_cases p (List.length (promises w))) as [Lt|Ge].
    + rewrite nth_error_app1 in H by assumption.
      destruct (I3 p ph H U) as [F _]. rewrite Hs in F. contradiction.
    + assert (N : nth_error (promises w ++ [AwaitingApi]) p <> None) by congruence.
      apply nth_error_Some in N. rewrite length_app in N. simpl in N.
      assert (p = List.length (promises w)) by lia. subst p.
      split; [now left | exact L].
Qed.

Lemma singleFlight_settle (w : World) (p : nat) (s' : Service) (r : Result) :
  singleFlight w ->
  (exists ph, nth_error (promises w) p = Some ph /\ unsettled ph = true) ->
  loading s' = loading (service w) -> loadPromise s' = loadPromise (service w) ->
  singleFlight {| service := s'; requests := requests w;
                  promises := setPhase p (Settled r) (promises w);
                  suspended := suspended w |}.
Proof.
  intros [I1 [I2 I3]] [ph [Hp U]] B P.
  destruct (I3 p ph Hp U) as [Sp _].
  destruct (I1 p Sp) as [Len _].
  unfold singleFlight. cbn [service promises suspended].
  rewrite length_setPhase, B, P. split; [exact I1|]. split; [exact I2|].
  intros q qh H Uq. destruct (Nat.eq_dec q p) as [->|N].
  - rewrite nth_error_setPhase_same in H by lia. injection H as <-. discriminate.
  - rewrite nth_error_setPhase_other in H by assumption.
    destruct (I3 q qh H Uq) as [Sq _]. destruct (I1 q Sq) as [Len' _]. lia.
Qed.

Lemma singleFlight_step (w w' : World) (e : Event) (rs : list Returned) :
  singleFlight w -> step w e = Some (w', rs) -> singleFlight w'.
Proof.
  intros I H. destruct e as [|p o|p o|p]; simpl in H.
  - pose proof (singleFlight_call w I) as C.
    destruct (loadAllData w) as [w1 r]. injection H as <- _. exact C.
  - unfold apiSettles in H.
    destruct (nth_error (promises w) p) as [[| |]|] eqn:Hp; try discriminate.
    destruct (tryApi o (service w)) as [s' [e|]] eqn:T; simpl in H;
      injection H as <- _.
    + assert (s' = service w) as ->.
      { destruct o; simpl in T; try (injection T as <- _; reflexivity).
        discriminate. }
      destruct I as [I1 [I2 I3]].
      destruct (I3 p _ Hp eq_refl) as [Sp Ld]. destruct (I1 p Sp) as [Len _].
      unfold singleFlight. cbn [service promises suspended].
      rewrite length_setPhase. split; [exact I1|]. split; [exact I2|].
      intros q qh H Uq. destruct (Nat.eq_dec q p) as [->|N].
      * split; assumption.
      * rewrite nth_error_setPhase_other in H by assumption.
        now apply (I3 q qh).
    + apply singleFlight_settle; try assumption.
      * exists AwaitingApi. now split.
      * destruct o; simpl in T; try discriminate. now injection T as <-.
      * destruct o; simpl in T; try discriminate. now injection T as <-.
  - unfold filesSettle in H.
    destruct (nth_error (promises w) p) as [[| |]|] eqn:Hp; try discriminate.
    destruct (_loadFallbackData o (service w)) as [s' r] eqn:T. simpl in H.
    injection H as <- _.
    apply singleFlight_settle; try assumption.
    + exists AwaitingFiles. now split.
    + destruct o; simpl in T; now injection T as <- _.
    + destruct o; simpl in T; now injection T as <- _.
  - unfold resume in H.
    destruct (nth_error (promises w) p) as [[| |r]|] eqn:Hp; try discriminate.
    destruct (existsb (Nat.eqb p) (suspended w)) eqn:Ex; try discriminate.
    simpl in H. injection H as <- _.
    apply existsb_exists in Ex. destruct Ex as [q [Hq Eq]].
    apply Nat.eqb_eq in Eq. subst q.
    destruct I as [I1 [I2 I3]].
    pose proof (suspended_single _ _ I2 Hq) as Hs.
    unfold singleFlight. cbn [service promises suspended loading loadPromise].
    rewrite Hs. simpl. rewrite Nat.eqb_refl. simpl.
    split; [intros q []|]. split; [lia|].
    intros q qh H Uq. exfalso.
    destruct (I3 q qh H Uq) as [Sq _]. rewrite Hs in Sq.
    destruct Sq as [<-|[]]. rewrite Hp in H. injection H as <-. discriminate.
Qed.

Lemma singleFlight_run (es : list Event) :
  forall w w' rs, singleFlight w -> run w es = Some (w', rs) -> singleFlight w'.
Proof.
  induction es as [|e es IH]; intros w w' rs I H; simpl in H.
  - now injection H as <- _.
  - destruct (step w e) as [[w1 r1]|] eqn:S; [|discriminate].
    destruct (run w1 es) as [[w2 r2]|] eqn:R; [|discriminate].
    injection H as <- _.
    eapply IH; [|exact R]. eapply singleFlight_step; eauto.
Qed.

(** While a load is running, a call joins it. *)
Lemma running_call_joins (w : World) (p : nat) (ph : LoadPhase) :
  singleFlight w -> nth_error (promises w) p = Some ph -> unsettled ph = true ->
  loadAllData w = (w, Follows p).
Proof.
  intros [I1 [_ I3]] H U.
  destruct (I3 p ph H U) as [Sp L]. destruct (I1 p Sp) as [_ [B P]].
  now apply loadAllData_joins.
Qed.

(** Every load issues its pair of API requests once. *)
Lemma apiPairs_run (es : list Event) :
  forall w w' rs,
    apiPairs (requests w) = List.length (promises w) ->
    run w es = Some (w', rs) ->
    apiPairs (requests w') = List.length (promises w').
Proof.
  induction es as [|e es IH]; intros w w' rs I H; simpl in H.
  - now injection H as <- _.
  - destruct (step w e) as [[w1 r1]|] eqn:S; [|discriminate].
    destruct (run w1 es) as [[w2 r2]|] eqn:R; [|discriminate].
    injection H as <- _.
    eapply IH; [|exact R]. clear IH R.
    destruct e as [|p o|p o|p]; simpl in S.
    + destruct (loadAllData_cases w) as [[_ E]|[[_ [p [_ [_ E]]]]|[_ [_ E]]]];
        rewrite E in S; injection S as <- _; try assumption.
      cbn [requests promises]. unfold apiPairs in *.
      rewrite filter_app, !length_app, I. reflexivity.
    + unfold apiSettles in S.
      destruct (nth_error (promises w) p) as [[| |]|]; try discriminate.
      destruct (tryApi o (service w)) as [s' [e|]]; simpl in S;
        injection S as <- _; cbn [requests promises];
        rewrite length_setPhase; [|assumption].
      unfold apiPairs in *. rewrite filter_app, length_app. simpl. lia.
    + unfold filesSettle in S.
      destruct (nth_error (promises w) p) as [[| |]|]; try discriminate.
      destruct (_loadFallbackData o (service w)) as [s' r]. simpl in S.
      injection S as <- _. cbn [requests promises].
      now rewrite length_setPhase.
    + unfold resume in S.
      destruct (nth_error (promises w) p) as [[| |r]|]; try discriminate.
      destruct (existsb (Nat.eqb p) (suspended w)); try discriminate.
      simpl in S. injection S as <- _. exact I.
Qed.

(** One call on an idle service, followed to its end, settles as
    [_loadData] does. *)
Lemma loadAll_follows__loadData (w : World) (api : ApiOutcome)
      (files : FilesOutcome) :
  isLoaded (service w) = false -> loading (service w) = false ->
  loadAll api files w
  = Some (snd (_loadData api files (service (fst (loadAllData w))))).
Proof.
  intros L B. unfold loadAll. rewrite (loadAllData_starts w L B). cbn [fst].
  unfold apiSettles, _loadData. cbn [promises service requests suspended].
  rewrite nth_error_fresh.
  destruct (tryApi api _) as [s' [e|]]; cbn [promises snd].
  - rewrite setPhase_fresh, nth_error_fresh.
    unfold filesSettle. cbn [promises service]. rewrite nth_error_fresh.
    destruct (_loadFallbackData files s') as [s'' r]. cbn [snd].
    unfold outcome. cbn [promises]. now rewrite setPhase_fresh, nth_error_fresh.
  - rewrite setPhase_fresh, nth_error_fresh.
    unfold outcome. cbn [promises]. now rewrite nth_error_fresh.
Qed.

End LoadFacts.

Section LoadClaims.

Import DataService.

(** The states a load that fails on both sources goes through. *)
Lemma failing_load (w : World) (api : ApiOutcome) (e1 e2 : Error) :
  isLoaded (service w) = false -> loading (service w) = false ->
  primaryError api = Some e1 ->
  let p := List.length (promises w) in
  let w1 := fst (loadAllData w) in
  exists w2 w3,
    loadAllData w = (w1, Follows p)
    /\ apiSettles p api w1 = Some w2
    /\ nth_error (promises w2) p = Some AwaitingFiles
    /\ filesSettle p (FilesRejected e2) w2 = Some w3
    /\ promises w3 = promises w ++ [Settled (Rejected e2)]
    /\ requests w3 =
       requests w ++ [ApiGeojson; ApiCountries; FileGeojson; FileCsv]
    /\ suspended w3 = suspended w ++ [p]
    /\ loading (service w3) = true.
Proof.
  intros L B E p w1. subst w1. rewrite (loadAllData_starts w L B).
  cbn [fst]. subst p.
  unfold apiSettles. cbn [promises service requests suspended].
  rewrite nth_error_fresh.
  rewrite (tryApi_failure api e1 _ E).
  eexists. eexists. split; [reflexivity|]. split; [reflexivity|].
  cbn [promises service requests suspended].
  rewrite setPhase_fresh, nth_error_fresh.
  split; [reflexivity|].
  unfold filesSettle.
  cbn [promises service requests suspended _loadFallbackData].
  rewrite nth_error_fresh, setPhase_fresh.
  split; [reflexivity|]. cbn [promises service requests suspended loading].
  split; [reflexivity|]. split; [now rewrite <- app_assoc|].
  split; reflexivity.
Qed.

Lemma nth_error_setPhase (p q : nat) (ph : LoadPhase) (l : list LoadPhase) :
  nth_error (setPhase p ph l) q
  = if Nat.eqb q p then option_map (fun _ => ph) (nth_error l q)
    else nth_error l q.
Proof.
  destruct (Nat.eqb_spec q p) as [->|N].
  - revert p. induction l as [|h t IH]; intros [|p]; simpl; auto.
  - now apply nth_error_setPhase_other.
Qed.

(** A call while promise [p] is recorded as running hands back [p],
    whatever phase it is in. *)
Lemma joining_call (w : World) (p : nat) :
  isLoaded (service w) = false -> loading (service w) = true ->
  loadPromise (service w) = Some p ->
  run w [Call] = Some (w, [Follows p]).
Proof.
  intros L B P. simpl. now rewrite (loadAllData_joins w p L B P).
Qed.

(** The two settlements of a load that fails on both sources. *)
Lemma both_fail (w : World) (p : nat) (api : ApiOutcome) (e1 e2 : Error) :
  nth_error (promises w) p = Some AwaitingApi ->
  primaryError api = Some e1 ->
  exists w2 w3,
    apiSettles p api w = Some w2
    /\ nth_error (promises w2) p = Some AwaitingFiles
    /\ filesSettle p (FilesRejected e2) w2 = Some w3
    /\ nth_error (promises w3) p = Some (Settled (Rejected e2)).
Proof.
  intros A E. unfold apiSettles. rewrite A, (tryApi_failure api e1 _ E).
  eexists. eexists. split; [reflexivity|].
  cbn [promises]. rewrite nth_error_setPhase, Nat.eqb_refl, A. cbn [option_map].
  split; [reflexivity|].
  unfold filesSettle. cbn [promises service _loadFallbackData].
  rewrite nth_error_setPhase, Nat.eqb_refl, A. cbn [option_map].
  split; [reflexivity|]. cbn [promises].
  rewrite nth_error_setPhase, Nat.eqb_refl, nth_error_setPhase, Nat.eqb_refl, A.
  reflexivity.
Qed.

(** The settlement of the files of a load whose API requests have
    failed. *)
Lemma files_fail (w : World) (p : nat) (e2 : Error) :
  nth_error (promises w) p = Some AwaitingFiles ->
  exists w3,
    filesSettle p (FilesRejected e2) w = Some w3
    /\ nth_error (promises w3) p = Some (Settled (Rejected e2)).
Proof.
  intros A. unfold filesSettle. rewrite A. cbn [_loadFallbackData].
  eexists. split; [reflexivity|]. cbn [promises].
  now rewrite nth_error_setPhase, Nat.eqb_refl, A.
Qed.

(** A promise is only ever rejected by the failure of its file requests,
    with their error. *)
Lemma rejections_come_from_files (es : list Event) :
  forall (w w' : World) (rs : list Returned) (p : nat) (e : Error),
    run w es = Some (w', rs) ->
    nth_error (promises w') p = Some (Settled (Rejected e)) ->
    nth_error (promises w) p = Some (Settled (Rejected e))
    \/ In (FilesSettle p (FilesRejected e)) es.
Proof.
  induction es as [|ev es IH]; intros w w' rs p e R H; simpl in R.
  - injection R as <- _. now left.
  - destruct (step w ev) as [[w1 r1]|] eqn:S; [|discriminate].
    destruct (run w1 es) as [[w2 r2]|] eqn:R2; [|discriminate].
    injection R as <- _.
    destruct (IH w1 w2 r2 p e R2 H) as [H1|H1]; [|right; now right].
    clear IH R2 H.
    destruct ev as [|q o|q o|q]; simpl in S.
    + destruct (loadAllData_cases w) as [[_ E]|[[_ [q [_ [_ E]]]]|[_ [_ E]]]];
        rewrite E in S; injection S as <- _; try (now left).
      cbn [promises] in H1. left.
      destruct (Nat.lt_ge_cases p (List.length (promises w))) as [Lt|Ge].
      * now rewrite nth_error_app1 in H1.
      * rewrite nth_error_app2 in H1 by lia.
        destruct (p - List.length (promises w))%nat as [|[|n]];
          simpl in H1; discriminate.
    + unfold apiSettles in S.
      destruct (nth_error (promises w) q) as [[| |]|] eqn:Q; try discriminate.
      destruct (tryApi o (service w)) as [s' [err|]]; simpl in S;
        injection S as <- _; cbn [promises] in H1;
        rewrite nth_error_setPhase in H1;
        destruct (Nat.eqb p q) eqn:PQ; try (now left);
        apply Nat.eqb_eq in PQ; subst q; rewrite Q in H1; discriminate.
    + unfold filesSettle in S.
      destruct (nth_error (promises w) q) as [[| |]|] eqn:Q; try discriminate.
      destruct o as [err|geo csv]; cbn [_loadFallbackData] in S;
        injection S as <- _; cbn [promises] in H1;
        rewrite nth_error_setPhase in H1;
        destruct (Nat.eqb p q) eqn:PQ; try (now left);
        apply Nat.eqb_eq in PQ; subst q; rewrite Q in H1;
        simpl in H1; [|discriminate].
      injection H1 as ->. right. now left.
    + unfold resume in S.
      destruct (nth_error (promises w) q) as [[| |]|]; try discriminate.
      destruct (existsb (Nat.eqb q) (suspended w)); [|discriminate].
      injection S as <- _. now left.
Qed.

End LoadClaims.

Section LoadRejection.

Import DataService.

(** C3, as amended.  On a service that is not loaded, when the primary
    (API) source fails and the fallback (static-file) source fails as
    well, the promise a call of loadAllData returns rejects with the error
    of the fallback source -- whether the call starts the load or joins
    the load in flight, before or after the API has failed; the error of
    the primary source is logged and dropped.  Under every schedule of
    calls and settlements, a load is only ever rejected by the failure of
    its files, with their error. *)
Theorem loadAll_rejects_with_fallback_error :
  forall (w : World) (api : ApiOutcome) (e1 e2 : Error),
    isLoaded (service w) = false ->
    primaryError api = Some e1 ->
    (loading (service w) = false ->
     let p := List.length (promises w) in
     loadAll api (FilesRejected e2) w = Some (Rejected e2)
     /\ exists w',
         run w [Call; ApiSettles p api; FilesSettle p (FilesRejected e2);
                Resume p]
         = Some (w', [Follows p])
         /\ outcome w' (Follows p) = Some (Rejected e2)
         /\ loading (service w') = false)
    /\ (forall p : nat,
          loading (service w) = true -> loadPromise (service w) = Some p ->
          (nth_error (promises w) p = Some AwaitingApi ->
           loadAll api (FilesRejected e2) w = Some (Rejected e2)
           /\ exists w',
               run w [Call; ApiSettles p api;
                      FilesSettle p (FilesRejected e2)]
               = Some (w', [Follows p])
               /\ outcome w' (Follows p) = Some (Rejected e2))
          /\ (nth_error (promises w) p = Some AwaitingFiles ->
              exists w',
                run w [Call; FilesSettle p (FilesRejected e2)]
                = Some (w', [Follows p])
                /\ outcome w' (Follows p) = Some (Rejected e2)))
    /\ (forall (es : list Event) (w' : World) (rs : list Returned)
               (p : nat) (e : Error),
          run initial es = Some (w', rs) ->
          nth_error (promises w') p = Some (Settled (Rejected e)) ->
          In (FilesSettle p (FilesRejected e)) es).
Proof.
  intros w api e1 e2 L E. split; [|split].
  - intros B p.
    destruct (failing_load w api e1 e2 L B E)
      as [w2 [w3 [H0 [H1 [H2 [H3 [H4 [H5 [H6 H7]]]]]]]]].
    fold p in H0, H1, H2, H3, H6.
    assert (O : outcome w3 (Follows p) = Some (Rejected e2)).
    { unfold outcome. rewrite H4. unfold p. now rewrite nth_error_fresh. }
    split.
    + unfold loadAll. rewrite H0, H1, H2, H3. exact O.
    + assert (R : exists w', resume p w3 = Some w'
                    /\ promises w' = promises w3
                    /\ loading (service w') = false).
      { unfold resume. rewrite H4. unfold p at 1.
        rewrite nth_error_fresh. rewrite H6, existsb_app. simpl.
        rewrite Nat.eqb_refl, orb_true_r. simpl.
        eexists. split; [reflexivity|]. split; reflexivity. }
      destruct R as [w' [R1 [R2 R3]]].
      exists w'. split; [|split; [|exact R3]].
      * simpl. rewrite H0, H1. simpl. rewrite H3. simpl. rewrite R1. reflexivity.
      * unfold outcome. rewrite R2, H4. unfold p.
        now rewrite nth_error_fresh.
  - intros p B P. pose proof (loadAllData_joins w p L B P) as J. split.
    + intros A.
      destruct (both_fail w p api e1 e2 A E) as [w2 [w3 [S1 [A2 [S2 A3]]]]].
      split.
      * unfold loadAll. rewrite J, S1, A2, S2. unfold outcome. now rewrite A3.
      * exists w3. split.
        -- simpl. rewrite J, S1. simpl. rewrite S2. reflexivity.
        -- unfold outcome. now rewrite A3.
    + intros A. destruct (files_fail w p e2 A) as [w3 [S2 A3]].
      exists w3. split.
      * simpl. rewrite J, S2. reflexivity.
      * unfold outcome. now rewrite A3.
  - intros es w' rs p e R H.
    destruct (rejections_come_from_files es initial w' rs p e R H) as [F|F];
      [|exact F].
    destruct p; discriminate.
Qed.

(** The map, the parallel-coordinates plot, the bar chart and the
    application all call on mounting: the first call starts the load, the
    next one joins it; the API answers with an error status and the files
    are missing. *)
Lemma loadAll_rejects_with_fallback_error_witness :
  exists w',
    run initial [Call; Call; ApiSettles 0 ApiNotOk;
                 FilesSettle 0 (FilesRejected "404 Not Found"%string)]
    = Some (w', [Follows 0; Follows 0])
    /\ outcome w' (Follows 0) = Some (Rejected "404 Not Found"%string).
Proof.
  destruct (loadAll_rejects_with_fallback_error
              (fst (loadAllData initial)) ApiNotOk
              "Failed to fetch data from API"%string "404 Not Found"%string
              eq_refl eq_refl) as [_ [J _]].
  destruct (J 0%nat eq_refl eq_refl) as [A _].
  destruct (A eq_refl) as [_ [w' [R O]]].
  exists w'. split; [|exact O].
  simpl. simpl in R. injection R as <-. reflexivity.
Defined.

End LoadRejection.

(** C3, as stated, fails: the API is unreachable, the static files are
    missing; the load rejects with the error of the files, not with the
    one the API request failed with. *)
Lemma loadAll_drops_primary_error :
  let api := DataService.ApiRejected "API unreachable"%string in
  let files := DataService.FilesRejected "file not found"%string in
  DataService.primaryError api = Some "API unreachable"%string
  /\ DataService.loadAll api files DataService.initial
     = Some (DataService.Rejected "file not found"%string)
  /\ DataService.loadAll api files DataService.initial
     <> Some (DataService.Rejected "API unreachable"%string).
Proof.
  cbv zeta. repeat split. discriminate.
Qed.

(** C4.  A call on a loaded service returns at once and requests nothing;
    a call while a load is running hands back that load and requests
    nothing; any number of calls made before the load settles issue one
    pair of requests and all follow the same load.  Under every schedule
    of calls and settlements there are as many API request pairs as loads,
    a load that has not settled is the latest one, and a call made
    meanwhile joins it. *)
Theorem loadAllData_single_flight :
  (forall w : DataService.World,
     DataService.isLoaded (DataService.service w) = true ->
     DataService.loadAllData w = (w, DataService.Immediately))
  /\ (forall (w : DataService.World) (p : nat),
        DataService.isLoaded (DataService.service w) = false ->
        DataService.loading (DataService.service w) = true ->
        DataService.loadPromise (DataService.service w) = Some p ->
        DataService.loadAllData w = (w, DataService.Follows p))
  /\ (forall (w : DataService.World) (n : nat),
        DataService.isLoaded (DataService.service w) = false ->
        DataService.loading (DataService.service w) = false ->
        let p := List.length (DataService.promises w) in
        exists w',
          DataService.run w (repeat DataService.Call (S n))
          = Some (w', repeat (DataService.Follows p) (S n))
          /\ DataService.requests w'
             = DataService.requests w
               ++ [DataService.ApiGeojson; DataService.ApiCountries]
          /\ DataService.promises w'
             = DataService.promises w ++ [DataService.AwaitingApi])
  /\ (forall (es : list DataService.Event) (w : DataService.World)
             (rs : list DataService.Returned),
        DataService.run DataService.initial es = Some (w, rs) ->
        DataService.apiPairs (DataService.requests w)
        = List.length (DataService.promises w)
        /\ forall p ph,
            nth_error (DataService.promises w) p = Some ph ->
            DataService.unsettled ph = true ->
            S p = List.length (DataService.promises w)
            /\ DataService.loadAllData w = (w, DataService.Follows p)).
Proof.
  split; [|split; [|split]].
  - intros w L. unfold DataService.loadAllData. now rewrite L.
  - intros w p. apply loadAllData_joins.
  - intros w n L B p.
    eexists. split; [|split].
    + simpl. rewrite (loadAllData_starts w L B). fold p.
      rewrite (calls_join _ p n); [reflexivity | exact L | reflexivity | reflexivity].
    + reflexivity.
    + reflexivity.
  - intros es w rs R.
    assert (I : DataService.singleFlight w)
      by (eapply singleFlight_run; [apply singleFlight_initial | exact R]).
    split; [eapply apiPairs_run; [|exact R]; reflexivity|].
    intros p ph H U. split.
    + destruct I as [I1 [_ I3]]. destruct (I3 p ph H U) as [Sp _].
      now destruct (I1 p Sp).
    + now apply (running_call_joins w p ph).
Qed.

(** Three calls in a row on the fresh service. *)
Lemma loadAllData_single_flight_witness :
  exists w',
    DataService.run DataService.initial (repeat DataService.Call 3)
    = Some (w', repeat (DataService.Follows 0) 3)
    /\ DataService.requests w'
       = [DataService.ApiGeojson; DataService.ApiCountries]
    /\ DataService.promises w' = [DataService.AwaitingApi].
Proof.
  destruct loadAllData_single_flight as [_ [_ [H _]]].
  exact (H DataService.initial 2%nat eq_refl eq_refl).
Defined.

(** ** The colour scale of the map *)

Section ColorScaleFacts.

Local Open Scope Q_scope.

Lemma sorted_nth (s : list Q) :
  StronglySorted Qle s ->
  forall i j, (i <= j < List.length s)%nat -> nth i s 0 <= nth j s 0.
Proof.
  induction 1 as [|h t Hs IH Hall]; intros i j [Hij Hj]; simpl in Hj; [lia|].
  destruct i as [|i], j as [|j]; simpl; try lia.
  - apply Qle_refl.
  - rewrite Forall_forall in Hall. apply Hall. apply nth_In. lia.
  - apply IH. lia.
Qed.

Lemma qmin_cases a b : (D3.qmin a b = a /\ a <= b) \/ (D3.qmin a b = b /\ b <= a).
Proof.
  unfold D3.qmin. destruct (Qle_bool a b) eqn:E.
  - left. split; [reflexivity | now apply Qle_bool_iff].
  - right. split; [reflexivity | apply Qlt_le_weak; now apply Qle_bool_false].
Qed.

Lemma qmax_cases a b : (D3.qmax a b = a /\ b <= a) \/ (D3.qmax a b = b /\ a <= b).
Proof.
  unfold D3.qmax. destruct (Qle_bool b a) eqn:E.
  - left. split; [reflexivity | now apply Qle_bool_iff].
  - right. split; [reflexivity | apply Qlt_le_weak; now apply Qle_bool_false].
Qed.

Lemma min_spec (l : list Q) :
  l <> [] -> exists m, D3.min l = Some m /\ In m l /\ forall v, In v l -> m <= v.
Proof.
  induction l as [|h t IH]; [congruence|]. intros _.
  destruct t as [|h' t'].
  - exists h. simpl. split; [reflexivity|]. split; [now left|].
    intros v [<-|[]]. apply Qle_refl.
  - destruct IH as [m [E [I L]]]; [discriminate|].
    change (D3.min (h :: h' :: t')) with
      (match D3.min (h' :: t') with None => Some h | Some m => Some (D3.qmin h m) end).
    rewrite E. exists (D3.qmin h m). split; [reflexivity|].
    destruct (qmin_cases h m) as [[-> C]|[-> C]].
    + split; [now left|]. intros v [<-|Hv]; [apply Qle_refl|].
      apply Qle_trans with m; auto.
    + split; [now right|]. intros v [<-|Hv]; auto.
Qed.

Lemma max_spec (l : list Q) :
  l <> [] -> exists m, D3.max l = Some m /\ In m l /\ forall v, In v l -> v <= m.
Proof.
  induction l as [|h t IH]; [congruence|]. intros _.
  destruct t as [|h' t'].
  - exists h. simpl. split; [reflexivity|]. split; [now left|].
    intros v [<-|[]]. apply Qle_refl.
  - destruct IH as [m [E [I L]]]; [discriminate|].
    change (D3.max (h :: h' :: t')) with
      (match D3.max (h' :: t') with None => Some h | Some m => Some (D3.qmax h m) end).
    rewrite E. exists (D3.qmax h m). split; [reflexivity|].
    destruct (qmax_cases h m) as [[-> C]|[-> C]].
    + split; [now left|]. intros v [<-|Hv]; [apply Qle_refl|].
      apply Qle_trans with m; auto.
    + split; [now right|]. intros v [<-|Hv]; auto.
Qed.

(** The interpolating case of the quantile. *)
Lemma quantile_between (s : list Q) (p : Q) :
  StronglySorted Qle s -> (2 <= List.length s)%nat -> 0 < p -> p < 1 ->
  exists (q : Q) (i0 : nat),
    D3.quantile s p = Some q
    /\ (S i0 < List.length s)%nat
    /\ inject_Z (Z.of_nat i0) <= inject_Z (Z.of_nat (List.length s) - 1) * p
    /\ inject_Z (Z.of_nat (List.length s) - 1) * p < inject_Z (Z.of_nat i0) + 1
    /\ q == nth i0 s 0 + (nth (S i0) s 0 - nth i0 s 0)
            * (inject_Z (Z.of_nat (List.length s) - 1) * p - inject_Z (Z.of_nat i0))
    /\ nth i0 s 0 <= q /\ q <= nth (S i0) s 0.
Proof.
  intros Hs Hn Hp0 Hp1. unfold D3.quantile.
  set (n := Z.of_nat (List.length s)).
  assert (Hn2 : (2 <= n)%Z) by (unfold n; lia).
  destruct (n =? 0)%Z eqn:E0; [apply Z.eqb_eq in E0; lia|].
  assert (Qle_bool p 0 = false) as ->.
  { apply not_true_iff_false. rewrite Qle_bool_iff. now apply Qlt_not_le. }
  assert ((n <? 2)%Z = false) as -> by (apply Z.ltb_ge; lia).
  assert (Qle_bool 1 p = false) as ->.
  { apply not_true_iff_false. rewrite Qle_bool_iff. now apply Qlt_not_le. }
  cbn [orb].
  set (i := inject_Z (n - 1) * p).
  assert (Hn1 : 1 <= inject_Z (n - 1)).
  { change 1 with (inject_Z 1). rewrite <- Zle_Qle. lia. }
  assert (Hi0 : 0 <= i) by (unfold i; nra).
  assert (Hi1 : i < inject_Z (n - 1)) by (unfold i; nra).
  pose proof (Qfloor_le i) as F1. pose proof (Qlt_floor i) as F2.
  assert (G0 : (0 <= Qfloor i)%Z).
  { apply (Qfloor_resp_le 0 i) in Hi0. exact Hi0. }
  assert (G1 : (Qfloor i < n - 1)%Z).
  { rewrite Zlt_Qlt. eapply Qle_lt_trans; eauto. }
  exists (nth (Z.to_nat (Qfloor i)) s 0
          + (nth (Z.to_nat (Qfloor i + 1)) s 0 - nth (Z.to_nat (Qfloor i)) s 0)
            * (i - inject_Z (Qfloor i))).
  exists (Z.to_nat (Qfloor i)).
  replace (Z.to_nat (Qfloor i + 1)) with (S (Z.to_nat (Qfloor i))) by lia.
  rewrite Z2Nat.id by assumption.
  assert (Hlen : (S (Z.to_nat (Qfloor i)) < List.length s)%nat) by (unfold n in G1; lia).
  assert (Hord : nth (Z.to_nat (Qfloor i)) s 0 <= nth (S (Z.to_nat (Qfloor i))) s 0).
  { apply sorted_nth; [assumption | lia]. }
  rewrite inject_Z_plus in F2. change (inject_Z 1) with 1 in F2.
  split; [reflexivity|]. split; [assumption|]. split; [exact F1|].
  split; [exact F2|]. split; [reflexivity|].
  set (v0 := nth (Z.to_nat (Qfloor i)) s 0) in *.
  set (v1 := nth (S (Z.to_nat (Qfloor i))) s 0) in *.
  set (f := inject_Z (Qfloor i)) in *.
  split; nra.
Qed.

Lemma quantile_monotone (s : list Q) (p1 p2 : Q) :
  StronglySorted Qle s -> (2 <= List.length s)%nat ->
  0 < p1 -> p1 <= p2 -> p2 < 1 ->
  exists q1 q2, D3.quantile s p1 = Some q1 /\ D3.quantile s p2 = Some q2 /\ q1 <= q2.
Proof.
  intros Hs Hn H0 H12 H1.
  assert (H1' : p1 < 1) by (eapply Qle_lt_trans; eauto).
  assert (H0' : 0 < p2) by (eapply Qlt_le_trans; eauto).
  destruct (quantile_between s p1 Hs Hn H0 H1')
    as [q1 [a [E1 [La [A0 [A1 [Q1 [B1 C1]]]]]]]].
  destruct (quantile_between s p2 Hs Hn H0' H1)
    as [q2 [b [E2 [Lb [A0' [A1' [Q2 [B2 C2]]]]]]]].
  exists q1, q2. split; [assumption|]. split; [assumption|].
  set (N := inject_Z (Z.of_nat (List.length s) - 1)) in *.
  assert (HN : 1 <= N).
  { unfold N. change 1 with (inject_Z 1). rewrite <- Zle_Qle. lia. }
  assert (M : N * p1 <= N * p2) by (clear - H12 HN; clearbody N; nra).
  assert (Hab : (a <= b)%nat).
  { assert (H : inject_Z (Z.of_nat a) < inject_Z (Z.of_nat b) + 1)
      by (eapply Qle_lt_trans; [exact A0 | eapply Qle_lt_trans; eauto]).
    change 1 with (inject_Z 1) in H. rewrite <- inject_Z_plus in H.
    rewrite <- Zlt_Qlt in H. lia. }
  destruct (Nat.eq_dec a b) as [<-|Hne].
  - rewrite Q1, Q2.
    assert (H : nth a s 0 <= nth (S a) s 0) by (apply sorted_nth; [assumption|lia]).
    clear - H M. clearbody N.
    set (v0 := nth a s 0) in *. set (v1 := nth (S a) s 0) in *.
    set (A := inject_Z (Z.of_nat a)) in *. nra.
  - apply Qle_trans with (nth (S a) s 0); [assumption|].
    apply Qle_trans with (nth b s 0); [|assumption].
    apply sorted_nth; [assumption | lia].
Qed.

Lemma ChartFeature_eqb_neq (f g : ChartFeature) :
  f <> g -> ChartFeature_eqb f g = false.
Proof. destruct f, g; simpl; congruence. Qed.

Lemma orNum_positive (q : Q) (b : option Q) : 0 < q -> Map.orNum (Some q) b = Some q.
Proof.
  intros H. unfold Map.orNum.
  destruct (Qeq_bool q 0) eqn:E; [|reflexivity].
  apply Qeq_bool_iff in E. rewrite E in H. now apply Qlt_irrefl in H.
Qed.

(** The 5th and the 95th percentile of positive values: both exist, are
    positive and in order. *)
Lemma percentiles (values : list Q) :
  values <> [] -> (forall v, In v values -> 0 < v) ->
  exists q05 q95,
    D3.quantile (sortNum values) (5 # 100) = Some q05
    /\ D3.quantile (sortNum values) (95 # 100) = Some q95
    /\ 0 < q05 /\ q05 <= q95.
Proof.
  intros Hne Hpos.
  set (s := sortNum values).
  assert (Hs : StronglySorted Qle s) by apply sortNum_sorted.
  assert (Hpos' : forall v, In v s -> 0 < v).
  { intros v Hv. apply Hpos. now apply In_sortNum. }
  assert (Hlen : (1 <= List.length s)%nat).
  { unfold s. rewrite length_sortNum. destruct values; [congruence | simpl; lia]. }
  destruct (le_lt_dec 2 (List.length s)) as [H2|H1].
  - destruct (quantile_monotone s (5 # 100) (95 # 100) Hs H2)
      as [q1 [q2 [E1 [E2 L]]]]; try reflexivity; try discriminate.
    exists q1, q2. repeat split; try assumption.
    destruct (quantile_between s (5 # 100) Hs H2)
      as [q [a [E [La [_ [_ [_ [B _]]]]]]]]; try reflexivity.
    rewrite E1 in E. injection E as <-.
    apply Qlt_le_trans with (nth a s 0); [|assumption].
    apply Hpos'. apply nth_In. lia.
  - assert (Hs1 : s <> []) by (destruct s; [simpl in Hlen; lia | discriminate]).
    destruct (min_spec s Hs1) as [m [E [I _]]].
    assert (Q : forall p, Qle_bool p 0 = false -> D3.quantile s p = Some m).
    { intros p Hp. unfold D3.quantile. rewrite Hp.
      destruct (Z.of_nat (List.length s) =? 0)%Z eqn:Z0;
        [apply Z.eqb_eq in Z0; lia|].
      assert ((Z.of_nat (List.length s) <? 2)%Z = true) as ->
          by (apply Z.ltb_lt; lia).
      exact E. }
    exists m, m. repeat split; try (apply Q; reflexivity).
    + now apply Hpos'.
    + apply Qle_refl.
Qed.

(** A clamped scale hands its interpolator 0 for everything at or below
    its domain, 1 for everything at or above; one half for everything when
    the domain is a single point. *)
Lemma param_clamped (a b : Q) :
  a <= b ->
  let sc := {| D3.domain := (Some a, Some b); D3.clamp := true |} in
  (forall v, v <= a ->
     D3.param sc v = Some (if Qeq_bool a b then 1 # 2 else 0))
  /\ (forall v, b <= v ->
     D3.param sc v = Some (if Qeq_bool a b then 1 # 2 else 1)).
Proof.
  intros Hab sc. unfold D3.param, sc. cbn [D3.domain D3.clamp].
  destruct (Qeq_bool a b) eqn:E; [split; reflexivity|].
  assert (Hlt : a < b).
  { apply Qle_lt_or_eq in Hab. destruct Hab as [|Heq]; [assumption|].
    apply Qeq_bool_iff in Heq. congruence. }
  assert (Hd : 0 < 1 / (b - a)).
  { apply Qlt_shift_div_l; lra. }
  assert (Hone : (b - a) * (1 / (b - a)) == 1).
  { field. lra. }
  set (d := 1 / (b - a)) in *.
  split; intros v Hv; f_equal.
  - assert (T : (v - a) * d <= 0) by nra.
    unfold D3.qmin.
    assert (Qle_bool 1 ((v - a) * d) = false) as ->.
    { apply not_true_iff_false. rewrite Qle_bool_iff. lra. }
    unfold D3.qmax.
    now rewrite (proj2 (Qle_bool_iff _ _) T).
  - assert (T : 1 <= (v - a) * d) by nra.
    unfold D3.qmin. now rewrite (proj2 (Qle_bool_iff _ _) T).
Qed.

(** C5.  For a non-empty set of positive values of the selected feature:
    for life expectancy the scale's domain is the least and the greatest of
    the values, not clamped, and a value is coloured by its position
    between them; for every other feature the domain is the 5th and the
    95th percentile of the values, with clamping, so that every value at
    or below the 5th percentile gets one colour, that of the 5th
    percentile, which is the colour at the lower end of the interpolator,
    and every value at or above the 95th percentile gets the colour of the
    95th, the colour at the upper end (the colour at the middle for both
    when the two percentiles coincide). *)
Theorem colorScale_domain :
  forall (interpolate : string -> string -> option Q -> string)
         (values : list Q),
    values <> [] -> (forall v, In v values -> 0 < v) ->
    (exists lo hi,
        Map.colorScale LifeExpectancy values
        = {| D3.domain := (Some lo, Some hi); D3.clamp := false |}
        /\ In lo values /\ In hi values
        /\ (forall v, In v values -> lo <= v /\ v <= hi)
        /\ (forall v, Qeq_bool lo hi = false ->
              Map.fill interpolate (Map.colorScale LifeExpectancy values) v
              = Map.customInterpolator interpolate
                  (Some ((v - lo) * (1 / (hi - lo))))))
    /\ (forall feature, feature <> LifeExpectancy ->
        exists q05 q95,
          D3.quantile (sortNum values) (5 # 100) = Some q05
          /\ D3.quantile (sortNum values) (95 # 100) = Some q95
          /\ Map.colorScale feature values
             = {| D3.domain := (Some q05, Some q95); D3.clamp := true |}
          /\ (forall v, v <= q05 ->
                Map.fill interpolate (Map.colorScale feature values) v
                = Map.fill interpolate (Map.colorScale feature values) q05)
          /\ Map.fill interpolate (Map.colorScale feature values) q05
             = Map.customInterpolator interpolate
                 (Some (if Qeq_bool q05 q95 then 1 # 2 else 0))
          /\ (forall v, q95 <= v ->
                Map.fill interpolate (Map.colorScale feature values) v
                = Map.fill interpolate (Map.colorScale feature values) q95)
          /\ Map.fill interpolate (Map.colorScale feature values) q95
             = Map.customInterpolator interpolate
                 (Some (if Qeq_bool q05 q95 then 1 # 2 else 1))).
Proof.
  intros interpolate values Hne Hpos. split.
  - destruct (min_spec values Hne) as [lo [El [Il Ll]]].
    destruct (max_spec values Hne) as [hi [Eh [Ih Lh]]].
    exists lo, hi.
    assert (Esc : Map.colorScale LifeExpectancy values
                  = {| D3.domain := (Some lo, Some hi); D3.clamp := false |}).
    { unfold Map.colorScale, D3.extent. simpl. now rewrite El, Eh. }
    split; [exact Esc|]. split; [exact Il|]. split; [exact Ih|].
    split; [intros v Hv; split; auto|].
    intros v N. rewrite Esc. unfold Map.fill, D3.param.
    cbn [D3.domain D3.clamp]. now rewrite N.
  - intros feature Hf.
    destruct (percentiles values Hne Hpos) as [q05 [q95 [E1 [E2 [P L]]]]].
    exists q05, q95. split; [assumption|]. split; [assumption|].
    assert (Esc : Map.colorScale feature values
                  = {| D3.domain := (Some q05, Some q95); D3.clamp := true |}).
    { unfold Map.colorScale. rewrite (ChartFeature_eqb_neq _ _ Hf), E1, E2.
      rewrite !orNum_positive; [reflexivity | | assumption].
      eapply Qlt_le_trans; eauto. }
    split; [assumption|]. rewrite Esc.
    destruct (param_clamped q05 q95 L) as [Lo Hi].
    unfold Map.fill.
    split; [intros v Hv; now rewrite (Lo v Hv), (Lo q05 (Qle_refl q05))|].
    split; [now rewrite (Lo q05 (Qle_refl q05))|].
    split; [intros v Hv; now rewrite (Hi v Hv), (Hi q95 (Qle_refl q95))|].
    now rewrite (Hi q95 (Qle_refl q95)).
Qed.

(** GDP values with percentiles 100 and 900: 50 is filled like 100, with
    the colour at the lower end; 1000 like 900, with the colour at the
    upper end; life expectancies between 40 and 90. *)
Lemma colorScale_domain_witness :
  Map.fill twoTone (Map.colorScale GDP sampleGdp) 50
  = Map.fill twoTone (Map.colorScale GDP sampleGdp) 100
  /\ Map.fill twoTone (Map.colorScale GDP sampleGdp) 50 = "#EFF6FF"%string
  /\ Map.fill twoTone (Map.colorScale GDP sampleGdp) 1000
     = Map.fill twoTone (Map.colorScale GDP sampleGdp) 900
  /\ Map.fill twoTone (Map.colorScale GDP sampleGdp) 1000 = "#EA580C"%string
  /\ exists lo hi,
      Map.colorScale LifeExpectancy [40; 90; 62]
      = {| D3.domain := (Some lo, Some hi); D3.clamp := false |}
      /\ lo == 40 /\ hi == 90.
Proof.
  assert (Hne : sampleGdp <> []) by discriminate.
  assert (Hpos : forall v, In v sampleGdp -> 0 < v).
  { intros v H. simpl in H.
    repeat (destruct H as [<-|H]; [reflexivity|]). contradiction. }
  destruct (colorScale_domain twoTone sampleGdp Hne Hpos) as [_ H].
  destruct (H GDP) as [q05 [q95 [E1 [E2 [_ [Lo [Lc [Hi Hc]]]]]]]];
    [discriminate|].
  vm_compute in E1. injection E1 as <-.
  vm_compute in E2. injection E2 as <-.
  split; [|split; [|split; [|split]]].
  - rewrite (Lo 50), (Lo 100); [reflexivity | |]; unfold Qle; simpl; lia.
  - rewrite (Lo 50); [rewrite Lc; reflexivity | unfold Qle; simpl; lia].
  - rewrite (Hi 1000), (Hi 900); [reflexivity | |]; unfold Qle; simpl; lia.
  - rewrite (Hi 1000); [rewrite Hc; reflexivity | unfold Qle; simpl; lia].
  - assert (Hne' : [40; 90; 62] <> []) by discriminate.
    assert (Hpos' : forall v, In v [40; 90; 62] -> 0 < v).
    { intros v H'. simpl in H'.
      repeat (destruct H' as [<-|H']; [reflexivity|]). contradiction. }
    destruct (colorScale_domain twoTone [40; 90; 62] Hne' Hpos') as [L _].
    destruct L as [lo [hi [E [Il [Ih [B _]]]]]].
    exists lo, hi. split; [exact E|].
    vm_compute in E. injection E as <- <-. split; reflexivity.
Defined.

End ColorScaleFacts.

(** ** Regression and correlation *)

Section RegressionFacts.

Import Regression Statistics.
Local Open Scope R_scope.



















End RegressionFacts.

(** ** Regression and correlation in double precision *)

Section Regression64Facts.

Import Regression64.
Local Open Scope Q_scope.









End Regression64Facts.

Section RegressionClaim.

Import Statistics.
Local Open Scope R_scope.




End RegressionClaim.

(** * Further properties *)

(** ** The read side of the data service *)

Section GetterFacts.

Import NumArray JS DataService Getters.

Lemma valid_spec (v : number) :
  valid v = true <-> v <> NaN /\ positive v = true.
Proof.
  unfold valid. rewrite andb_true_iff, negb_true_iff.
  destruct v; simpl; intuition congruence.
Qed.

(** A falsy cell never yields a usable number. *)
Lemma falsy_cell_invalid (v : value) :
  truthy v = false -> valid (parseNumericValue v) = false.
Proof.
  destruct v as [| |n|s]; simpl; try reflexivity.
  - rewrite negb_false_iff. destruct n as [|q|b]; simpl; try discriminate.
    + reflexivity.
    + intros E. unfold valid. simpl. unfold Qltb.
      apply Qeq_bool_iff in E.
      assert (Qle_bool q 0 = true) as -> by (apply Qle_bool_iff; rewrite E; apply Qle_refl).
      reflexivity.
  - rewrite negb_false_iff. intros E. apply String.eqb_eq in E. subst s.
    reflexivity.
Qed.

(** X1.  [getNumericValues(feature)] returns the parsed cells of the
    loaded rows that are not [NaN] and are positive, in the order of the
    rows and as often as they occur (an empty table gives an empty
    result): a value is returned if and only if some row's cell parses to
    it and it passes the test, so every returned value is a positive
    number, the second filter the map applies to the result
    ([v > 0 && !isNaN(v)]) keeps all of it, a row whose cell is missing,
    empty or zero contributes nothing, and there are never more values
    than rows. *)
Theorem getNumericValues_usable :
  forall (s : Service) (feature : ChartFeature),
    getNumericValues s feature
    = filter valid (map (fun d => cell d feature) (csvData s))
    /\ (forall v, In v (getNumericValues s feature) <->
               valid v = true /\ exists d, In d (csvData s) /\ cell d feature = v)
    /\ (forall v, In v (getNumericValues s feature) ->
                  v <> NaN /\ positive v = true)
    /\ filter (fun v => positive v && negb (isNaN v)) (getNumericValues s feature)
       = getNumericValues s feature
    /\ (forall d, In d (csvData s) ->
          truthy (or (get d (FIELD_MAP feature)) (get d (featureName feature))) = false ->
          valid (cell d feature) = false)
    /\ (List.length (getNumericValues s feature) <= List.length (csvData s))%nat.
Proof.
  intros s feature.
  assert (M : forall v, In v (getNumericValues s feature) <->
               valid v = true /\ exists d, In d (csvData s) /\ cell d feature = v).
  { intros v. unfold getNumericValues.
    destruct (csvData s) as [|d0 t] eqn:E.
    - simpl. split; [tauto | intros [_ [d [[] _]]]].
    - cbn [List.length Nat.eqb]. rewrite filter_In, in_map_iff. split.
      + intros [[d [Hd Hin]] V]. split; [assumption|]. now exists d.
      + intros [V [d [Hin Hd]]]. split; [now exists d | assumption]. }
  split.
  { unfold getNumericValues. now destruct (csvData s). }
  split; [exact M|]. split; [|split; [|split]].
  - intros v H. apply M in H. now apply valid_spec.
  - apply forallb_filter_id. apply forallb_forall. intros v H.
    apply M in H. destruct H as [V _]. apply valid_spec in V.
    destruct V as [N P]. rewrite P. destruct v; simpl; congruence.
  - intros d _ F. unfold cell. now apply falsy_cell_invalid.
  - unfold getNumericValues. destruct (csvData s) as [|d0 t]; [simpl; lia|].
    cbn [List.length Nat.eqb].
    etransitivity; [apply filter_length_le|]. now rewrite length_map.
Qed.

Lemma ChartFeature_eqb_eq (a b : ChartFeature) :
  ChartFeature_eqb a b = true <-> a = b.
Proof. destruct a, b; simpl; split; congruence. Qed.

Lemma field_setField_same col v fields :
  field (setField col v fields) col = Some v.
Proof.
  induction fields as [|[c w] r IH]; simpl.
  - now rewrite (proj2 (ChartFeature_eqb_eq col col) eq_refl).
  - destruct (ChartFeature_eqb c col) eqn:E; simpl; rewrite E; [reflexivity | exact IH].
Qed.

Lemma field_setField_other col col' v fields :
  col' <> col -> field (setField col v fields) col' = field fields col'.
Proof.
  intros N. induction fields as [|[c w] r IH]; simpl.
  - destruct (ChartFeature_eqb col col') eqn:E; [|reflexivity].
    apply ChartFeature_eqb_eq in E. congruence.
  - destruct (ChartFeature_eqb c col) eqn:E; simpl.
    + apply ChartFeature_eqb_eq in E. subst c.
      destruct (ChartFeature_eqb col col') eqn:E'; [|reflexivity].
      apply ChartFeature_eqb_eq in E'. congruence.
    + destruct (ChartFeature_eqb c col'); [reflexivity | exact IH].
Qed.

(** After the assignments of [columns.forEach], every requested column
    holds the parsed cell of the row. *)
Lemma fields_fold (d : Row) (columns : list ChartFeature) :
  forall fields col,
    field (fold_left (fun fs c => setField c (cell d c) fs) columns fields) col
    = if existsb (ChartFeature_eqb col) columns then Some (cell d col)
      else field fields col.
Proof.
  induction columns as [|c cs IH]; intros fields col; [reflexivity|].
  simpl. rewrite IH.
  destruct (existsb (ChartFeature_eqb col) cs); [now rewrite orb_true_r|].
  rewrite orb_false_r.
  destruct (ChartFeature_eqb col c) eqn:E.
  - apply ChartFeature_eqb_eq in E. subst c. apply field_setField_same.
  - apply field_setField_other. intros F. subst c.
    rewrite (proj2 (ChartFeature_eqb_eq col col) eq_refl) in E. discriminate.
Qed.

Lemma fields_assigned (d : Row) (columns : list ChartFeature) (col : ChartFeature) :
  In col columns ->
  field (fold_left (fun fs c => setField c (cell d c) fs) columns []) col
  = Some (cell d col).
Proof.
  intros H. rewrite fields_fold.
  assert (existsb (ChartFeature_eqb col) columns = true) as ->; [|reflexivity].
  apply existsb_exists. exists col. split; [assumption|].
  now apply ChartFeature_eqb_eq.
Qed.

(** The record [getValidDataForPCP] builds for a row. *)
Lemma pcp_member (s : Service) (columns : list ChartFeature) (r : PcpDatum) :
  In r (getValidDataForPCP s columns) <->
  exists d, In d (csvData s)
            /\ r = {| pCountry := countryOf d; pOriginalData := d;
                      pFields := fold_left (fun fs c => setField c (cell d c) fs)
                                           columns [] |}
            /\ forall col, In col columns -> valid (cell d col) = true.
Proof.
  unfold getValidDataForPCP.
  destruct (csvData s) as [|d0 t] eqn:E.
  - simpl. split; [tauto | intros [d [[] _]]].
  - cbn [List.length Nat.eqb]. rewrite filter_In, in_map_iff, forallb_forall.
    split.
    + intros [[d [Hd Hin]] V]. exists d. split; [assumption|].
      split; [now symmetry|]. intros col Hc. specialize (V col Hc).
      unfold validField in V. rewrite <- Hd in V. cbn [pFields] in V.
      now rewrite (fields_assigned d columns col Hc) in V.
    + intros [d [Hin [Hr V]]]. split; [exists d; split; [now symmetry | assumption]|].
      intros col Hc. unfold validField. rewrite Hr. cbn [pFields].
      rewrite (fields_assigned d columns col Hc). now apply V.
Qed.

(** X3.  [getValidDataForPCP(columns)] keeps exactly the complete rows: each
    record comes from a loaded row and holds, for every requested column,
    that row's parsed cell, positive and not [NaN]; every row that is
    usable in all requested columns has its record; a row with one unusable
    column has none. *)
Theorem getValidDataForPCP_complete_rows :
  forall (s : Service) (columns : list ChartFeature),
    (forall r, In r (getValidDataForPCP s columns) ->
       In (pOriginalData r) (csvData s)
       /\ pCountry r = countryOf (pOriginalData r)
       /\ forall col, In col columns ->
             exists v, field (pFields r) col = Some v
                       /\ v = cell (pOriginalData r) col
                       /\ v <> NaN /\ positive v = true)
    /\ (forall d, In d (csvData s) ->
          (forall col, In col columns -> valid (cell d col) = true) ->
          exists r, In r (getValidDataForPCP s columns) /\ pOriginalData r = d)
    /\ (forall d col, In d (csvData s) -> In col columns ->
          valid (cell d col) = false ->
          forall r, In r (getValidDataForPCP s columns) -> pOriginalData r <> d).
Proof.
  intros s columns. split; [|split].
  - intros r H. apply pcp_member in H. destruct H as [d [Hin [-> V]]].
    cbn [pOriginalData pCountry pFields]. split; [assumption|]. split; [reflexivity|].
    intros col Hc. exists (cell d col).
    split; [now apply fields_assigned|]. split; [reflexivity|].
    apply valid_spec. now apply V.
  - intros d Hin V. eexists. split; [apply pcp_member; exists d; eauto|].
    reflexivity.
  - intros d col Hin Hc F r H E. apply pcp_member in H.
    destruct H as [d' [_ [-> V]]]. cbn [pOriginalData] in E. subst d'.
    rewrite (V col Hc) in F. discriminate.
Qed.

(** The country label of a record is never falsy. *)
Lemma countryOf_truthy (d : Row) : truthy (countryOf d) = true.
Proof.
  unfold countryOf, or.
  destruct (truthy (get d "country")) eqn:A; [assumption|].
  destruct (truthy (get d "Country")) eqn:B; [assumption|].
  destruct (truthy (get d "NAME")) eqn:C; [assumption | reflexivity].
Qed.

Lemma scatter_member (s : Service) (xVar yVar : ChartFeature) (r : ScatterDatum) :
  In r (getValidDataForScatter s xVar yVar) <->
  exists d, In d (csvData s)
            /\ r = {| sCountry := countryOf d; sX := cell d xVar;
                      sY := cell d yVar; sOriginalData := d |}
            /\ valid (cell d xVar) = true /\ valid (cell d yVar) = true.
Proof.
  unfold getValidDataForScatter.
  destruct (csvData s) as [|d0 t] eqn:E.
  - simpl. split; [tauto | intros [d [[] _]]].
  - cbn [List.length Nat.eqb]. rewrite filter_In, in_map_iff. unfold valid.
    split.
    + intros [[d [Hd Hin]] V]. exists d. split; [assumption|].
      split; [now symmetry|]. rewrite <- Hd in V. cbn [sX sY] in V.
      rewrite !andb_true_iff in V. rewrite !andb_true_iff. tauto.
    + intros [d [Hin [-> [Vx Vy]]]]. split; [now exists d|]. cbn [sX sY].
      rewrite !andb_true_iff in *. tauto.
Qed.

(** X2.  Every record of [getValidDataForScatter(xVar, yVar)] comes from a
    loaded row, carries a truthy country label ('Unknown' at worst) and the
    row's two parsed cells, both positive and not [NaN]; and every loaded
    row whose two cells are usable has its record. *)
Theorem getValidDataForScatter_positive :
  forall (s : Service) (xVar yVar : ChartFeature),
    (forall r, In r (getValidDataForScatter s xVar yVar) ->
       In (sOriginalData r) (csvData s)
       /\ truthy (sCountry r) = true
       /\ sX r = cell (sOriginalData r) xVar /\ sY r = cell (sOriginalData r) yVar
       /\ sX r <> NaN /\ positive (sX r) = true
       /\ sY r <> NaN /\ positive (sY r) = true)
    /\ (forall d, In d (csvData s) ->
          valid (cell d xVar) = true -> valid (cell d yVar) = true ->
          exists r, In r (getValidDataForScatter s xVar yVar)
                    /\ sOriginalData r = d).
Proof.
  intros s xVar yVar. split.
  - intros r H. apply scatter_member in H.
    destruct H as [d [Hin [-> [Vx Vy]]]]. cbn [sOriginalData sCountry sX sY].
    apply valid_spec in Vx, Vy.
    repeat split; try tauto. apply countryOf_truthy.
  - intros d Hin Vx Vy. eexists. split; [apply scatter_member; exists d; eauto|].
    reflexivity.
Qed.

(** *** Looking a country up *)

Lemma sameValueZero_refl (a : value) : sameValueZero a a = true.
Proof.
  destruct a as [| |[|q|b]|s]; simpl; try reflexivity.
  - apply Qeq_bool_iff. reflexivity.
  - now destruct b.
  - apply String.eqb_refl.
Qed.

Lemma sameValueZero_sym (a b : value) : sameValueZero a b = sameValueZero b a.
Proof.
  destruct a as [| |[|p|m]|s], b as [| |[|q|n]|t]; simpl; try reflexivity.
  - destruct (Qeq_bool p q) eqn:E, (Qeq_bool q p) eqn:F; try reflexivity.
    + apply Qeq_bool_iff in E. symmetry in E. apply Qeq_bool_iff in E. congruence.
    + apply Qeq_bool_iff in F. symmetry in F. apply Qeq_bool_iff in F. congruence.
  - now destruct m, n.
  - apply String.eqb_sym.
Qed.

Lemma sameValueZero_trans (a b c : value) :
  sameValueZero a b = true -> sameValueZero b c = true -> sameValueZero a c = true.
Proof.
  destruct a as [| |[|p|m]|s], b as [| |[|q|n]|t], c as [| |[|r|o]|u];
    simpl; try congruence.
  - rewrite !Qeq_bool_iff. intros E F. now rewrite E.
  - destruct m, n, o; simpl; congruence.
  - rewrite !String.eqb_eq. congruence.
Qed.

(** [get] after [set]: the key set is found with the new value, every
    other key as before. *)
Lemma mapGet_mapSet (key key' : value) (v : Row) (m : list (value * Row)) :
  mapGet key' (mapSet key v m)
  = if sameValueZero key key' then Some v else mapGet key' m.
Proof.
  induction m as [|[k w] r IH]; simpl.
  - reflexivity.
  - destruct (sameValueZero k key) eqn:E; simpl.
    + destruct (sameValueZero k key') eqn:F.
      * assert (sameValueZero key key' = true) as ->; [|reflexivity].
        apply sameValueZero_trans with k; [|assumption].
        now rewrite sameValueZero_sym.
      * assert (sameValueZero key key' = false) as ->; [|reflexivity].
        apply not_true_iff_false. intros G. apply not_true_iff_false in F.
        apply F. now apply sameValueZero_trans with key.
    + destruct (sameValueZero k key') eqn:F; [|exact IH].
      assert (sameValueZero key key' = false) as ->; [|reflexivity].
      apply not_true_iff_false. intros G. apply not_true_iff_false in E.
      apply E. apply sameValueZero_trans with key'; [assumption|].
      now rewrite sameValueZero_sym.
Qed.

Lemma addApiRow_spec (m : list (value * Row)) (d : Row) :
  addApiRow m d = if truthy (apiName d) then mapSet (apiName d) (apiRecord d) m else m.
Proof. reflexivity. Qed.

Lemma addCsvRow_spec (m : list (value * Row)) (d : Row) :
  addCsvRow m d = if truthy (csvName d) then mapSet (csvName d) d m else m.
Proof. reflexivity. Qed.

(** X4.  [getCountryData] after a load: with no rows nothing is found; after
    the rows [rows ++ [d]], a name that the last row [d] carries finds the
    record made from [d] (the five-field record for an API row, the row
    itself for a CSV row), whatever earlier rows said, and any other name
    finds what it finds after [rows] alone. *)
Theorem getCountryData_last_row_wins :
  forall (s : Service) (geo : GeoResponse) (files : GeoJson)
         (rows : list Row) (d : Row) (countryName : value),
    let fromApi countries := fst (tryApi (ApiBodies geo countries) s) in
    let fromFiles csv :=
      fst (_loadFallbackData (FilesLoaded files (Some csv)) s) in
    getCountryData (fromApi []) countryName = None
    /\ getCountryData (fromApi (rows ++ [d])) countryName
       = (if truthy (apiName d) && sameValueZero (apiName d) countryName
          then Some (apiRecord d)
          else getCountryData (fromApi rows) countryName)
    /\ getCountryData (fromFiles []) countryName = None
    /\ getCountryData (fromFiles (rows ++ [d])) countryName
       = (if truthy (csvName d) && sameValueZero (csvName d) countryName
          then Some d
          else getCountryData (fromFiles rows) countryName).
Proof.
  intros s geo files rows d countryName fromApi fromFiles.
  split; [reflexivity|]. split; [|split; [reflexivity|]].
  - unfold fromApi, getCountryData. cbn [tryApi fst worldData].
    rewrite fold_left_app. cbn [fold_left]. rewrite addApiRow_spec.
    destruct (truthy (apiName d)); [|reflexivity].
    rewrite mapGet_mapSet. reflexivity.
  - unfold fromFiles, getCountryData. cbn [_loadFallbackData fst worldData].
    rewrite fold_left_app. cbn [fold_left]. rewrite addCsvRow_spec.
    destruct (truthy (csvName d)); [|reflexivity].
    rewrite mapGet_mapSet. reflexivity.
Qed.

(** *** Validating a table *)

(** A cell with a zero default never parses to [NaN]. *)
Lemma defaulted_cell_not_NaN (a b : value) :
  parseNumericValue (or a (or b (Number (Num 0)))) <> NaN.
Proof.
  assert (T : forall v, truthy v = true -> parseNumericValue v <> NaN).
  { intros [| |n|s]; simpl; try discriminate.
    - rewrite negb_true_iff. destruct n; simpl; congruence.
    - intros _. apply orZero_not_NaN. }
  unfold or at 1. destruct (truthy a) eqn:A; [now apply T|].
  unfold or. destruct (truthy b) eqn:B; [now apply T|].
  simpl. discriminate.
Qed.

(** X5.  [validateCountryData] returns only records with a non-empty
    country name taken from an object of the input, and none of their four
    numbers is [NaN]; every object of the input whose [Country || country]
    is a non-empty string gets a record; nothing is added. *)
Theorem validateCountryData_clean :
  forall (data : list Item),
    (forall c, In c (validateCountryData data) ->
       cCountry c <> ""%string
       /\ cCo2Emissions c <> NaN /\ cGDP c <> NaN
       /\ cPopulation c <> NaN /\ cLifeExpectancy c <> NaN
       /\ exists r, In (Object r) data
                    /\ or (get r "Country") (get r "country") = Str (cCountry c))
    /\ (forall r name, In (Object r) data ->
          or (get r "Country") (get r "country") = Str name -> name <> ""%string ->
          exists c, In c (validateCountryData data) /\ cCountry c = name)
    /\ (List.length (validateCountryData data) <= List.length data)%nat.
Proof.
  intros data. split; [|split].
  - intros c H. unfold validateCountryData in H. apply in_flat_map in H.
    destruct H as [[|r] [Hin Hc]]; [contradiction|]. unfold validated in Hc.
    destruct (or (get r "Country") (get r "country")) as [| |n|name] eqn:E;
      try contradiction.
    destruct (truthy (Str name)) eqn:T; [|contradiction].
    destruct Hc as [<-|[]]. cbn [cCountry cCo2Emissions cGDP cPopulation cLifeExpectancy].
    split.
    { simpl in T. rewrite negb_true_iff in T. now apply String.eqb_neq in T. }
    repeat split; try apply defaulted_cell_not_NaN.
    exists r. split; assumption.
  - intros r name Hin E N. unfold validateCountryData.
    eexists. split.
    + apply in_flat_map. exists (Object r). split; [assumption|].
      unfold validated. rewrite E. simpl. apply String.eqb_neq in N. rewrite N. simpl.
      left. reflexivity.
    + reflexivity.
  - unfold validateCountryData. induction data as [|item t IH]; simpl; [lia|].
    rewrite length_app.
    assert (List.length (validated item) <= 1)%nat; [|lia].
    destruct item as [|r]; [simpl; lia|]. unfold validated.
    destruct (or (get r "Country") (get r "country")); simpl; try lia.
    destruct (negb (s =? "")%string); simpl; lia.
Qed.

End GetterFacts.

(** ** Loading, caching and retrying *)

Section CacheFacts.

Import NumArray JS DataService Getters.

Lemma mapSet_nonempty key v m : mapSet key v m <> [].
Proof.
  destruct m as [|[k w] r]; simpl; [discriminate|].
  destruct (sameValueZero k key); discriminate.
Qed.

(** Rows go into [worldData] under their names; the map is empty exactly
    when no row has a name. *)
Lemma fold_rows_empty (name : Row -> value) (record : Row -> Row)
      (rows : list Row) :
  forall m,
    fold_left (fun m d => if truthy (name d) then mapSet (name d) (record d) m else m)
              rows m = []
    <-> m = [] /\ existsb (fun d => truthy (name d)) rows = false.
Proof.
  induction rows as [|d t IH]; intros m; simpl; [tauto|].
  rewrite IH. destruct (truthy (name d)) eqn:T; simpl.
  - split; [intros [E _]; now apply mapSet_nonempty in E | intros [_ F]; discriminate].
  - tauto.
Qed.

Lemma isLoaded_after_api (s : Service) (geo : GeoResponse) (rows : list Row) :
  isLoaded (fst (tryApi (ApiBodies geo rows) s))
  = existsb (fun d => truthy (apiName d)) rows && geoTruthy (geoOf geo).
Proof.
  unfold isLoaded. cbn [tryApi fst worldData csvData geoData].
  fold (geoOf geo). fold (geoTruthy (geoOf geo)).
  destruct (existsb (fun d => truthy (apiName d)) rows) eqn:E.
  - assert (W : fold_left addApiRow rows [] <> []).
    { intros F. apply (fold_rows_empty apiName apiRecord rows []) in F.
      destruct F as [_ F]. congruence. }
    assert (R : rows <> []) by (intros ->; discriminate).
    destruct (fold_left addApiRow rows []); [congruence|].
    destruct rows; [congruence|]. reflexivity.
  - assert (W : fold_left addApiRow rows [] = []).
    { apply (fold_rows_empty apiName apiRecord rows []). now split. }
    rewrite W. reflexivity.
Qed.

Lemma isLoaded_after_files (s : Service) (geo : GeoJson) (csv : option (list Row)) :
  isLoaded (fst (_loadFallbackData (FilesLoaded geo csv) s))
  = existsb (fun d => truthy (csvName d))
            (match csv with Some rows => rows | None => [] end)
    && geoTruthy geo.
Proof.
  unfold isLoaded. cbn [_loadFallbackData fst worldData csvData geoData].
  fold (geoTruthy geo).
  set (rows := match csv with Some rows => rows | None => [] end).
  destruct (existsb (fun d => truthy (csvName d)) rows) eqn:E.
  - assert (W : fold_left addCsvRow rows [] <> []).
    { intros F. apply (fold_rows_empty csvName (fun d => d) rows []) in F.
      destruct F as [_ F]. congruence. }
    assert (R : rows <> []) by (intros F; rewrite F in E; discriminate).
    destruct (fold_left addCsvRow rows []); [congruence|].
    destruct rows; [congruence|]. reflexivity.
  - assert (W : fold_left addCsvRow rows [] = []).
    { apply (fold_rows_empty csvName (fun d => d) rows []). now split. }
    rewrite W. reflexivity.
Qed.

Lemma run_app (es1 es2 : list Event) :
  forall w,
    run w (es1 ++ es2)
    = match run w es1 with
      | Some (w1, r1) =>
          match run w1 es2 with
          | Some (w2, r2) => Some (w2, r1 ++ r2)
          | None => None
          end
      | None => None
      end.
Proof.
  induction es1 as [|e es IH]; intros w; simpl.
  - destruct (run w es2) as [[w2 r2]|]; reflexivity.
  - destruct (step w e) as [[w1 r1]|]; [|reflexivity].
    rewrite IH. destruct (run w1 es) as [[w2 r2]|]; [|reflexivity].
    destruct (run w2 es2) as [[w3 r3]|]; [|reflexivity].
    now rewrite app_assoc.
Qed.

Lemma calls_on_loaded (w : World) (n : nat) :
  isLoaded (service w) = true ->
  run w (repeat Call n) = Some (w, repeat Immediately n).
Proof.
  intros L. induction n as [|n IH]; simpl; [reflexivity|].
  unfold loadAllData. rewrite L. rewrite IH. reflexivity.
Qed.

(** One load on an idle service whose API requests deliver [geo] and
    [rows]: the world after the call, the settlement and the caller's
    [finally]. *)
Lemma api_load (w : World) (geo : GeoResponse) (rows : list Row) :
  isLoaded (service w) = false -> loading (service w) = false ->
  let p := List.length (promises w) in
  exists w',
    run w [Call; ApiSettles p (ApiBodies geo rows); Resume p]
    = Some (w', [Follows p])
    /\ service w' = {| worldData := fold_left addApiRow rows [];
                       csvData := rows;
                       geoData := geoOf geo;
                       loading := false;
                       loadPromise := Some p |}
    /\ requests w' = requests w ++ [ApiGeojson; ApiCountries]
    /\ promises w' = promises w ++ [Settled Resolved].
Proof.
  intros L B p. subst p. cbn [run step]. rewrite (loadAllData_starts w L B).
  unfold apiSettles. cbn [promises service requests suspended tryApi].
  rewrite nth_error_fresh. cbn [option_map].
  unfold resume. cbn [promises service requests suspended].
  rewrite setPhase_fresh, nth_error_fresh.
  rewrite existsb_app. cbn [existsb]. rewrite Nat.eqb_refl, orb_true_r.
  cbn [orb option_map]. eexists. split; [reflexivity|].
  cbn [service requests promises worldData csvData geoData loadPromise loading].
  split; [reflexivity|]. split; reflexivity.
Qed.

(** The same when the API fails and the static files deliver [geo] and
    [csv]. *)
Lemma files_load (w : World) (api : ApiOutcome) (e : Error)
      (geo : GeoJson) (csv : option (list Row)) :
  isLoaded (service w) = false -> loading (service w) = false ->
  primaryError api = Some e ->
  let p := List.length (promises w) in
  let rows := match csv with Some rows => rows | None => [] end in
  exists w',
    run w [Call; ApiSettles p api; FilesSettle p (FilesLoaded geo csv); Resume p]
    = Some (w', [Follows p])
    /\ service w' = {| worldData := fold_left addCsvRow rows [];
                       csvData := rows;
                       geoData := geo;
                       loading := false;
                       loadPromise := Some p |}
    /\ requests w'
       = requests w ++ [ApiGeojson; ApiCountries; FileGeojson; FileCsv]
    /\ promises w' = promises w ++ [Settled Resolved].
Proof.
  intros L B E p rows. subst p rows. cbn [run step]. rewrite (loadAllData_starts w L B).
  unfold apiSettles. cbn [promises service requests suspended].
  rewrite nth_error_fresh.
  rewrite (tryApi_failure api e _ E). cbn [option_map].
  unfold filesSettle. cbn [promises service requests suspended].
  rewrite setPhase_fresh, nth_error_fresh.
  cbn [_loadFallbackData option_map].
  unfold resume. cbn [promises service requests suspended].
  rewrite setPhase_fresh, nth_error_fresh.
  rewrite existsb_app. cbn [existsb]. rewrite Nat.eqb_refl, orb_true_r.
  cbn [orb option_map]. eexists. split; [reflexivity|].
  cbn [service requests promises worldData csvData geoData loadPromise loading].
  rewrite <- app_assoc.
  split; [reflexivity|]. split; reflexivity.
Qed.

(** The same when both sources fail. *)
Lemma failed_load (w : World) (api : ApiOutcome) (e1 e2 : Error) :
  isLoaded (service w) = false -> loading (service w) = false ->
  primaryError api = Some e1 ->
  let p := List.length (promises w) in
  exists w',
    run w [Call; ApiSettles p api; FilesSettle p (FilesRejected e2); Resume p]
    = Some (w', [Follows p])
    /\ service w' = {| worldData := worldData (service w);
                       csvData := csvData (service w);
                       geoData := geoData (service w);
                       loading := false;
                       loadPromise := Some p |}
    /\ requests w'
       = requests w ++ [ApiGeojson; ApiCountries; FileGeojson; FileCsv]
    /\ promises w' = promises w ++ [Settled (Rejected e2)].
Proof.
  intros L B E p. subst p. cbn [run step]. rewrite (loadAllData_starts w L B).
  unfold apiSettles. cbn [promises service requests suspended].
  rewrite nth_error_fresh.
  rewrite (tryApi_failure api e1 _ E). cbn [option_map].
  unfold filesSettle. cbn [promises service requests suspended].
  rewrite setPhase_fresh, nth_error_fresh.
  cbn [_loadFallbackData option_map].
  unfold resume. cbn [promises service requests suspended].
  rewrite setPhase_fresh, nth_error_fresh.
  rewrite existsb_app. cbn [existsb]. rewrite Nat.eqb_refl, orb_true_r.
  cbn [orb option_map]. eexists. split; [reflexivity|].
  cbn [service requests promises worldData csvData geoData loadPromise loading].
  rewrite <- app_assoc.
  split; [reflexivity|]. split; reflexivity.
Qed.

(** X6.  On an idle service, a load whose API requests deliver a geometry
    and a country table with at least one named row resolves, leaves the
    service loaded with the table as [csvData], and costs one pair of API
    requests; any number of further [loadAllData] calls then return at
    once and issue no request. *)
Theorem api_load_is_cached :
  forall (w : World) (geo : GeoResponse) (rows : list Row) (n : nat),
    isLoaded (service w) = false -> loading (service w) = false ->
    existsb (fun d => truthy (apiName d)) rows = true ->
    geoTruthy (geoOf geo) = true ->
    let p := List.length (promises w) in
    exists w',
      run w ([Call; ApiSettles p (ApiBodies geo rows); Resume p] ++ repeat Call n)
      = Some (w', Follows p :: repeat Immediately n)
      /\ outcome w' (Follows p) = Some Resolved
      /\ isLoaded (service w') = true
      /\ csvData (service w') = rows
      /\ requests w' = requests w ++ [ApiGeojson; ApiCountries].
Proof.
  intros w geo rows n L B N G p.
  destruct (api_load w geo rows L B) as [w' [R [Sv [Q P]]]]. fold p in R.
  assert (L' : isLoaded (service w') = true).
  { rewrite Sv. pose proof (isLoaded_after_api (service w) geo rows) as I.
    rewrite N, G in I. exact I. }
  exists w'. rewrite run_app, R, (calls_on_loaded w' n L').
  split; [reflexivity|]. split.
  - unfold outcome. rewrite P. unfold p. now rewrite nth_error_fresh.
  - split; [exact L'|]. split; [now rewrite Sv | exact Q].
Qed.

Lemma api_load_is_cached_witness :
  exists w',
    run initial
        ([Call;
          ApiSettles 0 (ApiBodies (FeatureArray [named "Canada"]) sampleRows);
          Resume 0] ++ repeat Call 2)
    = Some (w', [Follows 0; Immediately; Immediately])
    /\ requests w' = [ApiGeojson; ApiCountries].
Proof.
  destruct (api_load_is_cached initial (FeatureArray [named "Canada"])
                               sampleRows 2 eq_refl eq_refl eq_refl eq_refl)
    as [w' [R [_ [_ [_ Q]]]]].
  exists w'. split; [exact R | exact Q].
Defined.


(** X8.  When the API answers with a country table in which no row has a
    name (an empty table included), the load resolves but the service is
    not loaded: the next [loadAllData] call starts a new load and asks the
    API again. *)
Theorem nameless_api_table_is_fetched_again :
  forall (w : World) (geo : GeoResponse) (rows : list Row),
    isLoaded (service w) = false -> loading (service w) = false ->
    existsb (fun d => truthy (apiName d)) rows = false ->
    let p := List.length (promises w) in
    exists w',
      run w [Call; ApiSettles p (ApiBodies geo rows); Resume p; Call]
      = Some (w', [Follows p; Follows (S p)])
      /\ outcome w' (Follows p) = Some Resolved
      /\ isLoaded (service w') = false
      /\ requests w'
         = requests w ++ [ApiGeojson; ApiCountries; ApiGeojson; ApiCountries].
Proof.
  intros w geo rows L B N p.
  destruct (api_load w geo rows L B) as [w1 [R [Sv [Q P]]]]. fold p in R.
  assert (L1 : isLoaded (service w1) = false).
  { rewrite Sv. pose proof (isLoaded_after_api (service w) geo rows) as I.
    rewrite N in I. exact I. }
  assert (B1 : loading (service w1) = false) by now rewrite Sv.
  change [Call; ApiSettles p (ApiBodies geo rows); Resume p; Call]
    with ([Call; ApiSettles p (ApiBodies geo rows); Resume p] ++ [Call]).
  rewrite run_app, R. cbn [run step]. rewrite (loadAllData_starts w1 L1 B1).
  rewrite P, length_app. cbn [List.length]. rewrite Nat.add_1_r. fold p.
  eexists. split; [reflexivity|].
  cbn [service requests promises]. split; [|split].
  - unfold outcome. cbn [promises]. rewrite <- app_assoc.
    unfold p. now rewrite nth_error_app2, Nat.sub_diag by lia.
  - exact L1.
  - rewrite Q, <- app_assoc. reflexivity.
Qed.

Lemma nameless_api_table_is_fetched_again_witness :
  exists w',
    run initial
        [Call;
         ApiSettles 0 (ApiBodies (FeatureArray [named "Canada"])
                                 [[("gdp", Number (Num 100))]%string]);
         Resume 0; Call]
    = Some (w', [Follows 0; Follows 1])
    /\ requests w' = [ApiGeojson; ApiCountries; ApiGeojson; ApiCountries].
Proof.
  destruct (nameless_api_table_is_fetched_again
              initial (FeatureArray [named "Canada"])
              [[("gdp", Number (Num 100))]%string] eq_refl eq_refl eq_refl)
    as [w' [R [_ [_ Q]]]].
  exists w'. split; [exact R | exact Q].
Defined.


(** X9.  After a load that failed on both sources, the promise is rejected
    with the error of the static files, the data fields are as before,
    and the next [loadAllData] call does not hand back the rejected
    promise: it starts a new load, pending, with a new pair of API
    requests. *)
Theorem failed_load_can_be_retried :
  forall (w : World) (api : ApiOutcome) (e1 e2 : Error),
    isLoaded (service w) = false -> loading (service w) = false ->
    primaryError api = Some e1 ->
    let p := List.length (promises w) in
    exists w',
      run w [Call; ApiSettles p api; FilesSettle p (FilesRejected e2); Resume p;
             Call]
      = Some (w', [Follows p; Follows (S p)])
      /\ outcome w' (Follows p) = Some (Rejected e2)
      /\ outcome w' (Follows (S p)) = None
      /\ worldData (service w') = worldData (service w)
      /\ csvData (service w') = csvData (service w)
      /\ geoData (service w') = geoData (service w)
      /\ requests w'
         = requests w ++ [ApiGeojson; ApiCountries; FileGeojson; FileCsv;
                          ApiGeojson; ApiCountries].
Proof.
  intros w api e1 e2 L B E p.
  destruct (failed_load w api e1 e2 L B E) as [w1 [R [Sv [Q P]]]]. fold p in R.
  assert (L1 : isLoaded (service w1) = false) by (rewrite Sv; exact L).
  assert (B1 : loading (service w1) = false) by now rewrite Sv.
  change [Call; ApiSettles p api; FilesSettle p (FilesRejected e2); Resume p; Call]
    with ([Call; ApiSettles p api; FilesSettle p (FilesRejected e2); Resume p]
            ++ [Call]).
  rewrite run_app, R. cbn [run step]. rewrite (loadAllData_starts w1 L1 B1).
  rewrite P, length_app. cbn [List.length]. rewrite Nat.add_1_r. fold p.
  eexists. split; [reflexivity|].
  cbn [service requests promises worldData csvData geoData].
  split; [|split; [|split; [|split; [|split]]]].
  - unfold outcome. cbn [promises]. rewrite <- app_assoc.
    unfold p. now rewrite nth_error_app2, Nat.sub_diag by lia.
  - unfold outcome. cbn [promises].
    replace (S p) with (List.length (promises w ++ [Settled (Rejected e2)]))
      by (rewrite length_app; simpl; unfold p; lia).
    now rewrite nth_error_fresh.
  - now rewrite Sv.
  - now rewrite Sv.
  - now rewrite Sv.
  - rewrite Q, <- app_assoc. reflexivity.
Qed.

Lemma failed_load_can_be_retried_witness :
  exists w',
    run initial
        [Call; ApiSettles 0 ApiNotOk;
         FilesSettle 0 (FilesRejected "no such file"%string); Resume 0; Call]
    = Some (w', [Follows 0; Follows 1])
    /\ outcome w' (Follows 0) = Some (Rejected "no such file"%string)
    /\ outcome w' (Follows 1) = None.
Proof.
  destruct (failed_load_can_be_retried
              initial ApiNotOk "Failed to fetch data from API"%string
              "no such file"%string eq_refl eq_refl eq_refl)
    as [w' [R [O1 [O2 _]]]].
  exists w'. split; [exact R|]. split; [exact O1 | exact O2].
Defined.


(** X7.  On an idle service, when the API fails and the static files
    deliver a geometry and a CSV table with at least one named row, the
    load resolves with the CSV rows as [csvData] after the two API and the
    two file requests; any number of further [loadAllData] calls return at
    once and issue no request. *)
Theorem fallback_load_is_cached :
  forall (w : World) (api : ApiOutcome) (e : Error) (geo : GeoJson)
         (rows : list Row) (n : nat),
    isLoaded (service w) = false -> loading (service w) = false ->
    primaryError api = Some e ->
    existsb (fun d => truthy (csvName d)) rows = true ->
    geoTruthy geo = true ->
    let p := List.length (promises w) in
    exists w',
      run w ([Call; ApiSettles p api; FilesSettle p (FilesLoaded geo (Some rows));
              Resume p] ++ repeat Call n)
      = Some (w', Follows p :: repeat Immediately n)
      /\ outcome w' (Follows p) = Some Resolved
      /\ isLoaded (service w') = true
      /\ csvData (service w') = rows
      /\ requests w'
         = requests w ++ [ApiGeojson; ApiCountries; FileGeojson; FileCsv].
Proof.
  intros w api e geo rows n L B E N G p.
  destruct (files_load w api e geo (Some rows) L B E) as [w' [R [Sv [Q P]]]].
  fold p in R.
  assert (L' : isLoaded (service w') = true).
  { rewrite Sv.
    pose proof (isLoaded_after_files (service w) geo (Some rows)) as I.
    cbv beta iota in I. rewrite N, G in I. exact I. }
  exists w'. rewrite run_app, R, (calls_on_loaded w' n L').
  split; [reflexivity|]. split; [|split; [exact L'|split; [now rewrite Sv|]]].
  - unfold outcome. rewrite P. unfold p. now rewrite nth_error_fresh.
  - exact Q.
Qed.

Lemma fallback_load_is_cached_witness :
  exists w',
    run initial
        ([Call; ApiSettles 0 ApiNotOk;
          FilesSettle 0 (FilesLoaded (GeoObject None)
                                     (Some [[("Country", Str "Chile")]%string]));
          Resume 0] ++ repeat Call 3)
    = Some (w', [Follows 0; Immediately; Immediately; Immediately])
    /\ requests w' = [ApiGeojson; ApiCountries; FileGeojson; FileCsv].
Proof.
  destruct (fallback_load_is_cached
              initial ApiNotOk "Failed to fetch data from API"%string
              (GeoObject None) [[("Country", Str "Chile")]%string] 3
              eq_refl eq_refl eq_refl eq_refl eq_refl)
    as [w' [R [_ [_ [_ Q]]]]].
  exists w'. split; [exact R | exact Q].
Defined.

Lemma _loadData_result (api : ApiOutcome) (files : FilesOutcome) (s : Service) :
  snd (_loadData api files s)
  = match primaryError api, files with
    | None, _ => Resolved
    | Some _, FilesLoaded _ _ => Resolved
    | Some _, FilesRejected e => Rejected e
    end.
Proof.
  unfold _loadData, primaryError.
  destruct api; cbn [tryApi snd]; destruct files; reflexivity.
Qed.

(** A call that joins a load waiting for the API settles as that load
    does. *)
Lemma loadAll_joins__loadData (w : World) (p : nat) (api : ApiOutcome)
      (files : FilesOutcome) :
  isLoaded (service w) = false -> loading (service w) = true ->
  loadPromise (service w) = Some p ->
  nth_error (promises w) p = Some AwaitingApi ->
  loadAll api files w = Some (snd (_loadData api files (service w))).
Proof.
  intros L B P A. unfold loadAll. rewrite (loadAllData_joins w p L B P).
  unfold apiSettles, _loadData. rewrite A.
  destruct (tryApi api (service w)) as [s' [e|]]; cbn [promises snd].
  - rewrite nth_error_setPhase, Nat.eqb_refl, A. cbn [option_map].
    unfold filesSettle. cbn [promises service].
    rewrite nth_error_setPhase, Nat.eqb_refl, A. cbn [option_map].
    destruct (_loadFallbackData files s') as [s'' r]. cbn [snd].
    unfold outcome. cbn [promises].
    now rewrite nth_error_setPhase, Nat.eqb_refl, nth_error_setPhase,
      Nat.eqb_refl, A.
  - rewrite nth_error_setPhase, Nat.eqb_refl, A. cbn [option_map].
    unfold outcome. cbn [promises].
    now rewrite nth_error_setPhase, Nat.eqb_refl, A.
Qed.

(** X10.  [initializeData] of the application on a service that is not
    loaded, whether its call of [loadAllData] starts the load or, as when
    the views have called first, joins the load that waits for the API:
    when it is done the store is no longer loading, the selection and k
    are as before, and the error banner is set exactly when the API failed
    and the static files failed too; the text shown is then the fixed
    message, whatever the two errors were. *)
Theorem initializeData_reports_only_a_double_failure :
  forall (w : World) (api : ApiOutcome) (files : FilesOutcome)
         (s : AppStore.AppStore),
    isLoaded (service w) = false ->
    (loading (service w) = false
     \/ exists p, loading (service w) = true
                  /\ loadPromise (service w) = Some p
                  /\ nth_error (promises w) p = Some AwaitingApi) ->
    exists r,
      loadAll api files w = Some r
      /\ let s' := AppInit.initializeData r s in
         AppStore.isLoading s' = false
         /\ AppStore.selectedCountries s' = AppStore.selectedCountries s
         /\ AppStore.k s' = AppStore.k s
         /\ (AppStore.error s' = None <->
             primaryError api = None
             \/ exists geo csv, files = FilesLoaded geo csv)
         /\ (AppStore.error s' <> None ->
             AppStore.error s'
             = Some "Failed to load application data. Please refresh the page."%string
             /\ exists e1 e2, primaryError api = Some e1
                              /\ files = FilesRejected e2).
Proof.
  intros w api files s L State.
  assert (R : loadAll api files w
              = Some match primaryError api, files with
                     | None, _ => Resolved
                     | Some _, FilesLoaded _ _ => Resolved
                     | Some _, FilesRejected e => Rejected e
                     end).
  { destruct State as [B|[p [B [P A]]]].
    - rewrite (loadAll_follows__loadData w api files L B).
      now rewrite _loadData_result.
    - rewrite (loadAll_joins__loadData w p api files L B P A).
      now rewrite _loadData_result. }
  rewrite R. eexists. split; [reflexivity|].
  destruct (primaryError api) as [e1|] eqn:E.
  - destruct files as [e2|geo csv]; cbn.
    + split; [reflexivity|]. split; [reflexivity|]. split; [reflexivity|]. split.
      * split; [discriminate|]. intros [F|[geo [csv F]]]; discriminate.
      * intros _. split; [reflexivity|]. now exists e1, e2.
    + split; [reflexivity|]. split; [reflexivity|]. split; [reflexivity|]. split.
      * split; [intros _; right; now exists geo, csv | reflexivity].
      * intros F. congruence.
  - cbn. split; [reflexivity|]. split; [reflexivity|]. split; [reflexivity|]. split.
    + split; [intros _; now left | reflexivity].
    + intros F. congruence.
Qed.

(** The views have called first: the call of [initializeData] joins their
    load; the API answers with an error status and the files are
    missing. *)
Lemma initializeData_reports_only_a_double_failure_witness :
  exists r,
    loadAll ApiNotOk (FilesRejected "no such file"%string)
            (fst (loadAllData initial)) = Some r
    /\ AppStore.error (AppInit.initializeData r AppStore.initial)
       = Some "Failed to load application data. Please refresh the page."%string.
Proof.
  destruct (initializeData_reports_only_a_double_failure
              (fst (loadAllData initial)) ApiNotOk
              (FilesRejected "no such file"%string)
              AppStore.initial eq_refl)
    as [r [R [_ [_ [_ [N E]]]]]].
  - right. exists 0%nat. repeat split.
  - exists r. split; [exact R|].
    apply E. intros F. apply N in F.
    destruct F as [F|[geo [csv F]]]; discriminate.
Defined.

End CacheFacts.

(** ** Clicks on the bars and on the map *)

Section ClickFacts.

Import NumArray.

(** [indexOf] finds the first position that holds the value. *)
Lemma indexOf_found (l : list Q) :
  forall i d, nth_error l i = Some d ->
    exists j e,
      indexOf d l = Z.of_nat j /\ (j <= i)%nat
      /\ nth_error l j = Some e /\ (e == d)%Q
      /\ forall j' e', (j' < j)%nat -> nth_error l j' = Some e' -> ~ (e' == d)%Q.
Proof.
  induction l as [|h t IH]; intros i d Hd; [destruct i; discriminate|].
  simpl indexOf. destruct (Qeq_bool h d) eqn:E.
  - apply Qeq_bool_iff in E. exists 0%nat, h.
    split; [reflexivity|]. split; [lia|]. split; [reflexivity|].
    split; [assumption|]. intros j' e' Hj. lia.
  - destruct i as [|i].
    + simpl in Hd. injection Hd as ->.
      rewrite (proj2 (Qeq_bool_iff d d) (Qeq_refl d)) in E. discriminate.
    + simpl in Hd. destruct (IH i d Hd) as [j [e [Hi [Hle [Hn [He Hfirst]]]]]].
      exists (S j), e. rewrite Hi.
      destruct (Z.of_nat j <? 0) eqn:F; [apply Z.ltb_lt in F; lia|].
      split; [lia|]. split; [lia|]. split; [exact Hn|]. split; [exact He|].
      intros [|j'] e' Hj Hn'.
      * simpl in Hn'. injection Hn' as <-. intros Q.
        apply Qeq_bool_iff in Q. congruence.
      * simpl in Hn'. apply (Hfirst j' e'); [lia | assumption].
Qed.

Lemma filter_seq_single (f : nat -> bool) (j : nat) :
  forall start len,
    (start <= j < start + len)%nat ->
    (forall i, f i = true <-> i = j) ->
    filter f (seq start len) = [j].
Proof.
  intros start len. revert start.
  induction len as [|len IH]; intros start H Hf; [lia|].
  simpl. destruct (f start) eqn:E.
  - apply Hf in E. subst start. f_equal.
    clear IH H.
    assert (N : forall l, (forall i, In i l -> i <> j) -> filter f l = []).
    { induction l as [|a r IHr]; intros Hn; [reflexivity|]. simpl.
      destruct (f a) eqn:Fa.
      - apply Hf in Fa. exfalso. apply (Hn a); [now left | assumption].
      - apply IHr. intros i Hi. apply Hn. now right. }
    apply N. intros i Hi. apply in_seq in Hi. lia.
  - apply IH; [|assumption].
    assert (start <> j) by (intros ->; rewrite (proj2 (Hf j) eq_refl) in E; discriminate).
    lia.
Qed.

(** The k a click on bar [i] sets: one more than the first position that
    holds the value of bar [i]. *)
Lemma clickBar_k (validMseData : list Q) (i : nat) (d : Q)
      (s : AppStore.AppStore) :
  BarChart.datum validMseData i = Some d ->
  exists j e,
    AppStore.k (BarChart.clickBar validMseData i s) = Z.of_nat j + 1
    /\ (j <= i)%nat
    /\ BarChart.datum validMseData j = Some e /\ (e == d)%Q
    /\ forall j' e', (j' < j)%nat ->
          BarChart.datum validMseData j' = Some e' -> ~ (e' == d)%Q.
Proof.
  intros Hd. unfold BarChart.datum in *.
  destruct (indexOf_found validMseData i d Hd)
    as [j [e [Hi [Hle [Hn [He Hfirst]]]]]].
  exists j, e. split; [|auto].
  unfold BarChart.clickBar, BarChart.datum. rewrite Hd.
  unfold BarChart.onClick. simpl. now rewrite Hi.
Qed.

(** X11.  A click on bar [i] of the error chart sets k to the number of the
    first bar that shows the same value as bar [i]: k is between 1 and
    [i + 1], no earlier bar has that value, and after the click exactly
    that one bar is highlighted. *)
Theorem clickBar_selects_first_equal_bar :
  forall (validMseData : list Q) (i : nat) (d : Q) (s : AppStore.AppStore),
    BarChart.datum validMseData i = Some d ->
    let k' := AppStore.k (BarChart.clickBar validMseData i s) in
    1 <= k' <= Z.of_nat i + 1
    /\ exists j e,
        k' = Z.of_nat j + 1
        /\ BarChart.datum validMseData j = Some e /\ (e == d)%Q
        /\ (forall j' e', (j' < j)%nat ->
              BarChart.datum validMseData j' = Some e' -> ~ (e' == d)%Q)
        /\ BarChartView.highlights validMseData k' = [j].
Proof.
  intros validMseData i d s Hd k'.
  destruct (clickBar_k validMseData i d s Hd)
    as [j [e [K [Hle [Hn [He Hfirst]]]]]].
  fold k' in K.
  split; [lia|]. exists j, e.
  split; [exact K|]. split; [exact Hn|]. split; [exact He|].
  split; [exact Hfirst|].
  unfold BarChartView.highlights. apply filter_seq_single.
  - assert (nth_error validMseData j <> None)
      by (unfold BarChart.datum in Hn; congruence).
    apply nth_error_Some in H. lia.
  - intros i0. unfold BarChartView.highlighted. rewrite K, Z.eqb_eq. lia.
Qed.

Lemma clickBar_selects_first_equal_bar_witness :
  1 <= AppStore.k (BarChart.clickBar [5; 3; 5]%Q 2 AppStore.initial) <= 3.
Proof.
  destruct (clickBar_selects_first_equal_bar [5; 3; 5]%Q 2 5%Q
                                             AppStore.initial eq_refl)
    as [B _].
  exact B.
Defined.


(** No single action takes k below 1, a direct [setK] apart. *)
Lemma apply_keeps_k_positive (s : AppStore.AppStore) (a : App.Action) :
  1 <= AppStore.k s ->
  (forall k', a = App.SetK k' -> 1 <= k') ->
  1 <= AppStore.k (App.apply s a).
Proof.
  intros H Hk. destruct a; simpl; try assumption.
  - now apply Hk.
  - lia.
  - unfold Map.click. destruct (Map.mouseClick _ d); assumption.
  - unfold BarChart.clickBar.
    destruct (BarChart.datum validMseData i) as [d|] eqn:E; [|assumption].
    destruct (clickBar_k validMseData i d s E) as [j [e [K _]]].
    unfold BarChart.clickBar in K. rewrite E in K. lia.
Qed.

(** X12.  Whatever the user does (setter calls, map clicks, bar clicks,
    clearing the data), k never drops below 1 as long as no [setK] is
    called with a number below 1; and right after a click on an existing
    bar k is at most the number of bars. *)
Theorem k_stays_positive :
  forall (actions : list App.Action),
    (forall a k', In a actions -> a = App.SetK k' -> 1 <= k') ->
    1 <= AppStore.k (fold_left App.apply actions AppStore.initial)
    /\ forall validMseData i,
        let s := fold_left App.apply (actions ++ [App.BarClick validMseData i])
                           AppStore.initial in
        (i < List.length validMseData)%nat ->
        1 <= AppStore.k s <= Z.of_nat (List.length validMseData).
Proof.
  assert (G : forall actions s,
             1 <= AppStore.k s ->
             (forall a k', In a actions -> a = App.SetK k' -> 1 <= k') ->
             1 <= AppStore.k (fold_left App.apply actions s)).
  { induction actions as [|a rest IH]; intros s H Hk; simpl; [assumption|].
    apply IH.
    - apply apply_keeps_k_positive; [assumption|]. intros k' E.
      apply (Hk a k'); [now left | assumption].
    - intros b k' Hb. apply Hk. now right. }
  intros actions Hk. split.
  - apply G; [simpl; lia | assumption].
  - intros validMseData i s Hi. subst s. rewrite fold_left_app. simpl.
    set (s0 := fold_left App.apply actions AppStore.initial).
    destruct (nth_error validMseData i) as [d|] eqn:E.
    + destruct (clickBar_k validMseData i d s0 E) as [j [e [K [Hle _]]]].
      unfold BarChart.clickBar, BarChart.datum in K |- *. rewrite E in K |- *.
      lia.
    + apply nth_error_None in E. lia.
Qed.

Lemma k_stays_positive_witness :
  1 <= AppStore.k (fold_left App.apply
                             [App.SetK 7; App.MapClick (named "Canada");
                              App.BarClick [5; 3; 5]%Q 2]
                             AppStore.initial).
Proof.
  apply (k_stays_positive [App.SetK 7; App.MapClick (named "Canada");
                           App.BarClick [5; 3; 5]%Q 2]).
  intros a k' [<-|[<-|[<-|[]]]] E; try discriminate.
  injection E as <-. lia.
Defined.

(** ** Selection without repetition *)

Lemma NoDup_without (c : string) (l : list string) :
  NoDup l -> NoDup (filter (fun c' => negb (String.eqb c' c)) l).
Proof. apply NoDup_filter. Qed.


(** X13.  Two clicks on the same named country: when the country was not
    selected, the first click appends it and the second gives back exactly
    the selection there was; when it was selected, the first click removes
    every occurrence of it and the second puts it back at the end. *)
Theorem double_click_restores_selection :
  forall (countries : list string) (d : Feature) (c : string),
    Map.getCountryName d = Some c -> c <> ""%string ->
    exists once,
      Map.mouseClick countries d = Some once
      /\ (~ In c countries ->
            once = countries ++ [c]
            /\ Map.mouseClick once d = Some countries)
      /\ (In c countries ->
            ~ In c once
            /\ (forall n, n <> c -> In n once <-> In n countries)
            /\ Map.mouseClick once d = Some (once ++ [c])).
Proof.
  intros countries d c E N.
  rewrite (mouseClick_named countries d c E N).
  eexists. split; [reflexivity|].
  destruct (Map.includes c countries) eqn:I.
  - apply includes_In in I. split; [intros F; contradiction|]. intros _.
    assert (A : ~ In c (filter (fun c' => negb (String.eqb c' c)) countries))
      by (rewrite In_without; tauto).
    split; [exact A|]. split.
    + intros n Hn. rewrite In_without. tauto.
    + rewrite (mouseClick_named _ d c E N).
      assert (Map.includes c (filter (fun c' => negb (String.eqb c' c)) countries)
              = false) as ->; [|reflexivity].
      apply not_true_iff_false. now rewrite includes_In.
  - assert (A : ~ In c countries) by (rewrite <- includes_In; congruence).
    split; [|intros F; contradiction]. intros _.
    split; [reflexivity|].
    rewrite (mouseClick_named _ d c E N).
    assert (Map.includes c (countries ++ [c]) = true) as ->.
    { apply includes_In. rewrite in_app_iff. simpl. tauto. }
    f_equal. rewrite filter_app. simpl. rewrite String.eqb_refl. simpl.
    rewrite app_nil_r. now apply without_absent.
Qed.

Lemma double_click_restores_selection_witness :
  exists once,
    Map.mouseClick ["Chile"; "Peru"]%string (named "Canada") = Some once
    /\ Map.mouseClick once (named "Canada") = Some ["Chile"; "Peru"]%string.
Proof.
  destruct (double_click_restores_selection
              ["Chile"; "Peru"]%string (named "Canada") "Canada"%string eq_refl)
    as [once [M [A _]]]; [discriminate|].
  exists once. split; [exact M|]. apply A.
  intros [F|[F|[]]]; discriminate.
Defined.

Lemma click_keeps_NoDup (s : AppStore.AppStore) (d : Feature) :
  NoDup (AppStore.selectedCountries s) ->
  NoDup (AppStore.selectedCountries (Map.click d s)).
Proof.
  intros D. unfold Map.click, Map.mouseClick.
  destruct (Map.getCountryName d) as [c|] eqn:E; simpl; [|assumption].
  destruct (negb (String.eqb c "")) eqn:T; simpl; [|assumption].
  destruct (Map.includes c (AppStore.selectedCountries s)) eqn:I; simpl.
  - now apply NoDup_without.
  - apply NoDup_app; [assumption | repeat constructor; auto |].
    intros x Hx [<-|[]].
    apply includes_In in Hx. congruence.
Qed.

(** X14.  The selection never holds a name twice: it starts without
    repetition, and no map click, bar click or clearing introduces one, as
    long as [setSelectedCountries] itself is only given lists without
    repetition. *)
Theorem selection_never_repeats_a_name :
  forall (actions : list App.Action),
    (forall a countries, In a actions ->
       a = App.SetSelectedCountries countries -> NoDup countries) ->
    NoDup (AppStore.selectedCountries
             (fold_left App.apply actions AppStore.initial)).
Proof.
  assert (G : forall actions s,
             NoDup (AppStore.selectedCountries s) ->
             (forall a countries, In a actions ->
                a = App.SetSelectedCountries countries -> NoDup countries) ->
             NoDup (AppStore.selectedCountries (fold_left App.apply actions s))).
  { induction actions as [|a rest IH]; intros s D H; simpl; [assumption|].
    apply IH; [|intros b l Hb; apply H; now right].
    destruct a; simpl; try assumption.
    - apply (H (App.SetSelectedCountries countries)); [now left | reflexivity].
    - constructor.
    - now apply click_keeps_NoDup.
    - unfold BarChart.clickBar.
      destruct (BarChart.datum validMseData i); assumption. }
  intros actions H. apply G; [|assumption].
  simpl. repeat constructor; simpl; intuition discriminate.
Qed.

Lemma selection_never_repeats_a_name_witness :
  NoDup (AppStore.selectedCountries
           (fold_left App.apply
                      [App.MapClick (named "Canada"); App.MapClick (named "China");
                       App.MapClick (named "Canada")]
                      AppStore.initial)).
Proof.
  apply (selection_never_repeats_a_name
           [App.MapClick (named "Canada"); App.MapClick (named "China");
            App.MapClick (named "Canada")]).
  intros a countries [<-|[<-|[<-|[]]]] E; discriminate.
Defined.

(** X15.  Clicks on two different named countries can be made in either
    order: the same countries are selected afterwards. *)
Theorem clicks_on_two_countries_commute :
  forall (s : AppStore.AppStore) (d1 d2 : Feature) (c1 c2 : string),
    Map.getCountryName d1 = Some c1 -> c1 <> ""%string ->
    Map.getCountryName d2 = Some c2 -> c2 <> ""%string ->
    c1 <> c2 ->
    forall n,
      In n (AppStore.selectedCountries (Map.click d2 (Map.click d1 s)))
      <-> In n (AppStore.selectedCountries (Map.click d1 (Map.click d2 s))).
Proof.
  intros s d1 d2 c1 c2 E1 N1 E2 N2 D n.
  assert (M : forall s d c, Map.getCountryName d = Some c -> c <> ""%string ->
              forall n, In n (AppStore.selectedCountries (Map.click d s)) <->
                        (n <> c /\ In n (AppStore.selectedCountries s))
                        \/ (n = c /\ ~ In c (AppStore.selectedCountries s))).
  { intros s0 d c E N m. rewrite (click_named s0 d c E N).
    destruct (Map.includes c (AppStore.selectedCountries s0)) eqn:I.
    - apply includes_In in I. rewrite In_without. split; [tauto|].
      intros [[? ?]|[? ?]]; [tauto | contradiction].
    - assert (A : ~ In c (AppStore.selectedCountries s0))
        by (rewrite <- includes_In; congruence).
      rewrite in_app_iff. simpl.
      destruct (string_dec m c) as [->|Dm]; [tauto|].
      split; [intros [?|[?|[]]]; [tauto | congruence] | tauto]. }
  rewrite (M _ d2 c2 E2 N2), (M _ d1 c1 E1 N1 n), (M _ d1 c1 E1 N1 c2).
  rewrite (M _ d1 c1 E1 N1), (M _ d2 c2 E2 N2 n), (M _ d2 c2 E2 N2 c1).
  destruct (string_dec n c1) as [X1|D1]; destruct (string_dec n c2) as [X2|D2];
    try congruence; intuition congruence.
Qed.

Lemma clicks_on_two_countries_commute_witness :
  In "Canada"%string
     (AppStore.selectedCountries
        (Map.click (named "China") (Map.click (named "Canada") AppStore.initial)))
  <-> In "Canada"%string
         (AppStore.selectedCountries
            (Map.click (named "Canada") (Map.click (named "China") AppStore.initial))).
Proof.
  apply (clicks_on_two_countries_commute
           AppStore.initial (named "Canada") (named "China")
           "Canada"%string "China"%string eq_refl);
    [discriminate | reflexivity | discriminate | discriminate].
Defined.

End ClickFacts.

(** ** What the three views draw *)

Section ViewFacts.

Import NumArray JS DataService Getters.

Lemma In_firstn_In {A} (n : nat) (l : list A) (a : A) :
  In a (firstn n l) -> In a l.
Proof.
  revert l. induction n as [|n IH]; intros [|h t]; simpl; try tauto.
  intros [->|H]; [now left | right; now apply IH].
Qed.

Lemma includes_Str (v : value) (selected : list string) :
  ScatterData.includes v selected = true <->
  exists c, In c selected /\ v = Str c.
Proof.
  unfold ScatterData.includes. rewrite existsb_exists. split.
  - intros [c [Hc E]]. exists c. split; [assumption|].
    destruct v as [| |n|s]; simpl in E; try discriminate.
    apply String.eqb_eq in E. now subst.
  - intros [c [Hc ->]]. exists c. split; [assumption|].
    simpl. apply String.eqb_refl.
Qed.

Lemma finite_positive (n : number) :
  isFinite n = true -> positive n = true -> exists q, n = Num q /\ (0 < q)%Q.
Proof.
  destruct n as [|q|b]; simpl; try discriminate.
  intros _ P. exists q. split; [reflexivity|]. now apply Qltb_iff.
Qed.

(** X16.  The points the scatter plot draws: each has two finite, positive
    coordinates, is the projection of a loaded country record on the two
    chosen variables, and, when countries are selected, is one of them;
    with no selection at most 50 points are drawn, and never more points
    than loaded records. *)
Theorem scatter_plots_usable_points :
  forall (s : Service) (selectedCountries : list string)
         (xVariable yVariable : ChartFeature),
    let points := ScatterData.plotted s selectedCountries xVariable yVariable in
    (forall p, In p points ->
       (exists qx qy, ScatterData.x p = Num qx /\ ScatterData.y p = Num qy
                      /\ (0 < qx)%Q /\ (0 < qy)%Q)
       /\ (exists key d, In (key, d) (worldData s)
                         /\ ScatterData.country p = get d "Country"
                         /\ ScatterData.x p = ScatterData.getValue d xVariable
                         /\ ScatterData.y p = ScatterData.getValue d yVariable)
       /\ (selectedCountries <> [] ->
           exists c, In c selectedCountries /\ ScatterData.country p = Str c))
    /\ (selectedCountries = [] -> (List.length points <= 50)%nat)
    /\ (List.length points <= List.length (worldData s))%nat.
Proof.
  intros s sel xV yV points.
  set (allData := map snd (worldData s)).
  set (filteredData :=
         if (0 <? List.length sel)%nat
         then filter (fun d => ScatterData.includes (get d "Country") sel) allData
         else firstn 50 allData).
  set (mk := fun d => {| ScatterData.country := get d "Country";
                         ScatterData.x := ScatterData.getValue d xV;
                         ScatterData.y := ScatterData.getValue d yV |}).
  set (ok := fun d => negb (isNaN (ScatterData.x d)) && negb (isNaN (ScatterData.y d))
                      && isFinite (ScatterData.x d) && isFinite (ScatterData.y d)
                      && positive (ScatterData.x d) && positive (ScatterData.y d)).
  assert (P : points = filter ok (map mk filteredData)).
  { unfold points, ScatterData.plotted. fold allData. fold filteredData.
    destruct filteredData; reflexivity. }
  assert (Sub : forall d, In d filteredData ->
                  In d allData
                  /\ (sel <> [] -> exists c, In c sel /\ get d "Country" = Str c)).
  { intros d H. unfold filteredData in H. destruct sel as [|c0 sel'].
    - cbn [List.length Nat.ltb Nat.leb] in H.
      split; [now apply In_firstn_In in H | congruence].
    - cbn [List.length Nat.ltb Nat.leb] in H. apply filter_In in H.
      destruct H as [H I]. split; [assumption|]. intros _.
      now apply includes_Str. }
  split; [|split].
  - intros p H. rewrite P in H. apply filter_In in H. destruct H as [H V].
    apply in_map_iff in H. destruct H as [d [<- Hd]].
    unfold ok in V. cbn [mk ScatterData.x ScatterData.y ScatterData.country] in *.
    rewrite !andb_true_iff in V.
    destruct V as [[[[[_ _] Fx] Fy] Px] Py].
    destruct (finite_positive _ Fx Px) as [qx [Ex Hx]].
    destruct (finite_positive _ Fy Py) as [qy [Ey Hy]].
    destruct (Sub d Hd) as [Ha Hs].
    split; [exists qx, qy; auto|]. split; [|exact Hs].
    unfold allData in Ha. apply in_map_iff in Ha.
    destruct Ha as [[key d'] [E Hin]]. simpl in E. subst d'.
    exists key, d. auto.
  - intros ->. rewrite P. etransitivity; [apply filter_length_le|].
    rewrite length_map. unfold filteredData. cbn [List.length Nat.ltb Nat.leb].
    rewrite length_firstn. lia.
  - rewrite P. etransitivity; [apply filter_length_le|]. rewrite length_map.
    unfold filteredData. destruct (0 <? List.length sel)%nat.
    + etransitivity; [apply filter_length_le|]. unfold allData.
      now rewrite length_map.
    + rewrite length_firstn. unfold allData. rewrite length_map. lia.
Qed.

(** X17.  The lines the parallel-coordinates plot draws: each comes from a
    loaded row, holds a positive number that is not [NaN] on every one of
    the plot's columns, and, when countries are selected, belongs to one of
    them; with no selection at most 20 lines are drawn, and never more
    lines than loaded rows. *)
Theorem pcp_draws_complete_records :
  forall (s : Service) (selectedCountries : list string),
    let lines := PCPData.drawn s selectedCountries in
    (forall r, In r lines ->
       In (pOriginalData r) (csvData s)
       /\ (forall col, In col PCP.columns ->
             exists v, field (pFields r) col = Some v
                       /\ v = cell (pOriginalData r) col
                       /\ v <> NaN /\ positive v = true)
       /\ (selectedCountries <> [] ->
           exists c, In c selectedCountries /\ pCountry r = Str c))
    /\ (selectedCountries = [] -> (List.length lines <= 20)%nat)
    /\ (List.length lines <= List.length (csvData s))%nat.
Proof.
  intros s sel lines.
  assert (Fwd : forall r, In r (getValidDataForPCP s PCP.columns) ->
            In (pOriginalData r) (csvData s)
            /\ forall col, In col PCP.columns ->
                 exists v, field (pFields r) col = Some v
                           /\ v = cell (pOriginalData r) col
                           /\ v <> NaN /\ positive v = true).
  { intros r H. apply pcp_member in H. destruct H as [d [Hin [-> V]]].
    cbn [pOriginalData pFields]. split; [assumption|].
    intros col Hc. exists (cell d col).
    split; [now apply fields_assigned|]. split; [reflexivity|].
    apply valid_spec. now apply V. }
  assert (Len : (List.length (getValidDataForPCP s PCP.columns)
                 <= List.length (csvData s))%nat).
  { unfold getValidDataForPCP. destruct (csvData s) as [|d0 t]; [simpl; lia|].
    cbn [List.length Nat.eqb]. etransitivity; [apply filter_length_le|].
    now rewrite length_map. }
  split; [|split].
  - intros r H. unfold lines, PCPData.drawn in H. destruct sel as [|c0 sel'].
    + cbn [List.length Nat.ltb Nat.leb] in H.
      apply In_firstn_In in H. destruct (Fwd r H) as [A C].
      split; [assumption|]. split; [assumption | congruence].
    + cbn [List.length Nat.ltb Nat.leb] in H. apply filter_In in H.
      destruct H as [H I]. destruct (Fwd r H) as [A C].
      split; [assumption|]. split; [assumption|]. intros _.
      now apply includes_Str.
  - intros ->. unfold lines, PCPData.drawn. cbn [List.length Nat.ltb Nat.leb].
    rewrite length_firstn. lia.
  - unfold lines, PCPData.drawn. destruct (0 <? List.length sel)%nat.
    + etransitivity; [apply filter_length_le | exact Len].
    + rewrite length_firstn. lia.
Qed.

(** A name that no row carries has no record after an API load. *)
Lemma mapGet_absent (rows : list Row) (key : value) :
  forall m,
    mapGet key m = None ->
    (forall d, In d rows -> truthy (apiName d) = true ->
               sameValueZero (apiName d) key = false) ->
    mapGet key (fold_left addApiRow rows m) = None.
Proof.
  induction rows as [|d t IH]; intros m Hm H; simpl; [assumption|].
  apply IH; [|intros d' Hd'; apply H; now right].
  rewrite addApiRow_spec. destruct (truthy (apiName d)) eqn:T; [|assumption].
  rewrite mapGet_mapSet, (H d (or_introl eq_refl) T). assumption.
Qed.

(** The cell the API record of a row holds for a feature. *)
Lemma apiRecord_cell (d : Row) (feature : ChartFeature) :
  get (apiRecord d) (featureName feature)
  = or (get d (FIELD_MAP feature)) (Number (Num 0)).
Proof. destruct feature; reflexivity. Qed.

(** X18.  How the map fills a named country after an API load.  A country
    that no loaded row names is grey.  A country named by the last row is
    grey when that row's cell for the feature is missing, empty or zero;
    when the cell is a number it is coloured by that number if the number
    is positive and grey otherwise; when the cell is a non-empty text it
    is coloured by the number read from the text without its commas,
    dollar and percent signs, unless that is [NaN], zero or negative. *)
Theorem map_fill_policy :
  forall (s : Service) (geo : GeoResponse) (rows : list Row) (d : Row)
         (feature : ChartFeature) (f : Feature) (c : string),
    Map.getCountryName f = Some c -> c <> ""%string ->
    let loaded countries := fst (tryApi (ApiBodies geo countries) s) in
    ((forall d', In d' rows -> truthy (apiName d') = true ->
                 sameValueZero (apiName d') (Str c) = false) ->
     MapFill.fill (loaded rows) feature f = MapFill.Neutral)
    /\ (apiName d = Str c ->
        let cellValue := get d (FIELD_MAP feature) in
        (truthy cellValue = false ->
         MapFill.fill (loaded (rows ++ [d])) feature f = MapFill.Neutral)
        /\ (forall q, cellValue = Number (Num q) ->
              MapFill.fill (loaded (rows ++ [d])) feature f
              = if Qltb 0 q then MapFill.Scaled (Num q) else MapFill.Neutral)
        /\ (forall str, cellValue = Str str -> str <> ""%string ->
              MapFill.fill (loaded (rows ++ [d])) feature f
              = let numValue := parseFloat (ScatterData.stripSymbols str) in
                if (isNaN numValue || MapFill.nonPositive numValue)%bool
                then MapFill.Neutral else MapFill.Scaled numValue)).
Proof.
  intros s geo rows d feature f c E N loaded. subst loaded. cbv beta. split.
  - intros H. unfold MapFill.fill. rewrite E.
    cbn [tryApi fst worldData].
    now rewrite (mapGet_absent rows (Str c) [] eq_refl H).
  - intros Hn cellValue.
    assert (T : truthy (apiName d) = true).
    { rewrite Hn. simpl. apply String.eqb_neq in N. now rewrite N. }
    assert (G : mapGet (Str c)
                  (worldData (fst (tryApi (ApiBodies geo (rows ++ [d])) s)))
                = Some (apiRecord d)).
    { cbn [tryApi fst worldData]. rewrite fold_left_app. cbn [fold_left].
      rewrite addApiRow_spec, T, mapGet_mapSet, Hn.
      simpl. now rewrite String.eqb_refl. }
    assert (F : MapFill.fill (fst (tryApi (ApiBodies geo (rows ++ [d])) s))
                             feature f
                = let value :=
                    match or cellValue (Number (Num 0)) with
                    | Str v => Str (ScatterData.stripSymbols v)
                    | v => v
                    end in
                  let numValue := MapFill.parseFloatOf value in
                  if (isNaN numValue || MapFill.nonPositive numValue)%bool
                  then MapFill.Neutral else MapFill.Scaled numValue).
    { unfold MapFill.fill. rewrite E, G, apiRecord_cell. reflexivity. }
    split; [|split].
    + intros Fz. rewrite F. unfold or. rewrite Fz. reflexivity.
    + intros q Hq. rewrite F. unfold cellValue in Hq |- *. rewrite Hq.
      unfold or. simpl. destruct (Qeq_bool q 0) eqn:Z; simpl.
      * apply Qeq_bool_iff in Z.
        assert (Qltb 0 q = false) as ->; [|reflexivity].
        apply Qltb_false_iff. rewrite Z. apply Qle_refl.
      * unfold Qltb. destruct (Qle_bool q 0); reflexivity.
    + intros str Hs Ns. rewrite F. unfold cellValue in Hs |- *. rewrite Hs.
      unfold or. simpl. apply String.eqb_neq in Ns. rewrite Ns. reflexivity.
Qed.

Lemma map_fill_policy_witness :
  MapFill.fill sampleService GDP (named "Atlantis") = MapFill.Neutral.
Proof.
  destruct (map_fill_policy DataService.empty
              (FeatureArray [named "Canada"; named "Antarctica"])
              sampleRows [] GDP (named "Atlantis") "Atlantis"%string eq_refl)
    as [A _]; [discriminate|].
  apply A. intros d' H _.
  repeat (destruct H as [<-|H]; [reflexivity|]). contradiction.
Defined.

End ViewFacts.

(** ** Order and extremes of the cluster assignment *)

Section ClusterOrderFacts.

Import NumArray.

Lemma countLt_mono (v v' : Q) (l : list Q) :
  (v <= v')%Q -> countLt v l <= countLt v' l.
Proof.
  intros H. induction l as [|h t IH]; simpl; [lia|].
  destruct (Qltb h v) eqn:A.
  - apply Qltb_iff in A.
    assert (Qltb h v' = true) as -> by (apply Qltb_iff; eapply Qlt_le_trans; eauto).
    lia.
  - destruct (Qltb h v'); lia.
Qed.

Lemma scaled_mono (a a' n b b' m k : Z) :
  0 < n -> 0 < m -> 0 <= k -> a <= a' -> b <= b' ->
  (scaled a n b m k <= scaled a' n b' m k)%Q.
Proof.
  intros Hn Hm Hk Ha Hb. unfold scaled.
  assert (Qn : (0 < inject_Z n)%Q) by (change 0%Q with (inject_Z 0); now rewrite <- Zlt_Qlt).
  assert (Qm : (0 < inject_Z m)%Q) by (change 0%Q with (inject_Z 0); now rewrite <- Zlt_Qlt).
  assert (Qk : (0 <= inject_Z k)%Q) by (change 0%Q with (inject_Z 0); now rewrite <- Zle_Qle).
  assert (Qa : (inject_Z a / inject_Z n <= inject_Z a' / inject_Z n)%Q).
  { apply Qmult_le_compat_r; [now rewrite <- Zle_Qle|].
    apply Qlt_le_weak. now apply Qinv_lt_0_compat. }
  assert (Qb : (inject_Z b / inject_Z m <= inject_Z b' / inject_Z m)%Q).
  { apply Qmult_le_compat_r; [now rewrite <- Zle_Qle|].
    apply Qlt_le_weak. now apply Qinv_lt_0_compat. }
  set (p := (inject_Z a / inject_Z n)%Q) in *.
  set (p' := (inject_Z a' / inject_Z n)%Q) in *.
  set (q := (inject_Z b / inject_Z m)%Q) in *.
  set (q' := (inject_Z b' / inject_Z m)%Q) in *.
  set (K := inject_Z k) in *.
  assert (E : forall u, (u * K / 2 == u * K * (1 # 2))%Q) by (intros; field).
  rewrite !E. clear - Qa Qb Qk. nra.
Qed.

Lemma length_pos_of_member {A B} (f : A -> B) (data : list A) (point : A) :
  In point data -> 0 < Z.of_nat (List.length (map f data)).
Proof. intros H. rewrite length_map. destruct data; [contradiction | simpl; lia]. Qed.

(** X19.  In both views the cluster assignment respects the order of the
    records: for k >= 0, a record that is not above another one on either
    of the two fields used (x and y in the scatter plot, CO2 emissions and
    GDP in the parallel-coordinates plot) never gets a higher cluster. *)
Theorem assignCluster_monotone :
  forall k : Z, 0 <= k ->
    (forall data p q, In p data -> In q data ->
       (ScatterPlot.x p <= ScatterPlot.x q)%Q ->
       (ScatterPlot.y p <= ScatterPlot.y q)%Q ->
       ScatterPlot.assignCluster data k p <= ScatterPlot.assignCluster data k q)
    /\ (forall filteredData p q, In p filteredData -> In q filteredData ->
       (PCP.co2Emissions p <= PCP.co2Emissions q)%Q ->
       (PCP.gdp p <= PCP.gdp q)%Q ->
       PCP.assignCluster filteredData k p <= PCP.assignCluster filteredData k q).
Proof.
  intros k Hk. split; intros data p q Hp Hq Hx Hy.
  - rewrite (scatter_unfold data k p Hp), (scatter_unfold data k q Hq).
    apply Z.min_le_compat_r. apply Qfloor_resp_le. apply scaled_mono;
      try (eapply length_pos_of_member; eauto); try assumption;
      now apply countLt_mono.
  - rewrite (pcp_unfold data k p Hp), (pcp_unfold data k q Hq).
    apply Z.min_le_compat_r. apply Qfloor_resp_le. apply scaled_mono;
      try (eapply length_pos_of_member; eauto); try assumption;
      now apply countLt_mono.
Qed.

Lemma assignCluster_monotone_witness :
  ScatterPlot.assignCluster
    [ScatterPlot.mkPoint "A" 1 1; ScatterPlot.mkPoint "B" 2 3] 4
    (ScatterPlot.mkPoint "A" 1 1)
  <= ScatterPlot.assignCluster
       [ScatterPlot.mkPoint "A" 1 1; ScatterPlot.mkPoint "B" 2 3] 4
       (ScatterPlot.mkPoint "B" 2 3).
Proof.
  assert (K : 0 <= 4) by discriminate.
  apply (proj1 (assignCluster_monotone 4 K)).
  - left. reflexivity.
  - right. left. reflexivity.
  - discriminate.
  - discriminate.
Defined.

Lemma countLt_all (v : Q) (l : list Q) :
  (forall w, In w l -> (w < v)%Q) -> countLt v l = Z.of_nat (List.length l).
Proof.
  induction l as [|h t IH]; intros H; [reflexivity|].
  simpl countLt. rewrite (proj2 (Qltb_iff h v)) by (apply H; now left).
  rewrite IH by (intros w Hw; apply H; now right).
  simpl List.length. lia.
Qed.

(** The rank of the one record that is above all the others. *)
Lemma countLt_top {A} (f : A -> Q) (data : list A) (p : A) :
  NoDup data -> In p data ->
  (forall r, In r data -> r <> p -> (f r < f p)%Q) ->
  countLt (f p) (map f data) = Z.of_nat (List.length (map f data)) - 1.
Proof.
  induction 1 as [|h t Hh Hn IH]; intros Hin Hlt; [contradiction|].
  simpl map. simpl countLt. simpl List.length.
  destruct Hin as [->|Hin].
  - assert (Qltb (f p) (f p) = false) as ->
        by (apply Qltb_false_iff; apply Qle_refl).
    rewrite countLt_all.
    + lia.
    + intros w Hw. apply in_map_iff in Hw. destruct Hw as [r [<- Hr]].
      apply Hlt; [now right|]. intros ->. contradiction.
  - assert (h <> p) by (intros ->; contradiction).
    rewrite (proj2 (Qltb_iff (f h) (f p))) by (apply Hlt; [now left | assumption]).
    rewrite IH; [lia | assumption |].
    intros r Hr. apply Hlt. now right.
Qed.

Lemma scaled_bottom (n m k : Z) : (scaled 0 n 0 m k == 0)%Q.
Proof. unfold scaled, Qdiv. change (inject_Z 0) with 0%Q. ring. Qed.

Lemma inject_Z_pred (n : Z) : (inject_Z (n - 1) == inject_Z n - 1)%Q.
Proof. unfold Z.sub. rewrite inject_Z_plus. reflexivity. Qed.

Lemma floor_top (n k : Z) :
  1 <= k <= n -> Qfloor (scaled (n - 1) n (n - 1) n k) = k - 1.
Proof.
  intros [Hk Hn].
  assert (Qn : (0 < inject_Z n)%Q)
    by (change 0%Q with (inject_Z 0); rewrite <- Zlt_Qlt; lia).
  assert (E : (scaled (n - 1) n (n - 1) n k
               == inject_Z k - inject_Z k / inject_Z n)%Q).
  { unfold scaled. rewrite !inject_Z_pred.
    field. intros F. rewrite F in Qn. now apply Qlt_irrefl in Qn. }
  assert (R0 : (0 < inject_Z k / inject_Z n)%Q).
  { apply Qlt_shift_div_l; [assumption|]. rewrite Qmult_0_l.
    change 0%Q with (inject_Z 0). rewrite <- Zlt_Qlt. lia. }
  assert (R1 : (inject_Z k / inject_Z n <= 1)%Q).
  { apply Qle_shift_div_r; [assumption|]. rewrite Qmult_1_l.
    now rewrite <- Zle_Qle. }
  rewrite (Qfloor_comp _ _ E).
  apply Z.le_antisymm.
  - apply floor_below. lra.
  - apply floor_above. rewrite inject_Z_pred. lra.
Qed.

(** X20.  The ends of the cluster range, for k >= 1 and in both views: a
    record that no record is below on either field gets cluster 0; and when
    there are at least k records, without repetition, the record that is
    strictly above all the others on both fields gets the last cluster,
    k - 1. *)
Theorem assignCluster_extremes :
  forall k : Z, 1 <= k ->
    (forall data p, In p data ->
       (forall r, In r data ->
          (ScatterPlot.x p <= ScatterPlot.x r)%Q
          /\ (ScatterPlot.y p <= ScatterPlot.y r)%Q) ->
       ScatterPlot.assignCluster data k p = 0)
    /\ (forall data p, NoDup data -> In p data ->
       (forall r, In r data -> r <> p ->
          (ScatterPlot.x r < ScatterPlot.x p)%Q
          /\ (ScatterPlot.y r < ScatterPlot.y p)%Q) ->
       k <= Z.of_nat (List.length data) ->
       ScatterPlot.assignCluster data k p = k - 1)
    /\ (forall filteredData p, In p filteredData ->
       (forall r, In r filteredData ->
          (PCP.co2Emissions p <= PCP.co2Emissions r)%Q
          /\ (PCP.gdp p <= PCP.gdp r)%Q) ->
       PCP.assignCluster filteredData k p = 0)
    /\ (forall filteredData p, NoDup filteredData -> In p filteredData ->
       (forall r, In r filteredData -> r <> p ->
          (PCP.co2Emissions r < PCP.co2Emissions p)%Q
          /\ (PCP.gdp r < PCP.gdp p)%Q) ->
       k <= Z.of_nat (List.length filteredData) ->
       PCP.assignCluster filteredData k p = k - 1).
Proof.
  intros k Hk.
  assert (Bottom : forall {A} (f : A -> Q) (data : list A) (p : A),
             (forall r, In r data -> (f p <= f r)%Q) ->
             countLt (f p) (map f data) = 0).
  { intros A f data p H. apply countLt_none. apply Forall_forall.
    intros w Hw. apply in_map_iff in Hw. destruct Hw as [r [<- Hr]]. now apply H. }
  split; [|split; [|split]].
  - intros data p Hp H. rewrite (scatter_unfold data k p Hp).
    rewrite !Bottom by (intros r Hr; now apply H).
    rewrite (Qfloor_comp _ _ (scaled_bottom _ _ _)).
    change (Qfloor 0) with 0. lia.
  - intros data p D Hp H Hn. rewrite (scatter_unfold data k p Hp).
    rewrite !countLt_top by (try assumption; intros r Hr Nr; now apply H).
    rewrite !length_map, floor_top by lia. lia.
  - intros data p Hp H. rewrite (pcp_unfold data k p Hp).
    rewrite !Bottom by (intros r Hr; now apply H).
    rewrite (Qfloor_comp _ _ (scaled_bottom _ _ _)).
    change (Qfloor 0) with 0. lia.
  - intros data p D Hp H Hn. rewrite (pcp_unfold data k p Hp).
    rewrite !countLt_top by (try assumption; intros r Hr Nr; now apply H).
    rewrite !length_map, floor_top by lia. lia.
Qed.

Lemma assignCluster_extremes_witness :
  ScatterPlot.assignCluster
    [ScatterPlot.mkPoint "A" 1 1; ScatterPlot.mkPoint "B" 2 3] 2
    (ScatterPlot.mkPoint "A" 1 1) = 0
  /\ ScatterPlot.assignCluster
       [ScatterPlot.mkPoint "A" 1 1; ScatterPlot.mkPoint "B" 2 3] 2
       (ScatterPlot.mkPoint "B" 2 3) = 2 - 1.
Proof.
  assert (K : 1 <= 2) by discriminate.
  destruct (assignCluster_extremes 2 K) as [L [H _]].
  split.
  - apply L; [left; reflexivity|].
    intros r [<-|[<-|[]]]; split; discriminate.
  - apply H.
    + constructor; [intros [F|[]]; discriminate|].
      constructor; [intros []|constructor].
    + right. left. reflexivity.
    + intros r [<-|[<-|[]]] N; [split; reflexivity | contradiction].
    + discriminate.
Defined.

End ClusterOrderFacts.

(** ** The bars of the error chart, and the seeding parser *)

Section BarDataFacts.

Import NumArray JS DataService Getters.

(** What [processDataForClustering] returns is usable whatever the
    requests brought back. *)
Lemma processed_values (parseInt : value -> number) (data : list Row) (k : Z)
      (f : Clustering.Fetched) :
  let result := Clustering.processDataForClustering parseInt data k f in
  Forall (fun v => v <> NaN) (Clustering.mseValues result)
  /\ falsy (Clustering.optimalK result) = false
  /\ Clustering.clusterData result = data.
Proof.
  destruct f as [| |mseData optimalData]; cbn.
  - split; [|split; reflexivity]. repeat constructor; discriminate.
  - split; [|split; reflexivity]. repeat constructor; discriminate.
  - split; [|split; [|reflexivity]].
    + apply Forall_forall. intros v H. apply in_map_iff in H.
      destruct H as [m [<- _]]. apply orZero_not_NaN.
    + destruct (falsy (parseInt optimalData)) eqn:E; [reflexivity | exact E].
Qed.

(** One run of [loadMseData] keeps the bars usable. *)
Lemma loadMseData_keeps (parseInt : value -> number) loaded csv k f st :
  BarChartData.mseData st <> []
  /\ Forall (fun v => v <> NaN) (BarChartData.mseData st)
  /\ falsy (BarChartData.optimalK st) = false ->
  let st' := BarChartData.loadMseData parseInt loaded csv k f st in
  BarChartData.mseData st' <> []
  /\ Forall (fun v => v <> NaN) (BarChartData.mseData st')
  /\ falsy (BarChartData.optimalK st') = false.
Proof.
  intros [A [B C]]. cbv zeta.
  unfold BarChartData.loadMseData. destruct loaded as [|e].
  - destruct (processed_values parseInt csv k f) as [P [Q _]]. cbv zeta in P, Q.
    destruct (Clustering.mseValues _) as [|v t] eqn:M.
    + cbn [List.length Nat.ltb Nat.leb BarChartData.mseData BarChartData.optimalK].
      auto.
    + cbn [List.length Nat.ltb Nat.leb BarChartData.mseData BarChartData.optimalK].
      split; [discriminate|]. split; assumption.
  - cbn [BarChartData.mseData BarChartData.optimalK]. auto.
Qed.

(** X24.  Whatever [parseInt] returns and however often and with whatever
    outcome the error values are loaded, the bar chart has at least one
    bar, no bar value is [NaN], and the optimal k is neither [NaN] nor 0;
    after a load the component is no longer loading.  A load whose
    clustering requests fail or are not ok shows the ten fallback values
    of the data service with optimal k 4; a load whose [loadAllData] is
    rejected keeps the bars and the optimal k there were. *)
Theorem bar_chart_always_has_bars :
  forall (parseInt : value -> number)
         (loads : list (Result * list Row * Z * Clustering.Fetched)),
    let st :=
      fold_left (fun st '(loaded, csv, k, f) =>
                   BarChartData.loadMseData parseInt loaded csv k f st)
                loads BarChartData.initial in
    BarChartData.validMseData st <> []
    /\ Forall (fun v => v <> NaN) (BarChartData.validMseData st)
    /\ BarChartData.optimalK st <> NaN
    /\ BarChartData.optimalK st <> Num 0
    /\ (loads <> [] -> BarChartData.isLoading st = false)
    /\ (forall csv k f,
          f = Clustering.Thrown \/ f = Clustering.NotOk ->
          let st' := BarChartData.loadMseData parseInt Resolved csv k f st in
          BarChartData.mseData st' = Clustering.fallbackMseValues
          /\ BarChartData.optimalK st' = Num 4)
    /\ (forall csv k e f,
          let st' := BarChartData.loadMseData parseInt (Rejected e) csv k f st in
          BarChartData.mseData st' = BarChartData.mseData st
          /\ BarChartData.optimalK st' = BarChartData.optimalK st).
Proof.
  intros parseInt loads st.
  pose (usable := fun s : BarChartData.State =>
                    BarChartData.mseData s <> []
                    /\ Forall (fun v => v <> NaN) (BarChartData.mseData s)
                    /\ falsy (BarChartData.optimalK s) = false).
  assert (G : forall l s,
             usable s ->
             usable (fold_left (fun st '(loaded, csv, k, f) =>
                        BarChartData.loadMseData parseInt loaded csv k f st)
                      l s)).
  { induction l as [|[[[loaded csv] k] f] t IH]; intros s H; simpl;
      [assumption|].
    apply IH. now apply loadMseData_keeps. }
  assert (I : usable st).
  { apply G. unfold usable. cbn. split; [discriminate|].
    split; [repeat constructor; discriminate | reflexivity]. }
  unfold usable in I. clear G usable.
  destruct I as [A [B C]]. unfold BarChartData.validMseData.
  rewrite map_id.
  split; [exact A|]. split; [exact B|].
  split; [intros E; rewrite E in C; discriminate|].
  split; [intros E; rewrite E in C; discriminate|].
  split; [|split].
  - intros N. subst st. destruct loads as [|x t] using rev_ind; [congruence|].
    rewrite fold_left_app. destruct x as [[[loaded csv] k] f]. cbn [fold_left].
    unfold BarChartData.loadMseData. destruct loaded; [|reflexivity].
    destruct (0 <? _)%nat; reflexivity.
  - intros csv k f [-> | ->]; split; reflexivity.
  - intros csv k e f. split; reflexivity.
Qed.

(** X25.  The parser of the seeding script and the parser of the dashboard
    agree: where the script stores null the dashboard reads 0; where the
    script stores a number that is not zero or [NaN] the dashboard reads
    the same number; a zero read from a text is 0 for both; and the script
    never stores [NaN] for a text. *)
Theorem seed_parser_agrees_with_dashboard :
  forall v : value,
    (Seed.parseNumericValue v = None -> parseNumericValue v = Num 0)
    /\ (forall n, Seed.parseNumericValue v = Some n ->
          (falsy n = false -> parseNumericValue v = n)
          /\ (falsy n = true -> (exists s, v = Str s) ->
              parseNumericValue v = Num 0)
          /\ ((exists s, v = Str s) -> n <> NaN)).
Proof.
  intros [| |n|s]; cbn [Seed.parseNumericValue parseNumericValue].
  - split; [reflexivity | discriminate].
  - split; [reflexivity | discriminate].
  - split; [discriminate|]. intros m H. injection H as <-.
    split; [reflexivity|].
    split; [intros _ [s Hs] | intros [s Hs]]; discriminate.
  - destruct (negb (truthy (Str s))) eqn:T.
    + split; [|discriminate]. intros _.
      simpl in T. rewrite negb_involutive in T. apply String.eqb_eq in T.
      subst s. reflexivity.
    + destruct (parseFloat _) as [|q|b] eqn:P.
      * split; [reflexivity | discriminate].
      * split; [discriminate|]. intros m H. injection H as <-.
        unfold orZero. split; [intros ->; reflexivity|].
        split; [intros ->; reflexivity | discriminate].
      * split; [discriminate|]. intros m H. injection H as <-.
        unfold orZero. split; [intros ->; reflexivity|].
        split; [intros ->; reflexivity | discriminate].
Qed.

End BarDataFacts.
